(** * ThreadPresenter: the conversation-generation orchestrator

    A shallow embedding of [src/main/presenter/threadPresenter/index.ts]:
    the stream event handlers registered by the constructor, the error
    finalisation, the start-up recovery, the search step and the prompt
    assembly of [startStreamCompletion], the cancellation of generations
    and the search prompt.

    Conventions of the embedding.
    - A JavaScript string is the list of its UTF-16 code units.
    - Integral JavaScript numbers (token counts, millisecond clock readings,
      the context length) are in [Z]; the one quotient the code computes,
      [tokensPerSecond], is a [jsnum].
    - An object held by reference inside an array is named by its index in
      that array.
    - Asynchronous code is run to completion: a handler is a computation in
      the monad [M], which threads the presenter's state and carries a thrown
      value next to the state reached when it was thrown.
    - [Date.now()] reads the clock of the world; the clock does not move
      during one run of a handler. *)

From Corelib Require Import PrimFloat.
From Stdlib Require Import ZArith QArith Lia List String Ascii.
From stdpp Require Import base decidable option list.
Import ListNotations.

Set Default Proof Using "Type".

(** ** JavaScript strings *)

Definition jsstring := list N.

Definition lit (s : string) : jsstring :=
  map N_of_ascii (list_ascii_of_string s).

(** A string is truthy when it is not empty; [undefined] is [None]. *)
Definition truthy (s : jsstring) : bool :=
  match s with [] => false | _ :: _ => true end.

Definition truthy_opt (s : option jsstring) : bool :=
  match s with Some s => truthy s | None => false end.

Definition newline : jsstring := [10%N].

(** ** Content blocks of an assistant message *)

Inductive BlockType := TyContent | TyReasoningContent | TySearch | TyError.
Inductive BlockStatus := StLoading | StReading | StSuccess | StError | StCancel.

#[global] Instance BlockType_eq_dec : EqDecision BlockType.
Proof. solve_decision. Defined.
#[global] Instance BlockStatus_eq_dec : EqDecision BlockStatus.
Proof. solve_decision. Defined.

Record AssistantMessageBlock := mkBlock {
  blk_type : BlockType;
  blk_content : jsstring;
  blk_status : BlockStatus;
  blk_timestamp : Z;
  blk_extra : option Z          (* extra.total, when the block has extra *)
}.

Definition set_status (s : BlockStatus) (b : AssistantMessageBlock) :=
  mkBlock (blk_type b) (blk_content b) s (blk_timestamp b) (blk_extra b).

Definition set_content (c : jsstring) (b : AssistantMessageBlock) :=
  mkBlock (blk_type b) c (blk_status b) (blk_timestamp b) (blk_extra b).

Definition set_extra (x : option Z) (b : AssistantMessageBlock) :=
  mkBlock (blk_type b) (blk_content b) (blk_status b) (blk_timestamp b) x.

(** [block.content += text] *)
Definition append_content (text : jsstring) (b : AssistantMessageBlock) :=
  set_content (blk_content b ++ text) b.

Definition is_text_block (b : AssistantMessageBlock) : bool :=
  bool_decide (blk_type b = TyContent) || bool_decide (blk_type b = TyReasoningContent).

(** ** The token event (STREAM_EVENTS.RESPONSE), on the block list

    [lastBlock] is read once, before either payload is handled; it is the
    index of the last element of the array at that moment, and stays the
    index of the same object because the handler only pushes. *)

Record ResponseMsg := mkResponse {
  rsp_eventId : jsstring;
  rsp_content : option jsstring;
  rsp_reasoning_content : option jsstring
}.

Definition lastBlockIndex (blocks : list AssistantMessageBlock) : option nat :=
  match blocks with [] => None | _ :: _ => Some (length blocks - 1) end.

Definition payload (s : option jsstring) : jsstring := default [] s.

(** One of the two [if (content) { ... }] statements, for the payload
    [text] and the block type [ty] it belongs to. *)
Definition appendToken (ty : BlockType) (text : jsstring) (now : Z)
    (lastBlock : option nat) (blocks : list AssistantMessageBlock)
    : list AssistantMessageBlock :=
  let fresh := mkBlock ty text StLoading now None in
  match lastBlock with
  | Some i =>
      match blocks !! i with
      | Some b =>
          if decide (blk_type b = ty)
          then alter (append_content text) i blocks
          else alter (set_status StSuccess) i blocks ++ [fresh]
      | None => blocks ++ [fresh]
      end
  | None => blocks ++ [fresh]
  end.

Definition responseBlocks (msg : ResponseMsg) (now : Z)
    (blocks : list AssistantMessageBlock) : list AssistantMessageBlock :=
  let lastBlock := lastBlockIndex blocks in
  let blocks1 :=
    if truthy_opt (rsp_content msg)
    then appendToken TyContent (payload (rsp_content msg)) now lastBlock blocks
    else blocks in
  if truthy_opt (rsp_reasoning_content msg)
  then appendToken TyReasoningContent (payload (rsp_reasoning_content msg)) now
         lastBlock blocks1
  else blocks1.

(** The block list after a sequence of token events, each with the clock
    reading of its run. *)
Definition responseRun (evs : list (ResponseMsg * Z))
    (blocks : list AssistantMessageBlock) : list AssistantMessageBlock :=
  fold_left (fun bs ev => responseBlocks (fst ev) (snd ev) bs) evs blocks.

(** At most the final block is [loading]. *)
Definition only_last_loading (blocks : list AssistantMessageBlock) : Prop :=
  forall i b, blocks !! i = Some b -> blk_status b = StLoading ->
              i = length blocks - 1.


(** ** JavaScript numbers that need not be integers

    [tokensPerSecond] is the only quotient the presenter computes. A
    [jsnum] is an IEEE-754 value up to rounding: the finite values are
    exact rationals, and division follows the IEEE table for a zero
    divisor, the infinities and NaN. The sign of a zero is not kept: the
    divisor [generationTime / 1000] is a difference of clock readings, which
    is never a negative zero. A JavaScript division never throws. *)

Inductive jsnum := Finite (q : Q) | PosInfinity | NegInfinity | NaN.

Definition jsnum_of_Z (z : Z) : jsnum := Finite (inject_Z z).

Definition is_zeroQ (q : Q) : bool := Qeq_bool q 0.
Definition is_negQ (q : Q) : bool := negb (Qle_bool 0 q).

Definition signed_infinity (negative : bool) : jsnum :=
  if negative then NegInfinity else PosInfinity.

Definition js_div (x y : jsnum) : jsnum :=
  match x, y with
  | NaN, _ | _, NaN => NaN
  | Finite a, Finite b =>
      if is_zeroQ b
      then (if is_zeroQ a then NaN else signed_infinity (is_negQ a))
      else Finite (a / b)
  | Finite _, (PosInfinity | NegInfinity) => Finite 0
  | PosInfinity, Finite b => signed_infinity (is_negQ b)
  | NegInfinity, Finite b => signed_infinity (negb (is_negQ b))
  | (PosInfinity | NegInfinity), (PosInfinity | NegInfinity) => NaN
  end.


(** [completionTokens / (generationTime / 1000)], line 194. *)
Definition tokensPerSecond (completionTokens generationTime : Z) : jsnum :=
  js_div (jsnum_of_Z completionTokens)
         (js_div (jsnum_of_Z generationTime) (jsnum_of_Z 1000)).

(** The same quotient in IEEE-754 binary64 arithmetic, the arithmetic of
    JavaScript numbers, with its rounding; it is used to check [jsnum] on
    concrete inputs. *)
Definition tokensPerSecond64 (completionTokens generationTime : PrimFloat.float)
    : PrimFloat.float :=
  PrimFloat.div completionTokens (PrimFloat.div generationTime 1000%float).

(** ** Thrown values *)

Inductive exn :=
  | Error (message : jsstring)
  | TypeError (message : jsstring)
  | Rejected (rendering : jsstring).   (* any other value, by its String() *)

(** [String(error)] *)
Definition String_ (e : exn) : jsstring :=
  match e with
  | Error m => lit "Error: " ++ m
  | TypeError m => lit "TypeError: " ++ m
  | Rejected s => s
  end.

Inductive result (A : Type) := Ok (a : A) | Throw (e : exn).
Arguments Ok {A} a.
Arguments Throw {A} e.

(** ** Messages, conversations and the generation state *)

Inductive MESSAGE_ROLE := RoleUser | RoleAssistant | RoleSystem.
Inductive MESSAGE_STATUS := MsPending | MsSent | MsError.

#[global] Instance MESSAGE_ROLE_eq_dec : EqDecision MESSAGE_ROLE.
Proof. solve_decision. Defined.
#[global] Instance MESSAGE_STATUS_eq_dec : EqDecision MESSAGE_STATUS.
Proof. solve_decision. Defined.

(** An attached file: its [content], and every other property as one
    opaque value ([{ ...file, content }] keeps them). *)
Record MessageFile := mkFile {
  file_content : jsstring;
  file_rest : jsstring
}.

Record UserMessageContent := mkUserContent {
  uc_text : jsstring;
  uc_files : list MessageFile;
  uc_search : bool
}.

(** The [content] of a message has the shape its role prescribes, so the
    role is read off the shape. *)
Inductive MessageContent :=
  | UserContent (c : UserMessageContent)
  | AssistantContent (blocks : list AssistantMessageBlock)
  | SystemContent (blocks : list AssistantMessageBlock).

(** [Partial<MESSAGE_METADATA>]; the store keeps the fields written so far. *)
Record MESSAGE_METADATA := mkMetadata {
  md_totalTokens : option Z;
  md_inputTokens : option Z;
  md_outputTokens : option Z;
  md_generationTime : option Z;
  md_firstTokenTime : option Z;
  md_tokensPerSecond : option jsnum;
  md_reasoningStartTime : option Z;
  md_reasoningEndTime : option Z
}.

Definition no_metadata : MESSAGE_METADATA :=
  mkMetadata None None None None None None None None.

Definition or_else {A} (new old : option A) : option A :=
  match new with Some _ => new | None => old end.

Definition merge_metadata (old patch : MESSAGE_METADATA) : MESSAGE_METADATA :=
  mkMetadata
    (or_else (md_totalTokens patch) (md_totalTokens old))
    (or_else (md_inputTokens patch) (md_inputTokens old))
    (or_else (md_outputTokens patch) (md_outputTokens old))
    (or_else (md_generationTime patch) (md_generationTime old))
    (or_else (md_firstTokenTime patch) (md_firstTokenTime old))
    (or_else (md_tokensPerSecond patch) (md_tokensPerSecond old))
    (or_else (md_reasoningStartTime patch) (md_reasoningStartTime old))
    (or_else (md_reasoningEndTime patch) (md_reasoningEndTime old)).

Record Message := mkMessage {
  msg_id : jsstring;
  msg_conversationId : jsstring;
  msg_parentId : option jsstring;
  msg_content : MessageContent;
  msg_status : MESSAGE_STATUS;
  msg_metadata : MESSAGE_METADATA
}.

Definition msg_role (m : Message) : MESSAGE_ROLE :=
  match msg_content m with
  | UserContent _ => RoleUser
  | AssistantContent _ => RoleAssistant
  | SystemContent _ => RoleSystem
  end.

Record CONVERSATION_SETTINGS := mkSettings {
  systemPrompt : jsstring;
  temperature : Q;
  contextLength : Z;
  maxTokens : Z;
  providerId : jsstring;
  modelId : jsstring;
  artifacts : Z
}.

Record CONVERSATION := mkConversation {
  conv_id : jsstring;
  conv_title : jsstring;
  conv_settings : CONVERSATION_SETTINGS
}.

(** The in-memory assistant message a generation state refers to. *)
Record AssistantMessage := mkAssistantMessage {
  am_id : jsstring;
  am_content : list AssistantMessageBlock
}.

Record GeneratingMessageState := mkState {
  gs_message : AssistantMessage;
  gs_conversationId : jsstring;
  gs_startTime : Z;
  gs_firstTokenTime : option Z;          (* null is None *)
  gs_promptTokens : Z;
  gs_reasoningStartTime : option Z;
  gs_reasoningEndTime : option Z;
  gs_lastReasoningTime : option Z
}.

Record SearchResult := mkSearchResult {
  sr_title : jsstring;
  sr_url : jsstring;
  sr_content : option jsstring;
  sr_description : option jsstring;
  sr_icon : option jsstring
}.

Definition normalise_result (r : SearchResult) : SearchResult :=
  mkSearchResult (sr_title r) (sr_url r)
    (Some (default [] (sr_content r)))
    (Some (default [] (sr_description r)))
    (Some (default [] (sr_icon r))).

(** A role-tagged entry of the prompt sent to the provider. *)
Record ChatMessage := mkChat {
  chat_role : MESSAGE_ROLE;
  chat_content : jsstring
}.

(** The arguments of one call of the provider's streaming entry point. *)
Record StreamRequest := mkStreamRequest {
  rq_providerId : jsstring;
  rq_messages : list ChatMessage;
  rq_modelId : jsstring;
  rq_eventId : jsstring;
  rq_temperature : Q;
  rq_maxTokens : Z
}.

Record Attachment := mkAttachment {
  att_messageId : jsstring;
  att_type : jsstring;
  att_content : SearchResult
}.

(** ** The JavaScript [Map] of in-flight generations

    A [Map] iterates in insertion order; [set] on a present key keeps the
    key's place. *)

Section JsMap.
Context {V : Type}.

Definition JsMap := list (jsstring * V).

Fixpoint Map_get (k : jsstring) (m : JsMap) : option V :=
  match m with
  | [] => None
  | (k', v) :: m' => if decide (k' = k) then Some v else Map_get k m'
  end.

Fixpoint Map_set (k : jsstring) (v : V) (m : JsMap) : JsMap :=
  match m with
  | [] => [(k, v)]
  | (k', v') :: m' =>
      if decide (k' = k) then (k', v) :: m' else (k', v') :: Map_set k v m'
  end.

Fixpoint Map_delete (k : jsstring) (m : JsMap) : JsMap :=
  match m with
  | [] => []
  | (k', v') :: m' =>
      if decide (k' = k) then m' else (k', v') :: Map_delete k m'
  end.

Definition Map_values (m : JsMap) : list V := map snd m.

Definition Map_has (k : jsstring) (m : JsMap) : bool :=
  bool_decide (is_Some (Map_get k m)).

(** Mutation of the object stored under [k]. *)
Definition Map_mutate (f : V -> V) (k : jsstring) (m : JsMap) : JsMap :=
  match Map_get k m with
  | Some v => Map_set k (f v) m
  | None => m
  end.
End JsMap.
Arguments JsMap V : clear implicits.

(** ** The presenter's world

    The fields of the presenter ([generatingMessages], the search
    assistant), the tables of the store behind [sqlitePresenter] and
    [messageManager], the clock and the streams requested so far. The store
    itself is outside this file; its tables are lists in row order. *)

Record World := mkWorld {
  w_conversations : list CONVERSATION;
  w_messages : list Message;
  w_attachments : list Attachment;
  generatingMessages : JsMap GeneratingMessageState;
  searchAssistantModel : option jsstring;        (* the model's id *)
  searchAssistantProviderId : option jsstring;
  w_now : Z;                                     (* Date.now() *)
  w_streams : list StreamRequest                 (* streams asked of the provider *)
}.

Definition with_messages (f : list Message -> list Message) (w : World) :=
  mkWorld (w_conversations w) (f (w_messages w)) (w_attachments w)
    (generatingMessages w) (searchAssistantModel w)
    (searchAssistantProviderId w) (w_now w) (w_streams w).

Definition with_attachments (f : list Attachment -> list Attachment) (w : World) :=
  mkWorld (w_conversations w) (w_messages w) (f (w_attachments w))
    (generatingMessages w) (searchAssistantModel w)
    (searchAssistantProviderId w) (w_now w) (w_streams w).

Definition with_generating
    (f : JsMap GeneratingMessageState -> JsMap GeneratingMessageState)
    (w : World) :=
  mkWorld (w_conversations w) (w_messages w) (w_attachments w)
    (f (generatingMessages w)) (searchAssistantModel w)
    (searchAssistantProviderId w) (w_now w) (w_streams w).

Definition with_streams (f : list StreamRequest -> list StreamRequest) (w : World) :=
  mkWorld (w_conversations w) (w_messages w) (w_attachments w)
    (generatingMessages w) (searchAssistantModel w)
    (searchAssistantProviderId w) (w_now w) (f (w_streams w)).

(** Modelled from the spec: the paging of the Store's list operations
    ([getConversationList(page, pageSize)], [getMessageThread(conversationId,
    page, pageSize)]), whose code is outside this file. A page is the window
    of [pageSize] rows that starts at row [(page - 1) * pageSize]. *)
Definition page_of {A} (page pageSize : nat) (rows : list A) : list A :=
  take pageSize (drop ((page - 1) * pageSize) rows).

(** Modelled from the spec: the Store's [getConversation], which is
    outside this file: the row with that id, or [undefined]. *)
Definition store_getConversation (id : jsstring) (w : World) : option CONVERSATION :=
  find (fun c => bool_decide (conv_id c = id)) (w_conversations w).

(** Modelled from the spec: the Store's [getConversationList], which is
    outside this file: one page of the conversation table. *)
Definition store_getConversationList (page pageSize : nat) (w : World)
    : list CONVERSATION :=
  page_of page pageSize (w_conversations w).

(** Modelled from the spec: the Store's [getMessage], which is outside
    this file: the row with that id, or [undefined]. *)
Definition store_getMessage (id : jsstring) (w : World) : option Message :=
  find (fun m => bool_decide (msg_id m = id)) (w_messages w).

Definition in_conversation (conversationId : jsstring) (m : Message) : bool :=
  bool_decide (msg_conversationId m = conversationId).

(** Modelled from the spec: the Store's [getMessageThread], which is
    outside this file: one page of the messages of the conversation. *)
Definition store_getMessageThread (conversationId : jsstring)
    (page pageSize : nat) (w : World) : list Message :=
  page_of page pageSize
    (List.filter (in_conversation conversationId) (w_messages w)).

(** Modelled from the spec: the MessageManager's [getLastUserMessage],
    which is outside this file: the last row of the conversation that is a
    user message, or [null]. *)
Definition store_getLastUserMessage (conversationId : jsstring) (w : World)
    : option Message :=
  last (List.filter
          (fun m => in_conversation conversationId m
                    && bool_decide (msg_role m = RoleUser))
          (w_messages w)).

(** Modelled from the spec: an update of the Store ([editMessage],
    [updateMessageStatus], [updateMessageMetadata]), whose code is outside
    this file: the row with that id is changed, the others are kept. *)
Definition update_message (id : jsstring) (f : Message -> Message)
    (rows : list Message) : list Message :=
  map (fun m => if decide (msg_id m = id) then f m else m) rows.

Definition set_msg_status (s : MESSAGE_STATUS) (m : Message) : Message :=
  mkMessage (msg_id m) (msg_conversationId m) (msg_parentId m)
    (msg_content m) s (msg_metadata m).

Definition set_msg_content (c : MessageContent) (m : Message) : Message :=
  mkMessage (msg_id m) (msg_conversationId m) (msg_parentId m)
    c (msg_status m) (msg_metadata m).

Definition patch_msg_metadata (p : MESSAGE_METADATA) (m : Message) : Message :=
  mkMessage (msg_id m) (msg_conversationId m) (msg_parentId m)
    (msg_content m) (msg_status m) (merge_metadata (msg_metadata m) p).

(** Modelled from the spec: the effect of the Store's
    [editMessage(id, JSON.stringify(blocks))], which is outside this file, on
    a row: its content becomes the block list (a system row stays a system
    row). *)
Definition edit_content (blocks : list AssistantMessageBlock) (m : Message)
    : Message :=
  set_msg_content
    (match msg_content m with
     | SystemContent _ => SystemContent blocks
     | _ => AssistantContent blocks
     end) m.

(** ** Collaborators

    What the presenter imports or is constructed with. The citation prompt
    of [generateSearchPrompt] (lines 49-84) and the rewrite prompt of
    [rewriteUserSearchQuery] (lines 580-605) are kept as functions of the
    values they interpolate: no statement here depends on the text of the
    templates. A call that can reject or throw returns a [result]. *)

Record Collaborators := mkCollaborators {
  approximateTokenSize : jsstring -> Z;                          (* tokenx *)
  getFileContext : list MessageFile -> jsstring;                 (* ./fileContext *)
  JSON_stringify : MessageContent -> jsstring;
  (* JSON.parse(message.content) in handleMessageError: the array parsed,
     or None when JSON.parse throws *)
  JSON_parse : MessageContent -> option (list AssistantMessageBlock);
  getArtifactsPrompt : result jsstring;
  extractAndEnrichUrls : jsstring -> result (list SearchResult);
  enrichUserMessageWithUrlContent : jsstring -> list SearchResult -> jsstring;
  (* SEARCH_PROMPT_TEMPLATE with its two placeholders replaced *)
  generateSearchPrompt : jsstring -> list SearchResult -> jsstring;
  (* the rewrite prompt of rewriteUserSearchQuery, as a function of the
     clock reading, the engine name, the context and the query *)
  rewritePrompt : Z -> jsstring -> jsstring -> jsstring -> jsstring;
  activeEngineName : jsstring;                 (* searchManager.getActiveEngine().name *)
  searchManager_search : jsstring -> jsstring -> result (list SearchResult);
  llm_generateCompletion :
    jsstring -> list ChatMessage -> jsstring -> result jsstring;
  llm_startStreamCompletion : StreamRequest -> result unit;
  messageManager_getContextMessages :
    list Message -> jsstring -> Z -> list Message
}.

(** ** The monad of handlers *)

Definition M (A : Type) : Type := World -> result A * World.

#[global] Instance M_ret : MRet M := fun A a w => (Ok a, w).

#[global] Instance M_bind : MBind M := fun A B f m w =>
  match m w with
  | (Ok a, w') => f a w'
  | (Throw e, w') => (Throw e, w')
  end.

Definition throw {A} (e : exn) : M A := fun w => (Throw e, w).

Definition try_catch {A} (body : M A) (handler : exn -> M A) : M A := fun w =>
  match body w with
  | (Ok a, w') => (Ok a, w')
  | (Throw e, w') => handler e w'
  end.

Definition gets {A} (f : World -> A) : M A := fun w => (Ok (f w), w).
Definition modify (f : World -> World) : M unit := fun w => (Ok tt, f w).
Definition await {A} (r : result A) : M A := fun w => (r, w).

Fixpoint forEach {A} (l : list A) (body : A -> M unit) : M unit :=
  match l with
  | [] => mret tt
  | x :: l' => body x ;; forEach l' body
  end.

Definition is_null {A} (o : option A) : bool :=
  match o with None => true | Some _ => false end.

(** *** The store, as operations of the monad

    Store operations do not fail in this model. *)

Definition updateMessageStatus (id : jsstring) (s : MESSAGE_STATUS) : M unit :=
  modify (with_messages (update_message id (set_msg_status s))).

Definition editMessage (id : jsstring) (blocks : list AssistantMessageBlock)
    : M unit :=
  modify (with_messages (update_message id (edit_content blocks))).

Definition updateMessageMetadata (id : jsstring) (p : MESSAGE_METADATA) : M unit :=
  modify (with_messages (update_message id (patch_msg_metadata p))).

Definition addMessageAttachment (id type : jsstring) (r : SearchResult) : M unit :=
  modify (with_attachments (fun rows => rows ++ [mkAttachment id type r])).

(** *** Mutation of a generation state held in the map *)

Definition set_blocks (blocks : list AssistantMessageBlock)
    (st : GeneratingMessageState) : GeneratingMessageState :=
  mkState (mkAssistantMessage (am_id (gs_message st)) blocks)
    (gs_conversationId st) (gs_startTime st) (gs_firstTokenTime st)
    (gs_promptTokens st) (gs_reasoningStartTime st) (gs_reasoningEndTime st)
    (gs_lastReasoningTime st).

Definition set_firstTokenTime (t : option Z) (st : GeneratingMessageState) :=
  mkState (gs_message st) (gs_conversationId st) (gs_startTime st) t
    (gs_promptTokens st) (gs_reasoningStartTime st) (gs_reasoningEndTime st)
    (gs_lastReasoningTime st).

Definition set_reasoningStartTime (t : option Z) (st : GeneratingMessageState) :=
  mkState (gs_message st) (gs_conversationId st) (gs_startTime st)
    (gs_firstTokenTime st) (gs_promptTokens st) t (gs_reasoningEndTime st)
    (gs_lastReasoningTime st).

Definition set_lastReasoningTime (t : option Z) (st : GeneratingMessageState) :=
  mkState (gs_message st) (gs_conversationId st) (gs_startTime st)
    (gs_firstTokenTime st) (gs_promptTokens st) (gs_reasoningStartTime st)
    (gs_reasoningEndTime st) t.

(** [{ ...state, startTime, firstTokenTime: null, promptTokens }] *)
Definition restart (startTime promptTokens : Z) (st : GeneratingMessageState) :=
  mkState (gs_message st) (gs_conversationId st) startTime None
    promptTokens (gs_reasoningStartTime st) (gs_reasoningEndTime st)
    (gs_lastReasoningTime st).

Definition mutate_state (id : jsstring)
    (f : GeneratingMessageState -> GeneratingMessageState) : M unit :=
  modify (with_generating (Map_mutate f id)).

Definition blocks_of (st : GeneratingMessageState) : list AssistantMessageBlock :=
  am_content (gs_message st).

(** [state.message.content] of the state stored under [id], as it is now. *)
Definition current_blocks (id : jsstring) : M (list AssistantMessageBlock) :=
  gets (fun w => default [] (blocks_of <$> Map_get id (generatingMessages w))).

(** ** The end event, on the block list (lines 165-190) *)

Definition noModelResponse (now : Z) : AssistantMessageBlock :=
  mkBlock TyError (lit "common.error.noModelResponse") StError now None.

Definition endBlocks (now : Z) (blocks : list AssistantMessageBlock)
    : list AssistantMessageBlock :=
  let blocks1 := map (set_status StSuccess) blocks in
  let hasContentBlock := existsb is_text_block blocks1 in
  if negb hasContentBlock then blocks1 ++ [noModelResponse now] else blocks1.


(** ** The error finalisation, on the block list (lines 263-276) *)

Definition errorBlock (errorMessage : jsstring) (now : Z) : AssistantMessageBlock :=
  mkBlock TyError errorMessage StError now None.

Definition loading_to_error (b : AssistantMessageBlock) : AssistantMessageBlock :=
  if decide (blk_status b = StLoading) then set_status StError b else b.

Definition errorBlocks (errorMessage : jsstring) (now : Z)
    (content : list AssistantMessageBlock) : list AssistantMessageBlock :=
  map loading_to_error content ++ [errorBlock errorMessage now].

Section Handlers.
Variable env : Collaborators.

(** *** STREAM_EVENTS.RESPONSE (lines 105-160) *)

Definition on_RESPONSE (msg : ResponseMsg) : M unit :=
  let eventId := rsp_eventId msg in
  state ← gets (fun w => Map_get eventId (generatingMessages w));
  match state with
  | None => mret tt
  | Some state =>
      now ← gets w_now;
      (if is_null (gs_firstTokenTime state)
          && (truthy_opt (rsp_content msg)
              || truthy_opt (rsp_reasoning_content msg))
       then
         mutate_state eventId (set_firstTokenTime (Some now));;
         updateMessageMetadata eventId
           (mkMetadata None None None None
              (Some (now - gs_startTime state)%Z) None None None)
       else mret tt);;
      (if truthy_opt (rsp_reasoning_content msg)
       then
         (if is_null (gs_reasoningStartTime state)
          then
            mutate_state eventId (set_reasoningStartTime (Some now));;
            updateMessageMetadata eventId
              (mkMetadata None None None None None None
                 (Some (now - gs_startTime state)%Z) None)
          else mret tt);;
         mutate_state eventId (set_lastReasoningTime (Some now))
       else mret tt);;
      mutate_state eventId
        (fun st => set_blocks (responseBlocks msg now (blocks_of st)) st)
  end.

(** *** STREAM_EVENTS.END (lines 161-218) *)

Definition completionTokensOf (blocks : list AssistantMessageBlock) : Z :=
  fold_left
    (fun acc block =>
       if is_text_block block
       then (acc + approximateTokenSize env (blk_content block))%Z
       else acc)
    blocks 0%Z.

(** [state.firstTokenTime ?? state.startTime] *)
Definition generationStart (state : GeneratingMessageState) : Z :=
  default (gs_startTime state) (gs_firstTokenTime state).

(** [state.firstTokenTime ? state.firstTokenTime - state.startTime : 0]:
    a number is truthy when it is not 0. *)
Definition firstTokenDelay (state : GeneratingMessageState) : Z :=
  match gs_firstTokenTime state with
  | Some t => if (t =? 0)%Z then 0%Z else (t - gs_startTime state)%Z
  | None => 0%Z
  end.

Definition endMetadata (now : Z) (state : GeneratingMessageState)
    : MESSAGE_METADATA :=
  let completionTokens :=
    completionTokensOf (map (set_status StSuccess) (blocks_of state)) in
  let totalTokens := (gs_promptTokens state + completionTokens)%Z in
  let generationTime := (now - generationStart state)%Z in
  let reasoning :=
    match gs_reasoningStartTime state, gs_lastReasoningTime state with
    | Some s, Some l =>
        (Some (s - gs_startTime state)%Z, Some (l - gs_startTime state)%Z)
    | _, _ => (None, None)
    end in
  mkMetadata (Some totalTokens) (Some (gs_promptTokens state))
    (Some completionTokens) (Some generationTime)
    (Some (firstTokenDelay state))
    (Some (tokensPerSecond completionTokens generationTime))
    (fst reasoning) (snd reasoning).

Definition on_END (eventId : jsstring) : M unit :=
  state ← gets (fun w => Map_get eventId (generatingMessages w));
  match state with
  | None => mret tt
  | Some state =>
      now ← gets w_now;
      mutate_state eventId (set_blocks (endBlocks now (blocks_of state)));;
      updateMessageMetadata eventId (endMetadata now state);;
      updateMessageStatus eventId MsSent;;
      content ← current_blocks eventId;
      editMessage eventId content;;
      modify (with_generating (Map_delete eventId))
  end.

(** *** handleMessageError (lines 247-281) *)

Definition handleMessageError (messageId errorMessage : jsstring) : M unit :=
  message ← gets (store_getMessage messageId);
  match message with
  | None => mret tt
  | Some message =>
      now ← gets w_now;
      let content := default [] (JSON_parse env (msg_content message)) in
      updateMessageStatus messageId MsError;;
      editMessage messageId (errorBlocks errorMessage now content)
  end.

(** *** STREAM_EVENTS.ERROR (lines 219-226) *)

Definition on_ERROR (eventId : jsstring) (error : exn) : M unit :=
  state ← gets (fun w => Map_get eventId (generatingMessages w));
  match state with
  | None => mret tt
  | Some _ =>
      handleMessageError eventId (String_ error);;
      modify (with_generating (Map_delete eventId))
  end.

(** *** initializeUnfinishedMessages (lines 286-308) *)

Definition sessionInterrupted : jsstring := lit "common.error.sessionInterrupted".

Definition is_pending_assistant (msg : Message) : bool :=
  bool_decide (msg_role msg = RoleAssistant)
  && bool_decide (msg_status msg = MsPending).

Definition recoverConversation (conversation : CONVERSATION) : M unit :=
  messages ← gets (store_getMessageThread (conv_id conversation) 1 1000);
  let pendingMessages := List.filter is_pending_assistant messages in
  forEach pendingMessages
    (fun message => handleMessageError (msg_id message) sessionInterrupted).

Definition initializeUnfinishedMessages : M unit :=
  try_catch
    (conversations ← gets (store_getConversationList 1 1000);
     forEach conversations recoverConversation)
    (fun _ => mret tt).       (* console.error *)
End Handlers.

(** ** String operations of the prompt assembly

    [indexOf] and [lastIndexOf] return -1 when the pattern does not occur;
    [slice] counts a negative bound from the end and clamps both bounds. *)

Fixpoint starts_with (pat s : jsstring) : bool :=
  match pat, s with
  | [], _ => true
  | _ :: _, [] => false
  | p :: pat', c :: s' => bool_decide (p = c) && starts_with pat' s'
  end.

Fixpoint indexOf_opt (s pat : jsstring) : option nat :=
  if starts_with pat s then Some 0
  else match s with
       | [] => None
       | _ :: s' => S <$> indexOf_opt s' pat
       end.

Fixpoint lastIndexOf_opt (s pat : jsstring) : option nat :=
  match s with
  | [] => if starts_with pat [] then Some 0 else None
  | _ :: s' =>
      match lastIndexOf_opt s' pat with
      | Some n => Some (S n)
      | None => if starts_with pat s then Some 0 else None
      end
  end.

Definition position (o : option nat) : Z :=
  match o with Some n => Z.of_nat n | None => (-1)%Z end.

Definition indexOf (s pat : jsstring) : Z := position (indexOf_opt s pat).
Definition lastIndexOf (s pat : jsstring) : Z := position (lastIndexOf_opt s pat).

Definition slice_bound (len k : Z) : Z :=
  if (k <? 0)%Z then Z.max (len + k) 0 else Z.min k len.

Definition slice (s : jsstring) (start stop : Z) : jsstring :=
  let len := Z.of_nat (length s) in
  let from := slice_bound len start in
  let to := slice_bound len stop in
  take (Z.to_nat (to - from)) (drop (Z.to_nat from) s).

(** [s.slice(start)] *)
Definition slice_from (s : jsstring) (start : Z) : jsstring :=
  slice s start (Z.of_nat (length s)).

(** [parts.join(sep)] *)
Fixpoint join (sep : jsstring) (parts : list jsstring) : jsstring :=
  match parts with
  | [] => []
  | [p] => p
  | p :: rest => p ++ sep ++ join sep rest
  end.

(** The code units that [String.prototype.trim] removes. *)
Definition is_whitespace (c : N) : bool :=
  bool_decide
    (c ∈ [9; 10; 11; 12; 13; 32; 160; 5760; 8192; 8193; 8194; 8195; 8196;
          8197; 8198; 8199; 8200; 8201; 8202; 8232; 8233; 8239; 8287; 12288;
          65279]%N).

Fixpoint drop_while (p : N -> bool) (s : jsstring) : jsstring :=
  match s with
  | c :: s' => if p c then drop_while p s' else s
  | [] => []
  end.

Definition trim (s : jsstring) : jsstring :=
  reverse (drop_while is_whitespace (reverse (drop_while is_whitespace s))).

(** ** getAnswer (lines 773-787) *)

Definition question : jsstring := lit "question".

(** ['以 answer 的内容为准'] *)
Definition answer_suffix : jsstring :=
  [20197; 32; 97; 110; 115; 119; 101; 114; 32; 30340; 20869; 23481; 20026;
   20934]%N.

Definition contains (text : jsstring) (item : MessageFile) : bool :=
  bool_decide (indexOf (file_content item) text > -1)%Z.

Definition getAnswer (text : jsstring) (files : list MessageFile)
    : list MessageFile :=
  match find (contains text) files with
  | None => files
  | Some file =>
      let textIndex := indexOf (file_content file) text in
      let questionStart :=
        lastIndexOf (slice (file_content file) 0 textIndex) question in
      let questionEnd :=
        (textIndex + indexOf (slice_from (file_content file) textIndex) question)%Z in
      let content :=
        slice (file_content file) questionStart questionEnd ++ answer_suffix in
      [mkFile content (file_rest file)]
  end.

(** ** The merge pass (lines 902-915) *)

Definition merge_into (currentMessage last : ChatMessage) : ChatMessage :=
  mkChat (chat_role last)
    (chat_content last ++ newline ++ chat_content currentMessage).

Definition mergeStep (mergedMessages : list ChatMessage)
    (currentMessage : ChatMessage) : list ChatMessage :=
  match last mergedMessages with
  | Some l =>
      if decide (chat_role l = chat_role currentMessage)
      then alter (merge_into currentMessage) (length mergedMessages - 1)
             mergedMessages
      else mergedMessages ++ [currentMessage]
  | None => mergedMessages ++ [currentMessage]
  end.

Definition mergeMessages (formattedMessages : list ChatMessage)
    : list ChatMessage :=
  fold_left mergeStep formattedMessages [].

(** ** History selection (lines 816-848) *)

Section Selection.
Variable env : Collaborators.

Definition messageTokens (msg : Message) : Z :=
  approximateTokenSize env
    (match msg_content msg with
     | UserContent c => uc_text c ++ getFileContext env (uc_files c)
     | other => JSON_stringify env other
     end).

(** The [for] loop over the newest-first list; [selectedMessages.unshift]
    is a cons. *)
Fixpoint selectLoop (remainingContextLength : Z) (messages : list Message)
    (currentLength : Z) (selectedMessages : list Message) : list Message :=
  match messages with
  | [] => selectedMessages
  | msg :: rest =>
      let msgTokens := messageTokens msg in
      if (currentLength + msgTokens <=? remainingContextLength)%Z
      then selectLoop remainingContextLength rest
             (currentLength + msgTokens)%Z (msg :: selectedMessages)
      else selectedMessages
  end.

Definition selectHistory (contextLength reservedTokens : Z)
    (userMessageId : jsstring) (contextMessages : list Message)
    : list Message :=
  let remainingContextLength := (contextLength - reservedTokens)%Z in
  if (remainingContextLength >? 0)%Z
  then
    let messages :=
      reverse (List.filter
                 (fun msg => negb (bool_decide (msg_id msg = userMessageId)))
                 contextMessages) in
    selectLoop remainingContextLength messages 0%Z []
  else [].
End Selection.

(** ** The search step and the prompt assembly *)

(** ['找不到指定的消息'], ['找不到用户消息'], ['找不到生成状态'] *)
Definition msg_notFound : jsstring :=
  [25214; 19981; 21040; 25351; 23450; 30340; 28040; 24687]%N.
Definition msg_noUserMessage : jsstring :=
  [25214; 19981; 21040; 29992; 25143; 28040; 24687]%N.
Definition msg_noState : jsstring :=
  [25214; 19981; 21040; 29983; 25104; 29366; 24577]%N.

(** Reading a property of [undefined]. *)
Definition undefined_access : exn :=
  TypeError (lit "Cannot read properties of undefined").

Definition searchBlock (now : Z) : AssistantMessageBlock :=
  mkBlock TySearch [] StLoading now (Some 0%Z).

(** The six spaces that indent the lines of the [userContent] template. *)
Definition indent : jsstring := newline ++ lit "      ".

Section Assembly.
Variable env : Collaborators.

(** [getConversation] followed by a read of [.settings]. *)
Definition conversationSettings (conversationId : jsstring)
    : M CONVERSATION_SETTINGS :=
  conversation ← gets (store_getConversation conversationId);
  match conversation with
  | Some c => mret (conv_settings c)
  | None => throw undefined_access
  end.

(** getContextMessages (lines 418-426); [Math.ceil] of the quotient. *)
Definition getContextMessages (conversationId : jsstring) : M (list Message) :=
  settings ← conversationSettings conversationId;
  let messageCount := (- ((- contextLength settings) / 300))%Z in
  let messageCount := if (messageCount <? 2)%Z then 2%Z else messageCount in
  gets (fun w =>
          messageManager_getContextMessages env (w_messages w)
            conversationId messageCount).

(** getMessageHistory (lines 552-572) *)
Definition getMessageHistory (messageId : jsstring) (limit : Z)
    : M (list Message) :=
  message ← gets (store_getMessage messageId);
  match message with
  | None => throw (Error msg_notFound)
  | Some message =>
      messages ← gets (store_getMessageThread (msg_conversationId message) 1
                         (Z.to_nat (limit * 2)));
      match list_find (fun msg => msg_id msg = messageId) messages with
      | None => mret [message]
      | Some (targetIndex, _) =>
          let targetIndex := Z.of_nat targetIndex in
          mret (take (Z.to_nat (targetIndex + 1)
                      - Z.to_nat (Z.max 0 (targetIndex - limit + 1)))
                  (drop (Z.to_nat (Z.max 0 (targetIndex - limit + 1)))
                     messages))
      end
  end.

(** rewriteUserSearchQuery (lines 574-629) *)
Definition rewriteUserSearchQuery (query contextMessages conversationId
    searchEngine : jsstring) : M jsstring :=
  now ← gets w_now;
  let rewritePrompt := rewritePrompt env now searchEngine contextMessages query in
  conversation ← gets (store_getConversation conversationId);
  match conversation with
  | None => mret query
  | Some conversation =>
      let settings := conv_settings conversation in
      assistantProvider ← gets searchAssistantProviderId;
      assistantModel ← gets searchAssistantModel;
      try_catch
        (rewrittenQuery ← await
           (llm_generateCompletion env
              (if truthy_opt assistantProvider
               then payload assistantProvider else providerId settings)
              [mkChat RoleUser rewritePrompt]
              (if truthy_opt assistantModel
               then payload assistantModel else modelId settings));
         mret (if truthy (trim rewrittenQuery)
               then trim rewrittenQuery else query))
        (fun _ => mret query)
  end.

(** A history message as a line of the rewrite context; no message has
    the role ['ai'], so that branch of the source is not taken. *)
Definition contextLine (msg : Message) : jsstring :=
  match msg_content msg with
  | UserContent c =>
      lit "user: " ++ uc_text c ++ getFileContext env (uc_files c)
  | other => JSON_stringify env other
  end.

(** Mutation of [searchBlock], the object unshifted to index 0. *)
Definition mutate_searchBlock (messageId : jsstring)
    (f : AssistantMessageBlock -> AssistantMessageBlock) : M unit :=
  mutate_state messageId (fun st => set_blocks (alter f 0 (blocks_of st)) st).

Definition persist (messageId : jsstring) : M unit :=
  content ← current_blocks messageId;
  editMessage messageId content.

(** startStreamSearch (lines 631-715) *)
Definition startStreamSearch (conversationId messageId query : jsstring)
    : M (list SearchResult) :=
  state ← gets (fun w => Map_get messageId (generatingMessages w));
  match state with
  | None => throw (Error msg_noState)
  | Some _ =>
      now ← gets w_now;
      mutate_state messageId
        (fun st => set_blocks (searchBlock now :: blocks_of st) st);;
      persist messageId;;
      try_catch
        (contextMessages ← getContextMessages conversationId;
         let formattedContext := join newline (map contextLine contextMessages) in
         optimizedQuery ← rewriteUserSearchQuery query formattedContext
                            conversationId (activeEngineName env);
         results ← await (searchManager_search env conversationId optimizedQuery);
         mutate_searchBlock messageId
           (fun b => set_extra (Some (Z.of_nat (length results)))
                       (set_status StReading b));;
         persist messageId;;
         forEach results
           (fun result =>
              addMessageAttachment messageId (lit "search_result")
                (normalise_result result));;
         mutate_searchBlock messageId (set_status StSuccess);;
         persist messageId;;
         mret results)
        (fun error =>
           mutate_searchBlock messageId
             (fun b => set_content (String_ error) (set_status StError b));;
           persist messageId;;
           mret [])
  end.

(** The system entry (lines 852-874). *)
Definition systemEntries (settings : CONVERSATION_SETTINGS)
    : M (list ChatMessage) :=
  if truthy (systemPrompt settings)
  then
    if (artifacts settings =? 1)%Z
    then
      artifactsPrompt ← await (getArtifactsPrompt env);
      mret [mkChat RoleSystem
              (systemPrompt settings ++ newline ++ newline ++ artifactsPrompt)]
    else mret [mkChat RoleSystem (systemPrompt settings)]
  else
    if (artifacts settings =? 1)%Z
    then
      artifactsPrompt ← await (getArtifactsPrompt env);
      mret [mkChat RoleSystem artifactsPrompt]
    else mret [].

(** One history message as prompt entries (lines 877-894): none for an
    assistant message whose rendered content is empty. *)
Definition renderedContent (msg : Message) : jsstring :=
  match msg_content msg with
  | UserContent c => uc_text c ++ getFileContext env (uc_files c)
  | AssistantContent blocks | SystemContent blocks =>
      join newline
        (map blk_content
           (List.filter (fun block => bool_decide (blk_type block = TyContent))
              blocks))
  end.

Definition historyEntry (msg : Message) : list ChatMessage :=
  let content := renderedContent msg in
  if bool_decide (msg_role msg = RoleAssistant) && negb (truthy content)
  then []
  else [mkChat (msg_role msg) content].

Definition promptTokensOf (formattedMessages : list ChatMessage) : Z :=
  fold_left (fun acc msg => (acc + approximateTokenSize env (chat_content msg))%Z)
    formattedMessages 0%Z.

(** The message to answer and the history to draw from (lines 746-771). *)
Definition resolveUserMessage (conversationId : jsstring)
    (queryMsgId : option jsstring) (contextLength : Z)
    : M (Message * list Message) :=
  if truthy_opt queryMsgId
  then
    queryMessage ← gets (store_getMessage (payload queryMsgId));
    match queryMessage with
    | None => throw (Error msg_notFound)
    | Some queryMessage =>
        if negb (truthy_opt (msg_parentId queryMessage))
        then throw (Error msg_notFound)
        else
          userMessage ← gets (store_getMessage (payload (msg_parentId queryMessage)));
          match userMessage with
          | None => throw (Error msg_notFound)
          | Some userMessage =>
              contextMessages ← getMessageHistory (msg_id userMessage) contextLength;
              mret (userMessage, contextMessages)
          end
    end
  else
    userMessage ← gets (store_getLastUserMessage conversationId);
    match userMessage with
    | None => throw (Error msg_noUserMessage)
    | Some userMessage =>
        contextMessages ← getContextMessages conversationId;
        mret (userMessage, contextMessages)
    end.

(** The [userContent] template (lines 790-793). *)
Definition userContentOf (uc : UserMessageContent) : jsstring :=
  indent ++ uc_text uc ++ indent
  ++ getFileContext env (getAnswer (uc_text uc) (uc_files uc))
  ++ indent.

(** [reservedTokens] (lines 811-817). *)
Definition reservedTokensOf (settings : CONVERSATION_SETTINGS)
    (searchPrompt enrichedUserMessage : jsstring) : Z :=
  let searchPromptTokens :=
    if truthy searchPrompt then approximateTokenSize env searchPrompt else 0%Z in
  let systemPromptTokens :=
    if truthy (systemPrompt settings)
    then approximateTokenSize env (systemPrompt settings) else 0%Z in
  let userMessageTokens := approximateTokenSize env enrichedUserMessage in
  (searchPromptTokens + systemPromptTokens + userMessageTokens)%Z.

(** The body of the [try] block (lines 746-947). The local [state] and
    the map entry under its message id are one object, so the entry is
    read again where the source spreads [state]. *)
Definition assemble (conversationId : jsstring) (queryMsgId : option jsstring)
    (state : GeneratingMessageState) (settings : CONVERSATION_SETTINGS)
    : M unit :=
  let messageId := am_id (gs_message state) in
  '(userMessage, contextMessages) ←
     resolveUserMessage conversationId queryMsgId (contextLength settings);
  match msg_content userMessage with
  | AssistantContent _ | SystemContent _ =>
      throw undefined_access          (* files.find on undefined *)
  | UserContent uc =>
      let userContent := userContentOf uc in
      urlResults ← await (extractAndEnrichUrls env (uc_text uc));
      searchResults ←
        (if uc_search uc
         then
           results ← startStreamSearch conversationId messageId userContent;
           mret (Some results)
         else mret None);
      let searchPrompt :=
        match searchResults with
        | Some results => generateSearchPrompt env userContent results
        | None => []
        end in
      let enrichedUserMessage :=
        if (0 <? length urlResults)%nat
        then enrichUserMessageWithUrlContent env userContent urlResults
        else userContent in
      let reservedTokens :=
        reservedTokensOf settings searchPrompt enrichedUserMessage in
      let contextMessages :=
        selectHistory env (contextLength settings) reservedTokens
          (msg_id userMessage) contextMessages in
      system ← systemEntries settings;
      let formattedMessages :=
        system
        ++ concat (map historyEntry contextMessages)
        ++ [mkChat RoleUser
              (if truthy searchPrompt then searchPrompt else enrichedUserMessage)] in
      let formattedMessages := mergeMessages formattedMessages in
      let promptTokens := promptTokensOf formattedMessages in
      now ← gets w_now;
      current ← gets (fun w => default state (Map_get messageId (generatingMessages w)));
      modify (with_generating (Map_set messageId (restart now promptTokens current)));;
      updateMessageMetadata messageId
        (mkMetadata (Some promptTokens) None None (Some 0%Z) (Some 0%Z)
           (Some (jsnum_of_Z 0)) None None);;
      let request :=
        mkStreamRequest (providerId settings) formattedMessages
          (modelId settings) messageId (temperature settings)
          (maxTokens settings) in
      await (llm_startStreamCompletion env request);;
      modify (with_streams (fun l => l ++ [request]))
  end.

(** The [catch] block (lines 948-952). *)
Definition assemblyFailed (state : GeneratingMessageState) (error : exn)
    : M unit :=
  handleMessageError env (am_id (gs_message state)) (String_ error);;
  throw error.

(** startStreamCompletion (lines 727-953) *)
Definition startStreamCompletion (conversationId : jsstring)
    (queryMsgId : option jsstring) : M unit :=
  state ← gets (fun w =>
                  find (fun state =>
                          bool_decide (gs_conversationId state = conversationId))
                    (Map_values (generatingMessages w)));
  match state with
  | None => mret tt                       (* console.warn *)
  | Some state =>
      settings ← conversationSettings conversationId;
      try_catch (assemble conversationId queryMsgId state settings)
                (assemblyFailed state)
  end.
End Assembly.

(** ** Measures used by the statements *)

(** The approximate size of a list of history messages. *)
Definition tokensOf (env : Collaborators) (msgs : list Message) : Z :=
  foldr (fun msg acc => (messageTokens env msg + acc)%Z) 0%Z msgs.

(** The history that the selection walks: the context messages without the
    user message being answered, oldest first. *)
Definition historyOf (userMessageId : jsstring) (contextMessages : list Message)
    : list Message :=
  List.filter (fun msg => negb (bool_decide (msg_id msg = userMessageId)))
    contextMessages.

(** No two neighbouring entries have the same role. *)
Fixpoint alternating (l : list ChatMessage) : Prop :=
  match l with
  | a :: (b :: _) as rest => chat_role a <> chat_role b /\ alternating rest
  | _ => True
  end.

(** ** A small environment to run the model in *)

Definition test_env : Collaborators :=
  mkCollaborators
    (fun s => Z.of_nat (length s))
    (fun files => concat (map file_content files))
    (fun c => match c with
              | UserContent u => uc_text u
              | AssistantContent bs | SystemContent bs =>
                  concat (map blk_content bs)
              end)
    (fun c => match c with
              | AssistantContent bs | SystemContent bs => Some bs
              | UserContent _ => None
              end)
    (Ok (lit "artifacts"))
    (fun _ => Ok [])
    (fun text _ => text)
    (fun query _ => lit "cite: " ++ query)
    (fun _ engine context query => engine ++ context ++ query)
    (lit "engine")
    (fun _ _ => Throw (Error (lit "network down")))
    (fun _ _ _ => Ok (lit " rewritten "))
    (fun _ => Ok tt)
    (fun rows conversationId _ =>
       List.filter (in_conversation conversationId) rows).

(** An environment in which every string has the approximate size 400. *)
Definition env400 : Collaborators :=
  mkCollaborators (fun _ => 400%Z)
    (getFileContext test_env) (JSON_stringify test_env) (JSON_parse test_env)
    (getArtifactsPrompt test_env) (extractAndEnrichUrls test_env)
    (enrichUserMessageWithUrlContent test_env) (generateSearchPrompt test_env)
    (rewritePrompt test_env) (activeEngineName test_env)
    (searchManager_search test_env) (llm_generateCompletion test_env)
    (llm_startStreamCompletion test_env)
    (messageManager_getContextMessages test_env).

Definition test_settings : CONVERSATION_SETTINGS :=
  mkSettings [] (7 # 10) 1000 2000 (lit "openai") (lit "gpt-4") 0.

Definition user_message (id text : jsstring) (search : bool) : Message :=
  mkMessage id (lit "c1") None (UserContent (mkUserContent text [] search))
    MsSent no_metadata.

Definition assistant_message (id : jsstring) (status : MESSAGE_STATUS)
    (blocks : list AssistantMessageBlock) : Message :=
  mkMessage id (lit "c1") (Some (lit "u1")) (AssistantContent blocks)
    status no_metadata.

Definition fresh_state (id : jsstring) (blocks : list AssistantMessageBlock)
    : GeneratingMessageState :=
  mkState (mkAssistantMessage id blocks) (lit "c1") 0 None 0 None None None.

Definition world_of (rows : list Message)
    (generating : JsMap GeneratingMessageState) (now : Z) : World :=
  mkWorld [mkConversation (lit "c1") (lit "chat") test_settings] rows []
    generating None None now [].

(** ** Properties of the world that a computation keeps *)

Definition keeps {A} (P : World -> Prop) (m : M A) : Prop :=
  forall w, P w -> P (snd (m w)).

Definition generating (id : jsstring) (w : World) : Prop :=
  Map_has id (generatingMessages w) = true.

(** ** The error finalisation of one stored message *)

(** What handleMessageError makes of the row [m]: status [error], and the
    content parsed from the row with its loading blocks marked and one
    error block appended. *)
Definition finalize (env : Collaborators) (errorMessage : jsstring) (now : Z)
    (m : Message) : Message :=
  edit_content
    (errorBlocks errorMessage now (default [] (JSON_parse env (msg_content m))))
    (set_msg_status MsError m).

(** The row [r] after the rows whose id is in [done] were finalised. *)
Definition finalize_in (env : Collaborators) (errorMessage : jsstring) (now : Z)
    (done : list jsstring) (r : Message) : Message :=
  if bool_decide (msg_id r ∈ done) then finalize env errorMessage now r else r.



(** ** Occurrences of a pattern, in the words of the specification *)

(** [pat] occurs in [s] at position [i]. *)
Definition occurs_at (pat s : jsstring) (i : nat) : Prop :=
  take (length pat) (drop i s) = pat.

Definition has_substring (pat s : jsstring) : Prop :=
  exists i, occurs_at pat s i.

Definition first_occurrence (pat s : jsstring) (i : nat) : Prop :=
  occurs_at pat s i /\ forall j, occurs_at pat s j -> i <= j.

(** The last occurrence of [pat] that lies before position [k]. *)
Definition last_occurrence_before (pat s : jsstring) (k i : nat) : Prop :=
  occurs_at pat s i /\ i + length pat <= k
  /\ forall j, occurs_at pat s j -> j + length pat <= k -> j <= i.


(** The characters of [s] from position [from] up to, not including,
    position [to]. *)
Definition substring (s : jsstring) (from to : nat) : jsstring :=
  take (to - from) (drop from s).

(** ** The text a block list holds, by block type *)

(** The contents of the blocks of type [ty], in order, as one string. *)
Definition text_of (ty : BlockType) (blocks : list AssistantMessageBlock)
    : jsstring :=
  concat (map blk_content
            (List.filter (fun b => bool_decide (blk_type b = ty)) blocks)).

(** The text that a token event carries for blocks of type [ty]. *)
Definition streamed (ty : BlockType) (msg : ResponseMsg) : jsstring :=
  match ty with
  | TyContent => payload (rsp_content msg)
  | TyReasoningContent => payload (rsp_reasoning_content msg)
  | TySearch | TyError => []
  end.

(** ** Cancellation (lines 1033-1073) *)

Definition userCanceled (now : Z) : AssistantMessageBlock :=
  mkBlock TyError (lit "common.error.userCanceledGeneration") StCancel now None.

Definition loading_to_success (b : AssistantMessageBlock) : AssistantMessageBlock :=
  if decide (blk_status b = StLoading) then set_status StSuccess b else b.

(** The block list that stopMessageGeneration leaves (lines 1043-1053). *)
Definition stopBlocks (now : Z) (blocks : list AssistantMessageBlock)
    : list AssistantMessageBlock :=
  map loading_to_success blocks ++ [userCanceled now].

(** [Promise.all(items.map(body))]: every call is made, in the order of
    the list and each run to completion here; the promise rejects with the
    rejection of the first call in that order that rejected. *)
Fixpoint promiseAll {A} (items : list A) (body : A -> M unit) : M unit :=
  fun w =>
    match items with
    | [] => (Ok tt, w)
    | x :: rest =>
        let (r, w1) := body x w in
        let (r', w2) := promiseAll rest body w1 in
        (match r with Throw e => Throw e | Ok _ => r' end, w2)
    end.

Section Stopping.
(** [llmProviderPresenter.stopStream], which may reject. *)
Variable llm_stopStream : jsstring -> result unit.

(** stopMessageGeneration (lines 1039-1065) *)
Definition stopMessageGeneration (messageId : jsstring) : M unit :=
  state ← gets (fun w => Map_get messageId (generatingMessages w));
  match state with
  | None => mret tt
  | Some state =>
      now ← gets w_now;
      mutate_state messageId (set_blocks (stopBlocks now (blocks_of state)));;
      updateMessageStatus messageId MsError;;
      content ← current_blocks messageId;
      editMessage messageId content;;
      await (llm_stopStream messageId);;
      modify (with_generating (Map_delete messageId))
  end.

(** stopConversationGeneration (lines 1067-1073) *)
Definition stopConversationGeneration (conversationId : jsstring) : M unit :=
  messageIds ← gets (fun w =>
    map fst
      (List.filter
         (fun entry => bool_decide (gs_conversationId (snd entry) = conversationId))
         (generatingMessages w)));
  promiseAll messageIds stopMessageGeneration.
End Stopping.

(** getConversationGeneratingMessages (lines 1033-1037) *)
Definition getConversationGeneratingMessages (conversationId : jsstring)
    (w : World) : list AssistantMessage :=
  map gs_message
    (List.filter
       (fun state => bool_decide (gs_conversationId state = conversationId))
       (Map_values (generatingMessages w))).

(** No block of the list is loading. *)
Definition none_loading (blocks : list AssistantMessageBlock) : Prop :=
  Forall (fun b => blk_status b <> StLoading) blocks.

(** The keys of the map of generations are distinct, as they are in a
    JavaScript [Map]. *)
Definition distinct_keys (w : World) : Prop :=
  NoDup (map fst (generatingMessages w)).

(** What a row holds apart from its metadata. *)
Definition row_core (m : Message)
    : jsstring * jsstring * option jsstring * MessageContent * MESSAGE_STATUS :=
  (msg_id m, msg_conversationId m, msg_parentId m, msg_content m, msg_status m).

(** A world in which the assistant message m1 of conversation c1 is being
    generated and holds one loading content block. *)
Definition streaming_world : World :=
  world_of
    [user_message (lit "u1") (lit "hi") false;
     assistant_message (lit "m1") MsPending []]
    [(lit "m1",
      fresh_state (lit "m1") [mkBlock TyContent (lit "par") StLoading 3 None])]
    7.

(** The block [b'] is the block [b] with text appended to its content and,
    possibly, another status. *)
Definition extends (b b' : AssistantMessageBlock) : Prop :=
  blk_type b' = blk_type b
  /\ blk_timestamp b' = blk_timestamp b
  /\ blk_extra b' = blk_extra b
  /\ exists more, blk_content b' = blk_content b ++ more.

(** A token event carries at most one of the two payloads. *)
Definition single_payload (msg : ResponseMsg) : Prop :=
  truthy_opt (rsp_content msg) && truthy_opt (rsp_reasoning_content msg) = false.

(** ** The search prompt (lines 49-84)

    [SEARCH_PROMPT_TEMPLATE] is written here in the three pieces that its two
    placeholders separate. *)

(** The template up to [{{SEARCH_RESULTS}}]. *)
Definition template_head : jsstring :=
  lit "You are an expert in organizing search results.Write an "
  ++ lit "accurate answer concisely for a given question, citing the "
  ++ lit "search results as needed. Your answer must be correct, "
  ++ lit "high-quality, and written by an expert using an unbiased "
  ++ lit "and journalistic tone. Your answer must be written in the "
  ++ lit "same language as the question, even if language preference "
  ++ lit "is different. Cite search results using [index] at the end "
  ++ lit "of sentences when needed, for example "
  ++ [34%N]
  ++ lit "Ice is less dense than water.[1][2]"
  ++ [34%N]
  ++ lit " NO SPACE between the last word and the citation. Cite the "
  ++ lit "most relevant results that answer the question. Avoid "
  ++ lit "citing irrelevant results. Write only the response. Use "
  ++ lit "markdown for formatting."
  ++ newline
  ++ newline
  ++ lit "- Use markdown to format paragraphs, lists, tables, and "
  ++ lit "quotes whenever possible."
  ++ newline
  ++ lit "- Use markdown code blocks to write code, including the "
  ++ lit "language for syntax highlighting."
  ++ newline
  ++ lit "- Use LaTeX to wrap ALL math expression. Always use double "
  ++ lit "dollar signs $$, for example $$x^4 = x - 3$$."
  ++ newline
  ++ lit "- DO NOT include any URL's, only include citations with "
  ++ lit "numbers, eg [1]."
  ++ newline
  ++ lit "- DO NOT include references (URL's at the end, sources)."
  ++ newline
  ++ lit "- Use footnote citations at the end of applicable "
  ++ lit "sentences(e.g, [1][2])."
  ++ newline
  ++ lit "- Write more than 100 words (2 paragraphs)."
  ++ newline
  ++ lit "- In the response avoid referencing the citation directly"
  ++ newline
  ++ lit "- Print just the response text."
  ++ newline
  ++ lit "<search_results>"
  ++ newline.

(** The template between the two placeholders. *)
Definition template_mid : jsstring :=
  newline
  ++ lit "</search_results>"
  ++ newline
  ++ lit "<user_query>"
  ++ newline.

(** The template after [{{USER_QUERY}}]. *)
Definition template_tail : jsstring :=
  newline
  ++ lit "</user_query>"
  ++ newline
  ++ lit "  ".

(** The decimal digits of a number, as a template literal renders it. *)
Fixpoint uint_units (d : Decimal.uint) : jsstring :=
  match d with
  | Decimal.Nil => []
  | Decimal.D0 d => 48%N :: uint_units d
  | Decimal.D1 d => 49%N :: uint_units d
  | Decimal.D2 d => 50%N :: uint_units d
  | Decimal.D3 d => 51%N :: uint_units d
  | Decimal.D4 d => 52%N :: uint_units d
  | Decimal.D5 d => 53%N :: uint_units d
  | Decimal.D6 d => 54%N :: uint_units d
  | Decimal.D7 d => 55%N :: uint_units d
  | Decimal.D8 d => 56%N :: uint_units d
  | Decimal.D9 d => 57%N :: uint_units d
  end.

Definition decimal (n : nat) : jsstring := uint_units (Nat.to_uint n).

(** [GetSubstitution] for a string pattern, which has no captures: in the
    replacement, [$$] is a dollar sign, [$&] the matched text, [$`] the text
    before the match and [$'] the text after it; any other dollar sign
    stands for itself. *)
Fixpoint GetSubstitution (matched before after replacement : jsstring)
    : jsstring :=
  match replacement with
  | [] => []
  | c :: rest =>
      if (c =? 36)%N
      then
        match rest with
        | d :: rest' =>
            if (d =? 36)%N
            then 36%N :: GetSubstitution matched before after rest'
            else if (d =? 38)%N
            then matched ++ GetSubstitution matched before after rest'
            else if (d =? 96)%N
            then before ++ GetSubstitution matched before after rest'
            else if (d =? 39)%N
            then after ++ GetSubstitution matched before after rest'
            else 36%N :: GetSubstitution matched before after rest
        | [] => [36%N]
        end
      else c :: GetSubstitution matched before after rest
  end.

(** [s.replace(pattern, replacement)] with a string pattern: the first
    occurrence is replaced, if there is one. *)
Definition String_replace (s pattern replacement : jsstring) : jsstring :=
  match indexOf_opt s pattern with
  | None => s
  | Some position =>
      let before := take position s in
      let after := drop (position + length pattern) s in
      before ++ GetSubstitution pattern before after replacement ++ after
  end.

Module SearchPrompt.

Definition SEARCH_PROMPT_TEMPLATE : jsstring :=
  template_head ++ lit "{{SEARCH_RESULTS}}" ++ template_mid
  ++ lit "{{USER_QUERY}}" ++ template_tail.

(** One entry of formatSearchResults (lines 70-75); the colon of the
    source is the full-width one, the code unit 65306. *)
Definition formatSearchResult (index : nat) (result : SearchResult) : jsstring :=
  lit "source " ++ decimal (index + 1) ++ [65306%N] ++ sr_title result
  ++ newline ++ lit "URL: " ++ sr_url result
  ++ newline ++ lit "content" ++ [65306%N] ++ payload (sr_content result)
  ++ newline ++ lit "---".

(** formatSearchResults (lines 68-77) *)
Definition formatSearchResults (results : list SearchResult) : jsstring :=
  join (newline ++ newline) (imap formatSearchResult results).

(** generateSearchPrompt (lines 79-84) *)
Definition generateSearchPrompt (query : jsstring) (results : list SearchResult)
    : jsstring :=
  String_replace
    (String_replace SEARCH_PROMPT_TEMPLATE (lit "{{SEARCH_RESULTS}}")
       (formatSearchResults results))
    (lit "{{USER_QUERY}}") query.

End SearchPrompt.

(** No field of the result that reaches the prompt holds a dollar sign or
    an opening brace. *)
Definition plain_result (r : SearchResult) : Prop :=
  forall c, c ∈ sr_title r ++ sr_url r ++ payload (sr_content r) ->
    c <> 36%N /\ c <> 123%N.

(** ** A stream, event by event *)

(** The world when the clock reads [now]. *)
Definition with_now (now : Z) (w : World) : World :=
  mkWorld (w_conversations w) (w_messages w) (w_attachments w)
    (generatingMessages w) (searchAssistantModel w)
    (searchAssistantProviderId w) now (w_streams w).

(** The token events of a stream, each handled when the clock reads the
    time that comes with it. *)
Definition deliver (evs : list (ResponseMsg * Z)) : M unit :=
  forEach evs (fun ev => modify (with_now (snd ev));; on_RESPONSE (fst ev)).

(** * Properties *)

(** ** The monad *)

Lemma bind_ok {A B} (m : M A) (k : A -> M B) w a w' :
  m w = (Ok a, w') -> (m ≫= k) w = k a w'.
Proof. intros H. unfold mbind, M_bind. now rewrite H. Qed.

Lemma bind_throw {A B} (m : M A) (k : A -> M B) w e w' :
  m w = (Throw e, w') -> (m ≫= k) w = (Throw e, w').
Proof. intros H. unfold mbind, M_bind. now rewrite H. Qed.

Lemma try_catch_ok {A} (body : M A) handler w a w' :
  body w = (Ok a, w') -> try_catch body handler w = (Ok a, w').
Proof. intros H. unfold try_catch. now rewrite H. Qed.

Lemma try_catch_throw {A} (body : M A) handler w e w' :
  body w = (Throw e, w') -> try_catch body handler w = handler e w'.
Proof. intros H. unfold try_catch. now rewrite H. Qed.

(** ** tokensPerSecond *)







(** Binary64 arithmetic gives the same three answers. *)
Example tokensPerSecond64_agrees :
  tokensPerSecond64 5%float 0%float = PrimFloat.infinity
  /\ PrimFloat.is_nan (tokensPerSecond64 0%float 0%float) = true
  /\ PrimFloat.leb 0%float (tokensPerSecond64 0%float 0%float) = false
  /\ tokensPerSecond64 5%float 2000%float = 2.5%float
  /\ tokensPerSecond 5 2000 = Finite (5000 # 2000).
Proof. repeat split. Qed.

Lemma endMetadata_tokensPerSecond env now state :
  md_tokensPerSecond (endMetadata env now state)
  = Some (tokensPerSecond
            (completionTokensOf env (map (set_status StSuccess) (blocks_of state)))
            (now - generationStart state)).
Proof. reflexivity. Qed.

(** ** The end event *)





(** ** Token events *)

(** C2 fails on the code for a token event that carries both payloads
    while the message has no trailing content or reasoning_content block:
    [lastBlock] is read before the content block is pushed, so the
    reasoning branch neither finds nor closes that block, and the handler
    leaves two [loading] blocks, the first of which is not the final one. *)
Theorem token_with_both_payloads_leaves_two_loading :
  let msg := mkResponse (lit "m1") (Some (lit "a")) (Some (lit "b")) in
  let w := world_of [assistant_message (lit "m1") MsPending []]
             [(lit "m1", fresh_state (lit "m1") [])] 7 in
  responseBlocks msg 7 []
  = [mkBlock TyContent (lit "a") StLoading 7 None;
     mkBlock TyReasoningContent (lit "b") StLoading 7 None]
  /\ ~ only_last_loading (responseBlocks msg 7 [])
  /\ blocks_of <$> Map_get (lit "m1") (generatingMessages (snd (on_RESPONSE msg w)))
     = Some (responseBlocks msg 7 []).
Proof.
  repeat split; try reflexivity.
  intros H.
  specialize (H 0 (mkBlock TyContent (lit "a") StLoading 7 None)
                eq_refl eq_refl).
  discriminate H.
Qed.

(** ** Token events keep content and reasoning text apart *)

Lemma text_of_app ty l1 l2 : text_of ty (l1 ++ l2) = text_of ty l1 ++ text_of ty l2.
Proof. unfold text_of. now rewrite List.filter_app, List.map_app, List.concat_app. Qed.

Lemma text_of_cons ty b l :
  text_of ty (b :: l)
  = (if decide (blk_type b = ty) then blk_content b else []) ++ text_of ty l.
Proof.
  unfold text_of. simpl. case_bool_decide; [rewrite decide_True | rewrite decide_False];
    auto.
Qed.

Lemma text_of_none ty l :
  Forall (fun b => blk_type b <> ty) l -> text_of ty l = [].
Proof.
  induction 1 as [| b l Hb _ IH]; [reflexivity |].
  rewrite text_of_cons, decide_False by exact Hb. exact IH.
Qed.

Lemma alter_middle {A} (f : A -> A) (l1 : list A) x l2 :
  alter f (length l1) (l1 ++ x :: l2) = l1 ++ f x :: l2.
Proof.
  replace (length l1) with (length l1 + 0) by lia.
  now rewrite alter_app_r.
Qed.

(** One [if (payload) { ... }] statement, when the block list is split at
    the block that [lastBlock] names. *)
Lemma appendToken_split ty text now l1 b l2 :
  appendToken ty text now (Some (length l1)) (l1 ++ b :: l2)
  = if decide (blk_type b = ty)
    then l1 ++ append_content text b :: l2
    else l1 ++ set_status StSuccess b :: l2 ++ [mkBlock ty text StLoading now None].
Proof.
  unfold appendToken. cbv zeta.
  rewrite lookup_app_r, Nat.sub_diag by lia. simpl.
  case_decide; rewrite alter_middle; [reflexivity |].
  now rewrite <- app_assoc.
Qed.

Lemma text_of_fresh ty ty' text now :
  text_of ty' [mkBlock ty text StLoading now None]
  = if decide (ty = ty') then text else [].
Proof.
  rewrite text_of_cons. simpl. case_decide; [apply app_nil_r | reflexivity].
Qed.

Lemma appendToken_text ty ty' text now l1 b l2 :
  Forall (fun b' => blk_type b' <> ty) l2 ->
  text_of ty' (appendToken ty text now (Some (length l1)) (l1 ++ b :: l2))
  = text_of ty' (l1 ++ b :: l2) ++ (if decide (ty = ty') then text else []).
Proof.
  intros Hl2. rewrite appendToken_split.
  destruct (decide (blk_type b = ty)) as [Hb | Hb].
  - rewrite !text_of_app, !text_of_cons.
    cbn [append_content set_content blk_type blk_content].
    destruct (decide (ty = ty')) as [<- | Hne].
    + rewrite !decide_True by exact Hb.
      rewrite (text_of_none _ _ Hl2), !app_nil_r. now rewrite <- app_assoc.
    + rewrite !decide_False by congruence. now rewrite !app_nil_r.
  - rewrite !text_of_app, !text_of_cons, text_of_app, text_of_fresh.
    cbn [set_status blk_type blk_content].
    now rewrite <- !app_assoc.
Qed.

Lemma appendToken_text_none ty ty' text now blocks :
  text_of ty' (appendToken ty text now None blocks)
  = text_of ty' blocks ++ (if decide (ty = ty') then text else []).
Proof. unfold appendToken. now rewrite text_of_app, text_of_fresh. Qed.

Lemma lastBlockIndex_snoc l b : lastBlockIndex (l ++ [b]) = Some (length l).
Proof.
  unfold lastBlockIndex. destruct (l ++ [b]) eqn:E.
  - now apply app_nil in E as [_ [=]].
  - rewrite <- E, length_app. simpl. f_equal. lia.
Qed.

Lemma snoc_cases {A} (l : list A) : l = [] \/ exists l' x, l = l' ++ [x].
Proof.
  induction l as [| x l _] using rev_ind; [now left | right; eauto].
Qed.

Lemma payload_falsy s : truthy_opt s = false -> payload s = [].
Proof. destruct s as [[| c s] |]; simpl; congruence. Qed.

(** A token event adds its content payload to the text of the content
    blocks, its reasoning payload to the text of the reasoning_content
    blocks, and nothing to the text of any other block. *)
Lemma responseBlocks_text ty msg now blocks :
  text_of ty (responseBlocks msg now blocks)
  = text_of ty blocks ++ streamed ty msg.
Proof.
  unfold responseBlocks.
  destruct (truthy_opt (rsp_content msg)) eqn:Hc,
           (truthy_opt (rsp_reasoning_content msg)) eqn:Hr.
  all: try apply payload_falsy in Hc; try apply payload_falsy in Hr.
  all: cbv zeta.
  all: destruct (snoc_cases blocks) as [-> | (l & b & ->)];
    [cbn [lastBlockIndex] | rewrite ?lastBlockIndex_snoc].
  all: rewrite ?appendToken_text_none.
  all: try (rewrite (appendToken_text _ _ _ _ _ _ []) by constructor).
  all: try (destruct ty; simpl; rewrite ?Hc, ?Hr, ?app_nil_r, <- ?app_assoc; reflexivity).
  rewrite (appendToken_split TyContent _ _ l b []).
  destruct (decide (blk_type b = TyContent)) as [Hb | Hb].
  - rewrite (appendToken_text _ _ _ _ l _ []) by constructor.
    rewrite !text_of_app, !text_of_cons.
    cbn [append_content set_content blk_type blk_content]. rewrite Hb.
    destruct ty; simpl; rewrite ?app_nil_r, <- ?app_assoc; reflexivity.
  - cbn [app].
    rewrite (appendToken_text _ _ _ _ l _ [_])
      by (repeat constructor; discriminate).
    rewrite !text_of_app, !text_of_cons.
    cbn [set_status blk_type blk_content].
    destruct ty; simpl; rewrite ?decide_False by exact Hb;
      rewrite ?app_nil_r, <- ?app_assoc; simpl; rewrite ?app_nil_r; reflexivity.
Qed.

(** So for every sequence of token events the two kinds of text never
    end up in one block: the content blocks hold exactly the content
    payloads, the reasoning_content blocks exactly the reasoning payloads. *)
Lemma responseRun_text ty evs blocks :
  text_of ty (responseRun evs blocks)
  = text_of ty blocks ++ concat (map (fun ev => streamed ty (fst ev)) evs).
Proof.
  revert blocks. induction evs as [| ev evs IH]; intros blocks; simpl.
  - now rewrite app_nil_r.
  - unfold responseRun in *. simpl. rewrite IH, responseBlocks_text.
    now rewrite <- app_assoc.
Qed.

(** ** Token events and the loading status *)

Lemma only_last_loading_snoc l x :
  only_last_loading (l ++ [x]) <-> Forall (fun b => blk_status b <> StLoading) l.
Proof.
  unfold only_last_loading. rewrite Forall_lookup. split.
  - intros H i b Hi Hloading.
    pose proof (lookup_lt_Some _ _ _ Hi) as Hlt.
    specialize (H i b). rewrite lookup_app_l in H by exact Hlt.
    specialize (H Hi Hloading). rewrite length_app in H. simpl in H. lia.
  - intros H i b Hi Hloading. rewrite length_app. simpl.
    destruct (decide (i < length l)) as [Hlt | Hge].
    + rewrite lookup_app_l in Hi by exact Hlt. now apply H in Hi.
    + pose proof (lookup_lt_Some _ _ _ Hi) as Hlt. rewrite length_app in Hlt.
      simpl in Hlt. lia.
Qed.

Lemma only_last_loading_snoc2 l a x :
  Forall (fun b => blk_status b <> StLoading) l ->
  blk_status a <> StLoading ->
  only_last_loading (l ++ [a; x]).
Proof.
  intros Hl Ha. change (l ++ [a; x]) with (l ++ [a] ++ [x]).
  rewrite app_assoc. apply only_last_loading_snoc, Forall_app.
  split; [exact Hl | repeat constructor; exact Ha].
Qed.

Lemma only_last_loading_nil : only_last_loading [].
Proof. intros i b Hi. discriminate Hi. Qed.

(** The handler keeps "at most the final block is loading" for every
    token event, except one that carries both payloads while the last block
    is not a content or reasoning_content block (or there is none). *)
Lemma responseBlocks_only_last_loading msg now blocks :
  only_last_loading blocks ->
  truthy_opt (rsp_content msg) && truthy_opt (rsp_reasoning_content msg) = false
  \/ (exists b, last blocks = Some b /\ is_text_block b = true) ->
  only_last_loading (responseBlocks msg now blocks).
Proof.
  intros Hinv Hcase. unfold responseBlocks. cbv zeta.
  destruct (snoc_cases blocks) as [-> | (l & b & ->)].
  - cbn [lastBlockIndex].
    destruct Hcase as [Hcase | (b & [=] & _)].
    destruct (truthy_opt (rsp_content msg)), (truthy_opt (rsp_reasoning_content msg));
      try discriminate Hcase; try exact Hinv;
      unfold appendToken; apply (only_last_loading_snoc []); constructor.
  - rewrite lastBlockIndex_snoc. apply only_last_loading_snoc in Hinv.
    destruct (truthy_opt (rsp_content msg)) eqn:Hc,
             (truthy_opt (rsp_reasoning_content msg)) eqn:Hr.
    + destruct Hcase as [[=] | (b' & Hlast & Htext)].
      rewrite last_snoc in Hlast. injection Hlast as <-.
      rewrite (appendToken_split TyContent _ _ l b []).
      destruct (decide (blk_type b = TyContent)) as [Hb | Hb].
      * rewrite (appendToken_split TyReasoningContent _ _ l _ []).
        rewrite decide_False by (cbn; rewrite Hb; discriminate).
        cbn [app]. now apply only_last_loading_snoc2.
      * assert (Hrb : blk_type b = TyReasoningContent).
        { unfold is_text_block in Htext. apply orb_true_iff in Htext as [H | H];
            apply bool_decide_eq_true in H; [contradiction | exact H]. }
        cbn [app]. rewrite (appendToken_split TyReasoningContent _ _ l _ [_]).
        rewrite decide_True by exact Hrb.
        now apply only_last_loading_snoc2.
    + rewrite (appendToken_split TyContent _ _ l b []). case_decide.
      * now apply only_last_loading_snoc.
      * cbn [app]. now apply only_last_loading_snoc2.
    + rewrite (appendToken_split TyReasoningContent _ _ l b []). case_decide.
      * now apply only_last_loading_snoc.
      * cbn [app]. now apply only_last_loading_snoc2.
    + now apply only_last_loading_snoc.
Qed.

(** ** The merge pass *)

Lemma mergeStep_nil m : mergeStep [] m = [m].
Proof. reflexivity. Qed.

Lemma mergeStep_snoc acc x m :
  mergeStep (acc ++ [x]) m
  = if decide (chat_role x = chat_role m)
    then acc ++ [merge_into m x]
    else acc ++ [x; m].
Proof.
  unfold mergeStep. rewrite last_snoc.
  case_decide.
  - rewrite length_app. simpl.
    replace (length acc + 1 - 1) with (length acc + 0) by lia.
    rewrite alter_app_r. reflexivity.
  - now rewrite <- app_assoc.
Qed.

Lemma fold_mergeStep_prefix l acc x :
  fold_left mergeStep l (acc ++ [x]) = acc ++ fold_left mergeStep l [x].
Proof.
  revert acc x. induction l as [| m l IH]; intros acc x; [reflexivity |].
  simpl. rewrite mergeStep_snoc.
  change (mergeStep [x] m) with (mergeStep ([] ++ [x]) m).
  rewrite mergeStep_snoc. simpl.
  case_decide.
  - apply IH.
  - change (acc ++ [x; m]) with (acc ++ [x] ++ [m]).
    rewrite app_assoc, IH.
    change [x; m] with ([x] ++ [m]). rewrite (IH [x] m).
    now rewrite <- app_assoc.
Qed.

Lemma fold_mergeStep_cons x m l :
  fold_left mergeStep (m :: l) [x]
  = if decide (chat_role x = chat_role m)
    then fold_left mergeStep l [merge_into m x]
    else x :: fold_left mergeStep l [m].
Proof.
  simpl. change (mergeStep [x] m) with (mergeStep ([] ++ [x]) m).
  rewrite mergeStep_snoc. simpl.
  case_decide; [reflexivity |].
  change [x; m] with ([x] ++ [m]). now rewrite fold_mergeStep_prefix.
Qed.

Lemma merged_is_fixed l x :
  exists y r, fold_left mergeStep l [x] = y :: r
              /\ chat_role y = chat_role x
              /\ fold_left mergeStep r [y] = y :: r.
Proof.
  revert x. induction l as [| m l IH]; intros x.
  - exists x, []. repeat split.
  - rewrite fold_mergeStep_cons. case_decide as Hrole.
    + destruct (IH (merge_into m x)) as (y & r & Hy & Hr & Hfix).
      exists y, r. repeat split; assumption.
    + destruct (IH m) as (y & r & Hy & Hr & Hfix).
      exists x, (y :: r). rewrite Hy. repeat split.
      rewrite fold_mergeStep_cons. case_decide; [congruence |].
      now rewrite Hfix.
Qed.

(** C9: the role-merge pass is idempotent. *)
Theorem mergeMessages_idempotent (formattedMessages : list ChatMessage) :
  mergeMessages (mergeMessages formattedMessages)
  = mergeMessages formattedMessages.
Proof.
  unfold mergeMessages. destruct formattedMessages as [| m l]; [reflexivity |].
  change (fold_left mergeStep (m :: l) []) with (fold_left mergeStep l [m]).
  destruct (merged_is_fixed l m) as (y & r & Hy & _ & Hfix).
  rewrite Hy. exact Hfix.
Qed.

(** The merged list alternates roles, which is why a second pass finds
    nothing to merge. *)
Lemma merged_alternating_from l x :
  alternating (fold_left mergeStep l [x]).
Proof.
  revert x. induction l as [| m l IH]; intros x; [exact I |].
  rewrite fold_mergeStep_cons. case_decide as Hrole; [apply IH |].
  destruct (merged_is_fixed l m) as (y & r & Hy & Hr & _).
  specialize (IH m). rewrite Hy in *. simpl. split; [congruence | exact IH].
Qed.

Lemma mergeMessages_alternating formattedMessages :
  alternating (mergeMessages formattedMessages).
Proof.
  unfold mergeMessages. destruct formattedMessages as [| m l]; [exact I |].
  simpl. rewrite mergeStep_nil. apply merged_alternating_from.
Qed.

(** ** History selection *)

Section SelectionFacts.
Variable env : Collaborators.

Lemma tokensOf_app l1 l2 :
  tokensOf env (l1 ++ l2) = (tokensOf env l1 + tokensOf env l2)%Z.
Proof.
  induction l1 as [| m l1 IH]; [reflexivity |].
  simpl. unfold tokensOf in *. simpl. rewrite IH. lia.
Qed.

Lemma tokensOf_reverse l : tokensOf env (reverse l) = tokensOf env l.
Proof.
  induction l as [| m l IH]; [reflexivity |].
  rewrite reverse_cons, tokensOf_app, IH. unfold tokensOf. simpl. lia.
Qed.

(** The loop takes a prefix of the newest-first list and stops at the
    first message that does not fit. *)
Lemma selectLoop_prefix remaining messages currentLength selected :
  exists taken rest,
    messages = taken ++ rest
    /\ selectLoop env remaining messages currentLength selected
       = reverse taken ++ selected
    /\ ((currentLength <= remaining)%Z ->
        (currentLength + tokensOf env taken <= remaining)%Z)
    /\ (forall next, head rest = Some next ->
          (remaining < currentLength + tokensOf env taken
                       + messageTokens env next)%Z).
Proof.
  revert currentLength selected.
  induction messages as [| msg messages IH]; intros currentLength selected.
  - exists [], []. repeat split; simpl; [unfold tokensOf; simpl; lia | discriminate].
  - simpl. destruct (Z.leb_spec (currentLength + messageTokens env msg) remaining)
      as [Hfits | Hover].
    + destruct (IH (currentLength + messageTokens env msg)%Z (msg :: selected))
        as (taken & rest & -> & Hsel & Hsum & Hnext).
      exists (msg :: taken), rest. repeat split.
      * rewrite Hsel, reverse_cons, <- app_assoc. reflexivity.
      * intros _. specialize (Hsum Hfits). unfold tokensOf in *. simpl. lia.
      * intros next Hhead. specialize (Hnext next Hhead).
        unfold tokensOf in *. simpl. lia.
    + exists [], (msg :: messages). repeat split.
      * unfold tokensOf. simpl. lia.
      * intros next [= <-]. unfold tokensOf. simpl. lia.
Qed.

Lemma last_reverse {A} (l : list A) : last (reverse l) = head l.
Proof.
  destruct l as [| a l]; [reflexivity |].
  rewrite reverse_cons. apply last_snoc.
Qed.

(** C7: the history selection keeps the newest messages that fit the
    remaining budget: the selected messages are a suffix of the history
    in chronological order, their approximate sizes add up to at most the
    budget, and the newest message left out is one whose addition would
    exceed it. In particular, with a context length of 1000, 100 reserved
    tokens and three history messages of size 400, the last two are
    selected and the oldest is dropped. *)
Theorem history_selection (contextLength reservedTokens : Z)
    (userMessageId : jsstring) (contextMessages : list Message) :
  (0 < contextLength - reservedTokens)%Z ->
  let remaining := (contextLength - reservedTokens)%Z in
  let selected :=
    selectHistory env contextLength reservedTokens userMessageId contextMessages in
  (exists dropped,
      historyOf userMessageId contextMessages = dropped ++ selected
      /\ (tokensOf env selected <= remaining)%Z
      /\ (forall older, last dropped = Some older ->
            (remaining < tokensOf env selected + messageTokens env older)%Z))
  /\ (forall m1 m2 m3,
        contextLength = 1000%Z -> reservedTokens = 100%Z ->
        historyOf userMessageId contextMessages = [m1; m2; m3] ->
        messageTokens env m1 = 400%Z -> messageTokens env m2 = 400%Z ->
        messageTokens env m3 = 400%Z ->
        selected = [m2; m3]).
Proof.
  intros Hpos remaining selected. subst selected. unfold selectHistory.
  fold (historyOf userMessageId contextMessages). fold remaining.
  destruct (Z.gtb_spec remaining 0) as [_ | Hle]; [| lia].
  split.
  - destruct (selectLoop_prefix remaining
                (reverse (historyOf userMessageId contextMessages)) 0 [])
      as (taken & rest & Hsplit & Hsel & Hsum & Hnext).
    exists (reverse rest). rewrite Hsel, app_nil_r. repeat split.
    + rewrite <- reverse_app, <- Hsplit, reverse_involutive. reflexivity.
    + rewrite tokensOf_reverse. specialize (Hsum ltac:(lia)). lia.
    + intros older Hlast. rewrite last_reverse in Hlast.
      specialize (Hnext older Hlast). rewrite tokensOf_reverse. lia.
  - intros m1 m2 m3 Hc Hr -> H1 H2 H3. subst remaining. subst.
    unfold reverse; simpl. rewrite H3, H2, H1. reflexivity.
Qed.

(** C8: when the reserved tokens reach the context length, no history
    message is selected. *)
Theorem no_history_when_reserved_reaches_budget
    (settings : CONVERSATION_SETTINGS) (searchPrompt enrichedUserMessage : jsstring)
    (userMessageId : jsstring) (contextMessages : list Message) :
  (contextLength settings
   <= reservedTokensOf env settings searchPrompt enrichedUserMessage)%Z ->
  selectHistory env (contextLength settings)
    (reservedTokensOf env settings searchPrompt enrichedUserMessage)
    userMessageId contextMessages = [].
Proof.
  intros Hle. unfold selectHistory.
  destruct (Z.gtb_spec
              (contextLength settings
               - reservedTokensOf env settings searchPrompt enrichedUserMessage) 0)
    as [Hgt | _]; [lia | reflexivity].
Qed.
End SelectionFacts.

Lemma history_selection_witness :
  selectHistory env400 1000 100 (lit "u9")
    [assistant_message (lit "a1") MsSent [];
     user_message (lit "u2") (lit "hello") false;
     assistant_message (lit "a3") MsSent []]
  = [user_message (lit "u2") (lit "hello") false;
     assistant_message (lit "a3") MsSent []].
Proof.
  refine (proj2 (history_selection env400 1000 100 (lit "u9") _ _) _ _ _ _ _ _ _ _ _);
    first [reflexivity | lia].
Defined.

Lemma no_history_when_reserved_reaches_budget_witness :
  selectHistory env400 300 400 (lit "u9")
    [assistant_message (lit "a1") MsSent []] = [].
Proof.
  apply (no_history_when_reserved_reaches_budget env400
           (mkSettings [] (7 # 10) 300 2000 (lit "openai") (lit "gpt-4") 0)
           [] (lit "hello")).
  vm_compute. discriminate.
Defined.

(** ** The map of in-flight generations *)

Section JsMapFacts.
Context {V : Type}.
Implicit Types (m : JsMap V) (k : jsstring) (v : V).

Lemma Map_get_set_eq k v m : Map_get k (Map_set k v m) = Some v.
Proof.
  induction m as [| [k' v'] m IH]; simpl.
  - now rewrite decide_True.
  - destruct (decide (k' = k)) as [-> | Hne]; simpl.
    + now rewrite decide_True.
    + now rewrite decide_False.
Qed.

Lemma Map_get_set_ne k k' v m :
  k' <> k -> Map_get k (Map_set k' v m) = Map_get k m.
Proof.
  intros Hne. induction m as [| [k0 v0] m IH]; simpl.
  - now rewrite decide_False.
  - destruct (decide (k0 = k')) as [-> | Hne']; simpl.
    + now rewrite !decide_False.
    + now rewrite IH.
Qed.

Lemma Map_set_set k v1 v2 m :
  Map_set k v2 (Map_set k v1 m) = Map_set k v2 m.
Proof.
  induction m as [| [k' v'] m IH]; simpl.
  - now rewrite decide_True.
  - destruct (decide (k' = k)) as [-> | Hne]; simpl.
    + now rewrite decide_True.
    + now rewrite decide_False, IH.
Qed.

Lemma Map_mutate_Some (f : V -> V) k v m :
  Map_get k m = Some v -> Map_mutate f k m = Map_set k (f v) m.
Proof. intros H. unfold Map_mutate. now rewrite H. Qed.

Lemma Map_mutate_None (f : V -> V) k m :
  Map_get k m = None -> Map_mutate f k m = m.
Proof. intros H. unfold Map_mutate. now rewrite H. Qed.

Lemma Map_keys_set k v m :
  is_Some (Map_get k m) -> map fst (Map_set k v m) = map fst m.
Proof.
  induction m as [| [k' v'] m IH]; simpl.
  - intros [? [=]].
  - destruct (decide (k' = k)) as [-> | Hne]; simpl; [reflexivity |].
    intros H. now rewrite IH.
Qed.

Lemma Map_get_None_keys k m : Map_get k m = None <-> k ∉ map fst m.
Proof.
  induction m as [| [k' v'] m IH]; simpl.
  - split; [intros _; apply not_elem_of_nil | reflexivity].
  - rewrite not_elem_of_cons. destruct (decide (k' = k)) as [-> | Hne].
    + split; [discriminate | intros [[] _]; reflexivity].
    + rewrite IH. split; [intros H; split; [congruence | exact H] | intros [_ H]; exact H].
Qed.

(** With distinct keys, [delete] removes the entry. *)
Lemma Map_get_delete_eq k m :
  NoDup (map fst m) -> Map_get k (Map_delete k m) = None.
Proof.
  induction m as [| [k' v'] m IH]; simpl; [reflexivity |].
  intros Hnd. apply NoDup_cons in Hnd as [Hnotin Hnd].
  destruct (decide (k' = k)) as [-> | Hne]; simpl.
  - now apply Map_get_None_keys.
  - rewrite decide_False by exact Hne. now apply IH.
Qed.

Lemma Map_has_true k m : Map_has k m = true <-> is_Some (Map_get k m).
Proof. unfold Map_has. apply bool_decide_eq_true. Qed.

Lemma Map_has_set k k' v m :
  Map_has k m = true -> Map_has k (Map_set k' v m) = true.
Proof.
  rewrite !Map_has_true. intros H.
  destruct (decide (k' = k)) as [-> | Hne].
  - rewrite Map_get_set_eq. eauto.
  - now rewrite Map_get_set_ne.
Qed.

Lemma Map_has_mutate (f : V -> V) k k' m :
  Map_has k m = true -> Map_has k (Map_mutate f k' m) = true.
Proof.
  intros H. unfold Map_mutate. destruct (Map_get k' m); [| exact H].
  now apply Map_has_set.
Qed.
End JsMapFacts.

(** ** Running handlers step by step *)

Ltac mstep := erewrite bind_ok by (first [reflexivity | eassumption]).

Lemma update_message_twice id f g rows :
  (forall m, msg_id (g m) = msg_id m) ->
  update_message id f (update_message id g rows)
  = update_message id (fun m => f (g m)) rows.
Proof.
  intros Hid. unfold update_message. rewrite map_map.
  apply map_ext. intros m. destruct (decide (msg_id m = id)) as [E | N].
  - rewrite decide_True; [reflexivity | now rewrite Hid].
  - now rewrite decide_False.
Qed.

Lemma update_message_ext id f g rows :
  (forall m, f m = g m) -> update_message id f rows = update_message id g rows.
Proof.
  intros H. unfold update_message. apply map_ext. intros m.
  case_decide; [apply H | reflexivity].
Qed.

Lemma edit_content_twice b1 b2 m :
  edit_content b2 (edit_content b1 m) = edit_content b2 m.
Proof. destruct m as [? ? ? [] ? ?]; reflexivity. Qed.

Lemma conversationSettings_run conversationId conversation w :
  store_getConversation conversationId w = Some conversation ->
  conversationSettings conversationId w = (Ok (conv_settings conversation), w).
Proof. intros H. unfold conversationSettings. mstep. now rewrite H. Qed.

Lemma getContextMessages_run env conversationId conversation w :
  store_getConversation conversationId w = Some conversation ->
  exists msgs, getContextMessages env conversationId w = (Ok msgs, w).
Proof.
  intros H. unfold getContextMessages.
  erewrite bind_ok by (apply conversationSettings_run; exact H).
  eexists. reflexivity.
Qed.

(** The query rewrite never throws and leaves the world as it is. *)
Lemma rewriteUserSearchQuery_total env query context conversationId engine w :
  exists q,
    rewriteUserSearchQuery env query context conversationId engine w = (Ok q, w).
Proof.
  unfold rewriteUserSearchQuery. mstep. mstep.
  destruct (store_getConversation conversationId w) as [c |];
    [| eexists; reflexivity].
  mstep. mstep. unfold try_catch, mbind, M_bind, await.
  destruct (llm_generateCompletion _ _ _ _); eexists; reflexivity.
Qed.

(** ** The end handler as a whole *)

(** What the end handler does to the store and to the map: it persists
    the metadata of [endMetadata], the status [sent] and the block list of
    [endBlocks], and deletes the entry. *)
Lemma on_END_run env eventId w state :
  Map_get eventId (generatingMessages w) = Some state ->
  exists w',
    on_END env eventId w = (Ok tt, w')
    /\ w_messages w'
       = update_message eventId
           (edit_content (endBlocks (w_now w) (blocks_of state)))
           (update_message eventId (set_msg_status MsSent)
              (update_message eventId
                 (patch_msg_metadata (endMetadata env (w_now w) state))
                 (w_messages w)))
    /\ generatingMessages w'
       = Map_delete eventId
           (Map_set eventId
              (set_blocks (endBlocks (w_now w) (blocks_of state)) state)
              (generatingMessages w)).
Proof.
  intros Hstate. unfold on_END. mstep. rewrite Hstate. mstep.
  mstep. mstep. mstep. mstep. mstep.
  eexists. split; [reflexivity |].
  cbn [with_generating with_messages generatingMessages w_messages
       mutate_state modify snd].
  rewrite (Map_mutate_Some _ _ _ _ Hstate), Map_get_set_eq.
  split; reflexivity.
Qed.

(** ** The search step *)



(** After a failed search the assembly goes on: the stream is requested
    from the provider and startStreamCompletion returns normally. *)
Example search_failure_generation_proceeds :
  let w := world_of [user_message (lit "u1") (lit "hi") true;
                     assistant_message (lit "m1") MsPending []]
             [(lit "m1", fresh_state (lit "m1") [])] 7 in
  let run := startStreamCompletion test_env (lit "c1") None w in
  fst run = Ok tt
  /\ map rq_eventId (w_streams (snd run)) = [lit "m1"]
  /\ w_attachments (snd run) = [].
Proof. vm_compute. repeat split. Qed.

(** ** Failure of the prompt assembly *)

Lemma handleMessageError_run env messageId errorMessage w :
  handleMessageError env messageId errorMessage w
  = (Ok tt,
     match store_getMessage messageId w with
     | None => w
     | Some message =>
         with_messages
           (fun rows =>
              update_message messageId
                (edit_content
                   (errorBlocks errorMessage (w_now w)
                      (default [] (JSON_parse env (msg_content message)))))
                (update_message messageId (set_msg_status MsError) rows))
           w
     end).
Proof.
  unfold handleMessageError. mstep.
  destruct (store_getMessage messageId w); reflexivity.
Qed.

Lemma handleMessageError_generating env messageId errorMessage w :
  generatingMessages (snd (handleMessageError env messageId errorMessage w))
  = generatingMessages w.
Proof.
  rewrite handleMessageError_run. simpl.
  destruct (store_getMessage messageId w); reflexivity.
Qed.

(** The stream error event: the error finalisation, then the entry is
    deleted. *)
Lemma on_ERROR_run env eventId error w state :
  Map_get eventId (generatingMessages w) = Some state ->
  on_ERROR env eventId error w
  = (Ok tt,
     with_generating (Map_delete eventId)
       (snd (handleMessageError env eventId (String_ error) w))).
Proof.
  intros H. unfold on_ERROR. mstep. rewrite H.
  erewrite bind_ok by apply handleMessageError_run.
  rewrite handleMessageError_run. reflexivity.
Qed.

(** The [catch] block: the same error finalisation and the exception
    raised again, but the map of generations is left as the assembly left
    it. *)
Lemma startStreamCompletion_failure env conversationId queryMsgId w state
    conversation error w1 :
  find (fun state => bool_decide (gs_conversationId state = conversationId))
    (Map_values (generatingMessages w)) = Some state ->
  store_getConversation conversationId w = Some conversation ->
  assemble env conversationId queryMsgId state (conv_settings conversation) w
  = (Throw error, w1) ->
  let final := startStreamCompletion env conversationId queryMsgId w in
  fst final = Throw error
  /\ snd final
     = snd (handleMessageError env (am_id (gs_message state)) (String_ error) w1)
  /\ generatingMessages (snd final) = generatingMessages w1.
Proof.
  intros Hstate Hconv Hfail final. subst final.
  unfold startStreamCompletion. mstep. rewrite Hstate.
  erewrite bind_ok by (apply conversationSettings_run; exact Hconv).
  erewrite try_catch_throw by exact Hfail.
  unfold assemblyFailed.
  erewrite bind_ok by apply handleMessageError_run.
  unfold throw. cbn [fst snd].
  split; [reflexivity | split].
  - now rewrite handleMessageError_run.
  - destruct (store_getMessage _ w1); reflexivity.
Qed.

(** C4 fails on the code in one point: an exception of the assembly is
    finalised in the store exactly as a stream error event is, and raised
    again, but the generation state entry is not removed. Here the
    conversation has no user message, so the assembly throws. *)
Theorem assembly_failure_keeps_generation_state :
  let w := world_of [assistant_message (lit "m1") MsPending []]
             [(lit "m1", fresh_state (lit "m1") [])] 7 in
  let failed := startStreamCompletion test_env (lit "c1") None w in
  let routed := on_ERROR test_env (lit "m1") (Error msg_noUserMessage) w in
  fst failed = Throw (Error msg_noUserMessage)
  /\ w_messages (snd failed) = w_messages (snd routed)
  /\ Map_has (lit "m1") (generatingMessages (snd routed)) = false
  /\ Map_has (lit "m1") (generatingMessages (snd failed)) = true.
Proof. vm_compute. repeat split. Qed.

Section Keeps.
Context (P : World -> Prop).

Lemma keeps_ret {A} (a : A) : keeps P (mret a).
Proof. intros w H. exact H. Qed.

Lemma keeps_throw {A} e : keeps P (@throw A e).
Proof. intros w H. exact H. Qed.

Lemma keeps_gets {A} (f : World -> A) : keeps P (gets f).
Proof. intros w H. exact H. Qed.

Lemma keeps_await {A} (r : result A) : keeps P (await r).
Proof. intros w H. exact H. Qed.

Lemma keeps_modify f : (forall w, P w -> P (f w)) -> keeps P (modify f).
Proof. intros Hf w H. apply Hf, H. Qed.

Lemma keeps_bind {A B} (m : M A) (k : A -> M B) :
  keeps P m -> (forall a, keeps P (k a)) -> keeps P (m ≫= k).
Proof.
  intros Hm Hk w H. specialize (Hm w H). unfold mbind, M_bind.
  destruct (m w) as [[a | e] w']; simpl in *; [apply Hk, Hm | exact Hm].
Qed.

Lemma keeps_try_catch {A} (body : M A) handler :
  keeps P body -> (forall e, keeps P (handler e)) -> keeps P (try_catch body handler).
Proof.
  intros Hm Hk w H. specialize (Hm w H). unfold try_catch.
  destruct (body w) as [[a | e] w']; simpl in *; [exact Hm | apply Hk, Hm].
Qed.

Lemma keeps_forEach {A} (l : list A) body :
  (forall a, keeps P (body a)) -> keeps P (forEach l body).
Proof.
  intros Hbody. induction l as [| a l IH]; simpl.
  - apply keeps_ret.
  - apply keeps_bind; [apply Hbody | intros _; exact IH].
Qed.
End Keeps.

Ltac keeps_step :=
  first
    [ apply keeps_ret | apply keeps_throw | apply keeps_gets | apply keeps_await
    | apply keeps_bind; [| intros ?]
    | apply keeps_try_catch; [| intros ?]
    | apply keeps_forEach; intros ?
    | match goal with
      | |- keeps _ (match ?x with _ => _ end) => destruct x
      | |- keeps _ (let (_, _) := ?x in _) => destruct x
      end ].

Lemma generating_with_messages id f w :
  generating id w -> generating id (with_messages f w).
Proof. exact (fun H => H). Qed.

Lemma generating_with_attachments id f w :
  generating id w -> generating id (with_attachments f w).
Proof. exact (fun H => H). Qed.

Lemma generating_with_streams id f w :
  generating id w -> generating id (with_streams f w).
Proof. exact (fun H => H). Qed.

Lemma keeps_generating_store id (f : World -> World) :
  (forall w, generatingMessages (f w) = generatingMessages w) ->
  keeps (generating id) (modify f).
Proof.
  intros Hf. apply keeps_modify. intros w H. unfold generating. now rewrite Hf.
Qed.

Lemma keeps_generating_mutate id id' f :
  keeps (generating id) (mutate_state id' f).
Proof.
  apply keeps_modify. intros w H. apply Map_has_mutate. exact H.
Qed.

Lemma keeps_generating_persist id id' : keeps (generating id) (persist id').
Proof.
  unfold persist, current_blocks. keeps_step; [keeps_step |].
  apply keeps_generating_store. reflexivity.
Qed.

Lemma keeps_generating_settings id conversationId :
  keeps (generating id) (conversationSettings conversationId).
Proof. unfold conversationSettings. repeat keeps_step. Qed.

Lemma keeps_generating_context env id conversationId :
  keeps (generating id) (getContextMessages env conversationId).
Proof.
  unfold getContextMessages.
  keeps_step; [apply keeps_generating_settings | keeps_step].
Qed.

Lemma keeps_generating_search env id conversationId messageId query :
  keeps (generating id) (startStreamSearch env conversationId messageId query).
Proof.
  unfold startStreamSearch, rewriteUserSearchQuery, mutate_searchBlock,
    addMessageAttachment.
  repeat first
    [ apply keeps_generating_mutate | apply keeps_generating_persist
    | apply keeps_generating_context
    | apply keeps_generating_store; reflexivity
    | keeps_step ].
Qed.

Lemma keeps_generating_assemble env id conversationId queryMsgId state settings :
  keeps (generating id) (assemble env conversationId queryMsgId state settings).
Proof.
  unfold assemble, resolveUserMessage, getMessageHistory, systemEntries,
    updateMessageMetadata.
  repeat first
    [ apply keeps_generating_search | apply keeps_generating_context
    | apply keeps_generating_store; reflexivity
    | apply keeps_modify; intros w H; apply Map_has_set; exact H
    | keeps_step
    | match goal with
      | |- keeps _ (if ?b then _ else _) => destruct b
      end ].
Qed.

(** Whatever exception the assembly throws, the entry of the generation
    is still in the map when startStreamCompletion has re-raised it. *)
Lemma assembly_failure_entry_remains env conversationId queryMsgId w state
    conversation error :
  find (fun state => bool_decide (gs_conversationId state = conversationId))
    (Map_values (generatingMessages w)) = Some state ->
  store_getConversation conversationId w = Some conversation ->
  generating (am_id (gs_message state)) w ->
  fst (startStreamCompletion env conversationId queryMsgId w) = Throw error ->
  generating (am_id (gs_message state))
    (snd (startStreamCompletion env conversationId queryMsgId w)).
Proof.
  intros Hstate Hconv Hgen Hthrow.
  pose proof (keeps_generating_assemble env (am_id (gs_message state))
                conversationId queryMsgId state (conv_settings conversation) w Hgen)
    as Hkept.
  destruct (assemble env conversationId queryMsgId state
              (conv_settings conversation) w) as [[[] | e] w1] eqn:Hrun.
  - exfalso. revert Hthrow. unfold startStreamCompletion. mstep. rewrite Hstate.
    erewrite bind_ok by (apply conversationSettings_run; exact Hconv).
    erewrite try_catch_ok by exact Hrun. discriminate.
  - destruct (startStreamCompletion_failure env conversationId queryMsgId w
                state conversation e w1 Hstate Hconv Hrun) as (_ & _ & Hmap).
    unfold generating. rewrite Hmap. exact Hkept.
Qed.

(** ** Recovery at start-up *)

Section Recovery.
Variable env : Collaborators.
Variable errorMessage : jsstring.
Variable now : Z.

Local Notation "'fin'" := (finalize env errorMessage now).
Local Notation "'fin_in'" := (finalize_in env errorMessage now).

Lemma finalize_id m : msg_id (fin m) = msg_id m.
Proof. destruct m as [? ? ? [] ? ?]; reflexivity. Qed.

Lemma finalize_conversation m : msg_conversationId (fin m) = msg_conversationId m.
Proof. destruct m as [? ? ? [] ? ?]; reflexivity. Qed.

Lemma finalize_not_pending m : is_pending_assistant (fin m) = false.
Proof.
  unfold is_pending_assistant.
  destruct m as [? ? ? [] ? ?]; reflexivity.
Qed.

Lemma finalize_in_id done r : msg_id (fin_in done r) = msg_id r.
Proof. unfold finalize_in. case_bool_decide; [apply finalize_id | reflexivity]. Qed.

Lemma finalize_in_conversation done r :
  msg_conversationId (fin_in done r) = msg_conversationId r.
Proof.
  unfold finalize_in. case_bool_decide; [apply finalize_conversation | reflexivity].
Qed.

Lemma finalize_in_ids done rows :
  map msg_id (map (fin_in done) rows) = map msg_id rows.
Proof. rewrite map_map. apply map_ext. intros r. apply finalize_in_id. Qed.

Lemma same_id_same_row rows a b :
  NoDup (map msg_id rows) -> In a rows -> In b rows -> msg_id a = msg_id b -> a = b.
Proof.
  induction rows as [| r rows IH]; intros Hnd Ha Hb Hid; [destruct Ha |].
  simpl in Hnd. apply NoDup_cons in Hnd as [Hnotin Hnd].
  rewrite list_elem_of_In in Hnotin.
  destruct Ha as [<- | Ha], Hb as [<- | Hb]; try reflexivity.
  - exfalso. apply Hnotin. rewrite Hid. now apply in_map.
  - exfalso. apply Hnotin. rewrite <- Hid. now apply in_map.
  - now apply IH.
Qed.

Lemma find_by_id rows m :
  NoDup (map msg_id rows) -> In m rows ->
  find (fun r => bool_decide (msg_id r = msg_id m)) rows = Some m.
Proof.
  intros Hnd Hin.
  destruct (find _ rows) as [r |] eqn:Hfind.
  - apply find_some in Hfind as [Hr Hid]. apply bool_decide_eq_true in Hid.
    f_equal. now apply (same_id_same_row rows).
  - apply find_none with (x := m) in Hfind; [| exact Hin].
    apply bool_decide_eq_false in Hfind. contradiction.
Qed.

Lemma find_by_id_map (g : Message -> Message) id rows :
  (forall r, msg_id (g r) = msg_id r) ->
  find (fun r => bool_decide (msg_id r = id)) (map g rows)
  = g <$> find (fun r => bool_decide (msg_id r = id)) rows.
Proof.
  intros Hg. induction rows as [| r rows IH]; [reflexivity |].
  simpl. rewrite Hg. destruct (bool_decide (msg_id r = id)); [reflexivity | exact IH].
Qed.

Lemma with_messages_ext f g w :
  f (w_messages w) = g (w_messages w) -> with_messages f w = with_messages g w.
Proof. intros H. unfold with_messages. now rewrite H. Qed.

Lemma with_messages_same f w : f (w_messages w) = w_messages w -> with_messages f w = w.
Proof. intros H. unfold with_messages. rewrite H. now destruct w. Qed.

Lemma finalize_in_nil rows : map (fin_in []) rows = rows.
Proof. rewrite <- (map_id rows) at 2. apply map_ext. reflexivity. Qed.

(** One call of handleMessageError, on a table with distinct ids. *)
Lemma handleMessageError_rows id w :
  w_now w = now ->
  NoDup (map msg_id (w_messages w)) ->
  snd (handleMessageError env id errorMessage w)
  = with_messages (map (fin_in [id])) w.
Proof.
  intros Hnow Hnd. rewrite handleMessageError_run. cbn [snd]. rewrite Hnow.
  unfold store_getMessage.
  destruct (find _ (w_messages w)) as [message |] eqn:Hfind.
  - apply find_some in Hfind as [Hin Hid]. apply bool_decide_eq_true in Hid.
    apply with_messages_ext.
    rewrite update_message_twice by reflexivity.
    unfold update_message. apply map_ext_in. intros r Hr.
    unfold finalize_in. case_decide as Hrid.
    + rewrite bool_decide_eq_true_2 by (rewrite Hrid; apply list_elem_of_here).
      assert (r = message) as ->
        by (apply (same_id_same_row (w_messages w)); congruence).
      reflexivity.
    + rewrite bool_decide_eq_false_2; [reflexivity |].
      intros Hel. apply list_elem_of_singleton in Hel. contradiction.
  - symmetry. apply with_messages_same.
    rewrite <- (map_id (w_messages w)) at 2. apply map_ext_in. intros r Hr.
    apply find_none with (x := r) in Hfind; [| exact Hr].
    apply bool_decide_eq_false in Hfind.
    unfold finalize_in. rewrite bool_decide_eq_false_2; [reflexivity |].
    intros Hel. apply list_elem_of_singleton in Hel. contradiction.
Qed.

Lemma finalize_in_cons a done r :
  a ∉ done ->
  fin_in done (fin_in [a] r) = fin_in (a :: done) r.
Proof.
  intros Hnotin. unfold finalize_in at 2 3.
  destruct (decide (msg_id r = a)) as [Hid | Hid].
  - rewrite !bool_decide_eq_true_2
      by (rewrite Hid; first [apply list_elem_of_here]).
    unfold finalize_in. rewrite bool_decide_eq_false_2; [reflexivity |].
    now rewrite finalize_id, Hid.
  - rewrite bool_decide_eq_false_2
      by (intros Hel; apply list_elem_of_singleton in Hel; contradiction).
    unfold finalize_in.
    destruct (decide (msg_id r ∈ done)) as [Hin | Hout].
    + rewrite !bool_decide_eq_true_2; [reflexivity | | exact Hin].
      now apply list_elem_of_further.
    + rewrite !bool_decide_eq_false_2; [reflexivity | | exact Hout].
      intros Hel. apply elem_of_cons in Hel as [? | ?]; contradiction.
Qed.

(** The loop over the pending messages of one conversation. *)
Lemma forEach_handleMessageError (l : list Message) w :
  w_now w = now ->
  NoDup (map msg_id (w_messages w)) ->
  NoDup (map msg_id l) ->
  forEach l (fun message => handleMessageError env (msg_id message) errorMessage) w
  = (Ok tt, with_messages (map (fin_in (map msg_id l))) w).
Proof.
  revert w. induction l as [| a l IH]; intros w Hnow Hrows Hl.
  - simpl. unfold mret, M_ret. f_equal. symmetry.
    apply with_messages_same, finalize_in_nil.
  - simpl in Hl. apply NoDup_cons in Hl as [Hnotin Hl].
    cbn [forEach].
    erewrite bind_ok; cycle 1.
    { rewrite (surjective_pairing (handleMessageError _ _ _ _)).
      rewrite handleMessageError_rows by assumption.
      rewrite handleMessageError_run. reflexivity. }
    rewrite IH; [| exact Hnow | | exact Hl].
    + f_equal. unfold with_messages; cbn. f_equal.
      rewrite map_map. apply map_ext. intros r.
      now apply finalize_in_cons.
    + cbn [with_messages w_messages]. now rewrite finalize_in_ids.
Qed.
End Recovery.

Lemma NoDup_map_filter {A B} (f : A -> B) (p : A -> bool) (l : list A) :
  NoDup (map f l) -> NoDup (map f (List.filter p l)).
Proof.
  induction l as [| a l IH]; intros Hnd; [exact Hnd |].
  simpl in Hnd. apply NoDup_cons in Hnd as [Hnotin Hnd]. simpl.
  destruct (p a); [| now apply IH].
  simpl. apply NoDup_cons. split; [| now apply IH].
  rewrite list_elem_of_In in *. intros Hin. apply Hnotin.
  apply in_map_iff in Hin as (x & <- & Hx).
  apply in_map. now apply filter_In in Hx as [Hx _].
Qed.

Lemma NoDup_map_page {A B} (f : A -> B) (page pageSize : nat) (l : list A) :
  NoDup (map f l) -> NoDup (map f (page_of page pageSize l)).
Proof.
  intros Hnd. unfold page_of. rewrite <- firstn_map, <- skipn_map.
  refine (sublist_NoDup _ (map f l) Hnd _).
  etransitivity; [apply sublist_take | apply sublist_drop].
Qed.

Lemma In_page {A} (page pageSize : nat) (l : list A) x :
  In x (page_of page pageSize l) -> In x l.
Proof.
  unfold page_of. intros H. apply list_elem_of_In.
  apply list_elem_of_In in H.
  refine (elem_of_sublist _ l x H _).
  etransitivity; [apply sublist_take | apply sublist_drop].
Qed.

Lemma thread_of_mapped (g : Message -> Message) conversationId page pageSize w :
  (forall r, msg_conversationId (g r) = msg_conversationId r) ->
  store_getMessageThread conversationId page pageSize (with_messages (map g) w)
  = map g (store_getMessageThread conversationId page pageSize w).
Proof.
  intros Hg. unfold store_getMessageThread, page_of. cbn [with_messages w_messages].
  rewrite filter_map_swap, skipn_map, firstn_map. do 3 f_equal.
  apply filter_ext. intros r. unfold in_conversation. now rewrite Hg.
Qed.

Lemma thread_in_rows conversationId page pageSize w m :
  In m (store_getMessageThread conversationId page pageSize w) ->
  In m (w_messages w).
Proof.
  intros H. apply In_page in H. now apply filter_In in H as [H _].
Qed.

Lemma thread_ids_NoDup conversationId page pageSize w :
  NoDup (map msg_id (w_messages w)) ->
  NoDup (map msg_id (store_getMessageThread conversationId page pageSize w)).
Proof. intros H. now apply NoDup_map_page, NoDup_map_filter. Qed.

Section StartUp.
Variable env : Collaborators.
Variable now : Z.

Local Notation "'fin'" := (finalize env sessionInterrupted now).
Local Notation "'fin_in'" := (finalize_in env sessionInterrupted now).

(** The messages that a pass over [conversation] finalises. *)
Local Notation "'scanned' c w" :=
  (List.filter is_pending_assistant (store_getMessageThread (conv_id c) 1 1000 w))
  (at level 10, c at level 9, w at level 9).

Lemma recoverConversation_run conversation w :
  w_now w = now ->
  NoDup (map msg_id (w_messages w)) ->
  recoverConversation env conversation w
  = (Ok tt, with_messages (map (fin_in (map msg_id (scanned conversation w)))) w).
Proof.
  intros Hnow Hnd. unfold recoverConversation. mstep.
  apply forEach_handleMessageError; [exact Hnow | exact Hnd |].
  now apply NoDup_map_filter, thread_ids_NoDup.
Qed.

Lemma finalize_in_app done more r :
  (forall x, x ∈ done -> x ∉ more) ->
  fin_in more (fin_in done r) = fin_in (done ++ more) r.
Proof.
  intros Hdisjoint. unfold finalize_in at 2 3.
  destruct (decide (msg_id r ∈ done)) as [Hin | Hout].
  - rewrite !bool_decide_eq_true_2;
      [| apply elem_of_app; left; exact Hin | exact Hin].
    unfold finalize_in. rewrite bool_decide_eq_false_2; [reflexivity |].
    rewrite finalize_id. now apply Hdisjoint.
  - rewrite (bool_decide_eq_false_2 _ Hout). unfold finalize_in.
    destruct (decide (msg_id r ∈ more)) as [Hin' | Hout'].
    + rewrite !bool_decide_eq_true_2; [reflexivity | | exact Hin'].
      apply elem_of_app. now right.
    + rewrite !bool_decide_eq_false_2; [reflexivity | | exact Hout'].
      intros Hel. apply elem_of_app in Hel as [? | ?]; contradiction.
Qed.

(** A message that is already finalised is not scanned again. *)
Lemma scanned_not_done conversation w0 done x :
  NoDup (map msg_id (w_messages w0)) ->
  x ∈ done ->
  x ∉ map msg_id (scanned conversation (with_messages (map (fin_in done)) w0)).
Proof.
  intros Hnd Hdone Hin. rewrite list_elem_of_In in Hin.
  apply in_map_iff in Hin as (m & Hid & Hm).
  apply filter_In in Hm as [Hthread Hpending].
  rewrite thread_of_mapped in Hthread by apply finalize_in_conversation.
  apply in_map_iff in Hthread as (r0 & <- & Hr0).
  rewrite finalize_in_id in Hid. subst x.
  unfold finalize_in in Hpending.
  rewrite bool_decide_eq_true_2 in Hpending by exact Hdone.
  rewrite finalize_not_pending in Hpending. discriminate.
Qed.

(** The loop over the conversations: the table it leaves is the initial
    one with a set [done'] of rows finalised, which contains every pending
    assistant message on the first page of a visited conversation. *)
Lemma forEach_recoverConversation conversations w0 done :
  w_now w0 = now ->
  NoDup (map msg_id (w_messages w0)) ->
  exists done',
    forEach conversations (recoverConversation env)
      (with_messages (map (fin_in done)) w0)
    = (Ok tt, with_messages (map (fin_in done')) w0)
    /\ (forall x, x ∈ done -> x ∈ done')
    /\ (forall conversation m,
          In conversation conversations ->
          In m (store_getMessageThread (conv_id conversation) 1 1000 w0) ->
          is_pending_assistant m = true ->
          msg_id m ∈ done').
Proof.
  intros Hnow Hnd. revert done.
  induction conversations as [| c conversations IH]; intros done.
  - exists done. repeat split; [auto | intros ? ? []].
  - cbn [forEach].
    set (w := with_messages (map (fin_in done)) w0).
    set (more := map msg_id (scanned c w)).
    destruct (IH (done ++ more)) as (done' & Hrun & Hsub & Hall).
    exists done'. split; [| split].
    + erewrite bind_ok; cycle 1.
      { apply recoverConversation_run; [exact Hnow |].
        subst w. cbn [with_messages w_messages]. now rewrite finalize_in_ids. }
      rewrite <- Hrun. f_equal. subst w. unfold with_messages; cbn. f_equal.
      rewrite map_map. apply map_ext. intros r.
      apply finalize_in_app. intros x Hx. now apply scanned_not_done.
    + intros x Hx. apply Hsub, elem_of_app. now left.
    + intros conversation m [<- | Hc] Hm Hpending; [| now apply (Hall conversation)].
      apply Hsub. destruct (decide (msg_id m ∈ done)) as [Hin | Hout].
      * apply elem_of_app. now left.
      * apply elem_of_app. right. subst more. rewrite list_elem_of_In.
        apply in_map. apply filter_In. split; [| exact Hpending].
        subst w. rewrite thread_of_mapped by apply finalize_in_conversation.
        apply in_map_iff. exists m. split; [| exact Hm].
        unfold finalize_in. now rewrite bool_decide_eq_false_2.
Qed.

End StartUp.



(** ** Substring search *)

Lemma starts_with_take pat s :
  starts_with pat s = true <-> take (length pat) s = pat.
Proof.
  revert s. induction pat as [| p pat IH]; intros s; simpl.
  - split; reflexivity.
  - destruct s as [| c s]; simpl.
    + split; discriminate.
    + rewrite andb_true_iff, bool_decide_eq_true, IH.
      split; [intros [-> ->]; reflexivity | intros [= -> H]; rewrite H; auto].
Qed.

Lemma starts_with_occurs pat s : starts_with pat s = true <-> occurs_at pat s 0.
Proof. apply starts_with_take. Qed.

Lemma occurs_at_cons pat c s j :
  occurs_at pat (c :: s) (S j) <-> occurs_at pat s j.
Proof. reflexivity. Qed.

Lemma occurs_at_length pat s i :
  occurs_at pat s i -> pat <> [] -> i + length pat <= length s.
Proof.
  unfold occurs_at. intros H Hne. apply (f_equal length) in H.
  rewrite length_take, length_drop in H.
  assert (0 < length pat) by (destruct pat; [contradiction | simpl; lia]).
  lia.
Qed.

Lemma indexOf_opt_Some s pat i :
  indexOf_opt s pat = Some i -> first_occurrence pat s i /\ i <= length s.
Proof.
  revert i. induction s as [| c s IH]; intros i; simpl.
  - destruct (starts_with pat []) eqn:E; [| discriminate].
    intros [= <-]. repeat split; [now apply starts_with_occurs | lia | lia].
  - destruct (starts_with pat (c :: s)) eqn:E.
    + intros [= <-]. repeat split; [now apply starts_with_occurs | lia | lia].
    + destruct (indexOf_opt s pat) as [n |]; [| discriminate].
      intros [= <-]. destruct (IH n eq_refl) as ((Hocc & Hmin) & Hlen).
      repeat split; [exact Hocc | | lia].
      intros [| j] Hj.
      * apply starts_with_occurs in Hj. congruence.
      * apply occurs_at_cons, Hmin in Hj. lia.
Qed.

Lemma indexOf_opt_None s pat :
  indexOf_opt s pat = None -> forall i, ~ occurs_at pat s i.
Proof.
  induction s as [| c s IH]; simpl.
  - destruct (starts_with pat []) eqn:E; [discriminate |]. intros _ i Hi.
    assert (pat = []) as ->; [| discriminate E].
    unfold occurs_at in Hi. rewrite drop_nil, take_nil in Hi. now symmetry.
  - destruct (starts_with pat (c :: s)) eqn:E; [discriminate |].
    destruct (indexOf_opt s pat) as [n |]; [discriminate |].
    intros _ [| j] Hj.
    + apply starts_with_occurs in Hj. congruence.
    + apply occurs_at_cons in Hj. now apply (IH eq_refl j).
Qed.

Lemma indexOf_first_occurrence s pat i :
  first_occurrence pat s i -> indexOf s pat = Z.of_nat i.
Proof.
  intros [Hocc Hmin]. unfold indexOf.
  destruct (indexOf_opt s pat) as [n |] eqn:E.
  - apply indexOf_opt_Some in E as ((Hocc' & Hmin') & _).
    simpl. f_equal. apply Nat.le_antisymm; auto.
  - exfalso. now apply (indexOf_opt_None _ _ E i).
Qed.

Lemma contains_has_substring text item :
  contains text item = true <-> has_substring text (file_content item).
Proof.
  unfold contains, indexOf. rewrite bool_decide_eq_true.
  destruct (indexOf_opt (file_content item) text) as [n |] eqn:E; simpl.
  - split; [| lia]. intros _. exists n. now apply indexOf_opt_Some in E as ((? & _) & _).
  - split; [lia |]. intros [i Hi]. now apply (indexOf_opt_None _ _ E i) in Hi.
Qed.

Lemma lastIndexOf_opt_None s pat :
  lastIndexOf_opt s pat = None ->
  forall j, occurs_at pat s j -> j + length pat <= length s -> False.
Proof.
  induction s as [| c s IH]; simpl.
  - destruct (starts_with pat []) eqn:E; [discriminate |]. intros _ j Hj _.
    assert (pat = []) as ->; [| discriminate E].
    unfold occurs_at in Hj. rewrite drop_nil, take_nil in Hj. now symmetry.
  - destruct (lastIndexOf_opt s pat) as [n |]; [discriminate |].
    destruct (starts_with pat (c :: s)) eqn:E; [discriminate |].
    intros _ [| j] Hj Hlen.
    + apply starts_with_occurs in Hj. congruence.
    + apply occurs_at_cons in Hj. apply (IH eq_refl j Hj). simpl in Hlen. lia.
Qed.

Lemma lastIndexOf_opt_Some s pat i :
  lastIndexOf_opt s pat = Some i ->
  last_occurrence_before pat s (length s) i.
Proof.
  revert i. induction s as [| c s IH]; intros i; simpl.
  - destruct (starts_with pat []) eqn:E; [| discriminate].
    intros [= <-]. apply starts_with_take in E. rewrite take_nil in E. subst pat.
    repeat split; simpl; lia.
  - destruct (lastIndexOf_opt s pat) as [n |] eqn:En.
    + intros [= <-]. destruct (IH n eq_refl) as (Hocc & Hlen & Hmax).
      repeat split; [exact Hocc | simpl; lia |].
      intros [| j] Hj Hjlen; [lia |].
      apply occurs_at_cons in Hj. specialize (Hmax j Hj). simpl in Hjlen. lia.
    + destruct (starts_with pat (c :: s)) eqn:E; [| discriminate].
      intros [= <-]. apply starts_with_take in E.
      repeat split; [exact E | |].
      * apply (f_equal length) in E. rewrite length_take in E. simpl in *. lia.
      * intros [| j] Hj Hjlen; [lia | exfalso].
        apply occurs_at_cons in Hj.
        apply (lastIndexOf_opt_None s pat En j Hj). simpl in Hjlen. lia.
Qed.

Lemma occurs_at_take pat s t j :
  j + length pat <= t -> occurs_at pat (take t s) j <-> occurs_at pat s j.
Proof.
  intros Hle. unfold occurs_at.
  rewrite skipn_firstn_comm, take_take.
  now replace (length pat `min` (t - j)) with (length pat) by lia.
Qed.




Lemma slice_in_range s from to :
  from <= to <= length s ->
  slice s (Z.of_nat from) (Z.of_nat to) = substring s from to.
Proof.
  intros [Hft Hto]. unfold slice, slice_bound, substring.
  destruct (Z.ltb_spec (Z.of_nat from) 0); [lia |].
  destruct (Z.ltb_spec (Z.of_nat to) 0); [lia |].
  rewrite !Z.min_l by lia. rewrite Nat2Z.id. f_equal. lia.
Qed.

Lemma slice_prefix s t : t <= length s -> slice s 0 (Z.of_nat t) = take t s.
Proof.
  intros Ht. change 0%Z with (Z.of_nat 0).
  rewrite (slice_in_range s 0 t) by lia.
  unfold substring. simpl. f_equal. lia.
Qed.

Lemma slice_from_drop s t : t <= length s -> slice_from s (Z.of_nat t) = drop t s.
Proof.
  intros Ht. unfold slice_from. rewrite slice_in_range by lia.
  unfold substring. apply take_ge. rewrite length_drop. lia.
Qed.

Lemma find_first_match {A} (p : A -> bool) before x after :
  (forall y, In y before -> p y = false) -> p x = true ->
  find p (before ++ x :: after) = Some x.
Proof.
  intros Hbefore Hx. induction before as [| b before IH]; simpl.
  - now rewrite Hx.
  - rewrite (Hbefore b) by now left. apply IH. intros y Hy. apply Hbefore. now right.
Qed.







(** * Further properties of the presenter *)

(** ** Lookups in the map and in the store *)

Lemma Map_get_delete_ne {V} k k' (m : JsMap V) :
  k <> k' -> Map_get k (Map_delete k' m) = Map_get k m.
Proof.
  intros Hne. induction m as [| [k0 v0] m IH]; simpl; [reflexivity |].
  destruct (decide (k0 = k')) as [-> | Hk0]; simpl.
  - now rewrite decide_False by congruence.
  - now rewrite IH.
Qed.

Lemma Map_keys_delete {V} k (m : JsMap V) :
  NoDup (map fst m) -> NoDup (map fst (Map_delete k m)).
Proof.
  induction m as [| [k0 v0] m IH]; simpl; [auto |].
  intros Hnd. apply NoDup_cons in Hnd as [Hnotin Hnd].
  destruct (decide (k0 = k)); [exact Hnd |].
  simpl. apply NoDup_cons. split; [| now apply IH].
  intros Hin. apply Hnotin. clear -Hin.
  induction m as [| [k1 v1] m IH]; simpl in *; [exact Hin |].
  destruct (decide (k1 = k)).
  - now apply list_elem_of_further.
  - apply elem_of_cons in Hin as [-> | Hin];
      [apply list_elem_of_here | apply list_elem_of_further, IH, Hin].
Qed.

Lemma Map_keys_set_NoDup {V} k v (m : JsMap V) :
  NoDup (map fst m) -> NoDup (map fst (Map_set k v m)).
Proof.
  intros Hnd. destruct (Map_get k m) as [v0 |] eqn:E.
  - rewrite Map_keys_set by eauto. exact Hnd.
  - assert (Hset : map fst (Map_set k v m) = map fst m ++ [k]).
    { clear Hnd. induction m as [| [k0 v0] m IH]; simpl in *; [reflexivity |].
      destruct (decide (k0 = k)); [discriminate |]. simpl. now rewrite IH. }
    rewrite Hset. apply NoDup_app. repeat split; [exact Hnd | | apply NoDup_singleton].
    intros x Hx Hk. apply list_elem_of_singleton in Hk as ->.
    now apply Map_get_None_keys in E.
Qed.

Lemma update_message_id id f rows :
  (forall m, msg_id (f m) = msg_id m) ->
  map msg_id (update_message id f rows) = map msg_id rows.
Proof.
  intros Hf. unfold update_message. rewrite map_map. apply map_ext.
  intros m. case_decide; [apply Hf | reflexivity].
Qed.

Lemma find_update_message id id' f rows :
  (forall m, msg_id (f m) = msg_id m) ->
  find (fun r => bool_decide (msg_id r = id)) (update_message id' f rows)
  = (fun m => if decide (id = id') then f m else m)
      <$> find (fun r => bool_decide (msg_id r = id)) rows.
Proof.
  intros Hf. unfold update_message.
  rewrite find_by_id_map by (intros r; case_decide; [apply Hf | reflexivity]).
  destruct (find _ rows) as [m |] eqn:E; [| reflexivity].
  apply find_some in E as [_ Hid]. apply bool_decide_eq_true in Hid. simpl.
  now subst id.
Qed.

Lemma endBlocks_none_loading now blocks : none_loading (endBlocks now blocks).
Proof.
  unfold endBlocks, none_loading.
  assert (H : Forall (fun b => blk_status b <> StLoading)
                (map (set_status StSuccess) blocks)).
  { apply Forall_forall. intros b Hb. rewrite list_elem_of_In in Hb.
    apply in_map_iff in Hb as (b0 & <- & _). discriminate. }
  destruct (negb _); [| exact H].
  apply Forall_app. split; [exact H | repeat constructor; discriminate].
Qed.

Lemma errorBlocks_none_loading errorMessage now blocks :
  none_loading (errorBlocks errorMessage now blocks).
Proof.
  unfold errorBlocks, none_loading. apply Forall_app. split.
  - apply Forall_forall. intros b Hb. rewrite list_elem_of_In in Hb.
    apply in_map_iff in Hb as (b0 & <- & _). unfold loading_to_error.
    case_decide; [discriminate | assumption].
  - repeat constructor. discriminate.
Qed.

Lemma stopBlocks_none_loading now blocks : none_loading (stopBlocks now blocks).
Proof.
  unfold stopBlocks, none_loading. apply Forall_app. split.
  - apply Forall_forall. intros b Hb. rewrite list_elem_of_In in Hb.
    apply in_map_iff in Hb as (b0 & <- & _). unfold loading_to_success.
    case_decide; [discriminate | assumption].
  - repeat constructor. discriminate.
Qed.

(** ** The end event, seen from outside *)

(** X1: when a generation ends, its entry leaves the map of in-flight
    generations and the other entries stay; the stored message gets the
    status sent and the block list of the generation, in which no block is
    loading any more. *)
Theorem end_closes_generation env eventId w state m :
  distinct_keys w ->
  Map_get eventId (generatingMessages w) = Some state ->
  store_getMessage eventId w = Some m ->
  exists w' m',
    on_END env eventId w = (Ok tt, w')
    /\ Map_get eventId (generatingMessages w') = None
    /\ (forall k, k <> eventId ->
          Map_get k (generatingMessages w') = Map_get k (generatingMessages w))
    /\ store_getMessage eventId w' = Some m'
    /\ msg_status m' = MsSent
    /\ msg_content m'
       = msg_content (edit_content (endBlocks (w_now w) (blocks_of state)) m)
    /\ none_loading (endBlocks (w_now w) (blocks_of state)).
Proof.
  intros Hkeys Hstate Hm.
  destruct (on_END_run env eventId w state Hstate) as (w' & Hrun & Hrows & Hmap).
  exists w'. eexists. split; [exact Hrun |].
  split; [| split; [| split; [| split; [| split]]]].
  - rewrite Hmap. apply Map_get_delete_eq. now apply Map_keys_set_NoDup.
  - intros k Hk. rewrite Hmap, Map_get_delete_ne, Map_get_set_ne by congruence.
    reflexivity.
  - unfold store_getMessage in *. rewrite Hrows.
    rewrite !find_update_message, Hm
      by (intros [? ? ? [] ? ?]; reflexivity).
    simpl. rewrite !decide_True by reflexivity. reflexivity.
  - destruct m as [? ? ? [] ? ?]; reflexivity.
  - destruct m as [? ? ? [] ? ?]; reflexivity.
  - apply endBlocks_none_loading.
Qed.

Lemma end_closes_generation_witness :
  exists w',
    on_END test_env (lit "m1") streaming_world = (Ok tt, w')
    /\ Map_get (lit "m1") (generatingMessages w') = None
    /\ (msg_status <$> store_getMessage (lit "m1") w') = Some MsSent.
Proof.
  destruct (end_closes_generation test_env (lit "m1") streaming_world
              (fresh_state (lit "m1") [mkBlock TyContent (lit "par") StLoading 3 None])
              (assistant_message (lit "m1") MsPending []))
    as (w' & m' & Hrun & Hgone & _ & Hrow & Hstatus & _).
  - apply (bool_decide_unpack _). vm_compute. exact I.
  - reflexivity.
  - reflexivity.
  - exists w'. split; [exact Hrun | split; [exact Hgone |]].
    rewrite Hrow. simpl. now rewrite Hstatus.
Defined.

(** ** The error event, seen from outside *)

(** X2: a stream error removes the entry of the generation and keeps the
    others; the stored message gets the status error. Its stored content is
    made from the content the store held, not from the blocks streamed in
    memory: that content with its loading blocks marked as errors and one
    error block carrying the stringified error appended. *)
Theorem error_closes_generation env eventId error w state m :
  distinct_keys w ->
  Map_get eventId (generatingMessages w) = Some state ->
  store_getMessage eventId w = Some m ->
  let stored :=
    errorBlocks (String_ error) (w_now w)
      (default [] (JSON_parse env (msg_content m))) in
  exists w' m',
    on_ERROR env eventId error w = (Ok tt, w')
    /\ Map_get eventId (generatingMessages w') = None
    /\ (forall k, k <> eventId ->
          Map_get k (generatingMessages w') = Map_get k (generatingMessages w))
    /\ store_getMessage eventId w' = Some m'
    /\ msg_status m' = MsError
    /\ msg_content m' = msg_content (edit_content stored m)
    /\ last stored = Some (mkBlock TyError (String_ error) StError (w_now w) None)
    /\ none_loading stored.
Proof.
  intros Hkeys Hstate Hm stored.
  rewrite (on_ERROR_run env eventId error w state Hstate).
  rewrite handleMessageError_run, Hm. cbn [snd].
  eexists. eexists. split; [reflexivity |].
  cbn [with_generating with_messages generatingMessages w_messages].
  split; [| split; [| split; [| split; [| split; [| split]]]]].
  - now apply Map_get_delete_eq.
  - intros k Hk. now rewrite Map_get_delete_ne.
  - unfold store_getMessage in *.
    cbn [with_generating with_messages w_messages]. cbn beta.
    rewrite !find_update_message, Hm by (intros [? ? ? [] ? ?]; reflexivity).
    simpl. rewrite !decide_True by reflexivity. reflexivity.
  - destruct m as [? ? ? [] ? ?]; reflexivity.
  - destruct m as [? ? ? [] ? ?]; reflexivity.
  - unfold stored, errorBlocks. apply last_snoc.
  - apply errorBlocks_none_loading.
Qed.

Lemma error_closes_generation_witness :
  exists w',
    on_ERROR test_env (lit "m1") (Error (lit "boom")) streaming_world = (Ok tt, w')
    /\ Map_get (lit "m1") (generatingMessages w') = None
    /\ (msg_content <$> store_getMessage (lit "m1") w')
       = Some (AssistantContent
                 [mkBlock TyError (lit "Error: boom") StError 7 None]).
Proof.
  destruct (error_closes_generation test_env (lit "m1") (Error (lit "boom"))
              streaming_world
              (fresh_state (lit "m1") [mkBlock TyContent (lit "par") StLoading 3 None])
              (assistant_message (lit "m1") MsPending []))
    as (w' & m' & Hrun & Hgone & _ & Hrow & _ & Hcontent & _).
  - apply (bool_decide_unpack _). vm_compute. exact I.
  - reflexivity.
  - reflexivity.
  - exists w'. split; [exact Hrun | split; [exact Hgone |]].
    rewrite Hrow. simpl. now rewrite Hcontent.
Defined.


(** ** Events and calls for a generation that is not in flight *)

(** X3: a token, end or error event and a stop request for an id that has
    no entry in the map of generations change nothing. *)
Theorem unknown_generation_is_ignored env llm_stopStream msg error eventId w :
  Map_get eventId (generatingMessages w) = None ->
  rsp_eventId msg = eventId ->
  on_RESPONSE msg w = (Ok tt, w)
  /\ on_END env eventId w = (Ok tt, w)
  /\ on_ERROR env eventId error w = (Ok tt, w)
  /\ stopMessageGeneration llm_stopStream eventId w = (Ok tt, w).
Proof.
  intros Hnone Hid. repeat split.
  - unfold on_RESPONSE. mstep. now rewrite Hid, Hnone.
  - unfold on_END. mstep. now rewrite Hnone.
  - unfold on_ERROR. mstep. now rewrite Hnone.
  - unfold stopMessageGeneration. mstep. now rewrite Hnone.
Qed.

Lemma unknown_generation_is_ignored_witness :
  on_END test_env (lit "m2") streaming_world = (Ok tt, streaming_world)
  /\ on_ERROR test_env (lit "m2") (Error (lit "boom")) streaming_world
     = (Ok tt, streaming_world).
Proof.
  destruct (unknown_generation_is_ignored test_env (fun _ => Ok tt)
              (mkResponse (lit "m2") (Some (lit "a")) None) (Error (lit "boom"))
              (lit "m2") streaming_world)
    as (_ & Hend & Herror & _); [reflexivity | reflexivity |].
  split; [exact Hend | exact Herror].
Defined.

(** ** What a token event leaves alone *)

Lemma Map_keys_mutate {V} (f : V -> V) k (m : JsMap V) :
  map fst (Map_mutate f k m) = map fst m.
Proof.
  unfold Map_mutate. destruct (Map_get k m) eqn:E; [| reflexivity].
  apply Map_keys_set. eauto.
Qed.

Lemma Map_get_mutate {V} (f : V -> V) k k' (m : JsMap V) :
  Map_get k (Map_mutate f k' m)
  = if decide (k = k') then f <$> Map_get k m else Map_get k m.
Proof.
  unfold Map_mutate. destruct (decide (k = k')) as [-> | Hne].
  - destruct (Map_get k' m) eqn:E; simpl; [apply Map_get_set_eq | exact E].
  - destruct (Map_get k' m); [| reflexivity].
    apply Map_get_set_ne. congruence.
Qed.

Lemma row_core_patch id p rows :
  map row_core (update_message id (patch_msg_metadata p) rows) = map row_core rows.
Proof.
  unfold update_message. rewrite map_map. apply map_ext. intros m.
  case_decide; reflexivity.
Qed.

(** X4: a token event persists nothing but metadata: the id,
    conversation, parent, content and status of every stored message, the
    attachments, the conversations and the requested streams are as before,
    the map of generations keeps its keys, and the entries of other
    generations are untouched. *)
Theorem token_event_persists_only_metadata msg w :
  let w' := snd (on_RESPONSE msg w) in
  fst (on_RESPONSE msg w) = Ok tt
  /\ map row_core (w_messages w') = map row_core (w_messages w)
  /\ w_attachments w' = w_attachments w
  /\ w_conversations w' = w_conversations w
  /\ w_streams w' = w_streams w
  /\ map fst (generatingMessages w') = map fst (generatingMessages w)
  /\ (forall k, k <> rsp_eventId msg ->
        Map_get k (generatingMessages w') = Map_get k (generatingMessages w)).
Proof.
  cbv zeta. unfold on_RESPONSE. cbv zeta. mstep.
  destruct (Map_get (rsp_eventId msg) (generatingMessages w)) as [state |];
    [| repeat split].
  mstep.
  destruct (is_null (gs_firstTokenTime state)
            && (truthy_opt (rsp_content msg)
                || truthy_opt (rsp_reasoning_content msg)));
    destruct (truthy_opt (rsp_reasoning_content msg));
    destruct (is_null (gs_reasoningStartTime state));
    repeat mstep;
    cbn [fst snd mutate_state updateMessageMetadata modify with_messages
         with_generating w_messages w_attachments w_conversations w_streams
         generatingMessages];
    rewrite ?row_core_patch, ?Map_keys_mutate;
    (repeat split; try reflexivity);
    intros k Hk; rewrite ?Map_get_mutate, ?decide_False by exact Hk; reflexivity.
Qed.


(** ** The timers of a generation *)

(** X5: the time of the first token is recorded by the first token event
    that carries text and never overwritten; the start of the reasoning is
    recorded by the first event that carries reasoning text and never
    overwritten; the last reasoning time follows every such event. The
    start time and the prompt tokens are not touched, and the blocks are
    those of [responseBlocks]. *)
Theorem token_event_timers msg w state :
  Map_get (rsp_eventId msg) (generatingMessages w) = Some state ->
  let now := w_now w in
  let text := truthy_opt (rsp_content msg) in
  let reasoning := truthy_opt (rsp_reasoning_content msg) in
  exists state',
    Map_get (rsp_eventId msg) (generatingMessages (snd (on_RESPONSE msg w)))
    = Some state'
    /\ gs_firstTokenTime state'
       = match gs_firstTokenTime state with
         | Some t => Some t
         | None => if text || reasoning then Some now else None
         end
    /\ gs_reasoningStartTime state'
       = match gs_reasoningStartTime state with
         | Some t => Some t
         | None => if reasoning then Some now else None
         end
    /\ gs_lastReasoningTime state'
       = (if reasoning then Some now else gs_lastReasoningTime state)
    /\ gs_startTime state' = gs_startTime state
    /\ gs_promptTokens state' = gs_promptTokens state
    /\ blocks_of state' = responseBlocks msg now (blocks_of state).
Proof.
  intros Hstate now text reasoning. subst now text reasoning.
  unfold on_RESPONSE. cbv zeta. mstep. rewrite Hstate. mstep.
  destruct state as [message conv start [ft |] prompt [rs |] re lr];
    cbn [is_null gs_firstTokenTime gs_reasoningStartTime andb];
    destruct (truthy_opt (rsp_content msg));
    destruct (truthy_opt (rsp_reasoning_content msg));
    cbn [orb];
    repeat mstep;
    cbn [fst snd mutate_state updateMessageMetadata modify with_messages
         with_generating generatingMessages];
    rewrite ?Map_get_mutate, ?decide_True, Hstate by reflexivity;
    eexists; (split; [reflexivity |]); repeat split.
Qed.

Lemma token_event_timers_witness :
  exists state',
    Map_get (lit "m1")
      (generatingMessages
         (snd (on_RESPONSE (mkResponse (lit "m1") None (Some (lit "think")))
                 streaming_world)))
    = Some state'
    /\ gs_firstTokenTime state' = Some 7%Z
    /\ gs_reasoningStartTime state' = Some 7%Z.
Proof.
  destruct (token_event_timers (mkResponse (lit "m1") None (Some (lit "think")))
              streaming_world
              (fresh_state (lit "m1") [mkBlock TyContent (lit "par") StLoading 3 None])
              eq_refl)
    as (state' & Hget & Hfirst & Hstart & _).
  exists state'. split; [exact Hget | split; [exact Hfirst | exact Hstart]].
Defined.

(** ** A token event without text *)

Lemma Map_set_same {V} k v (m : JsMap V) :
  Map_get k m = Some v -> Map_set k v m = m.
Proof.
  induction m as [| [k0 v0] m IH]; simpl; [discriminate |].
  destruct (decide (k0 = k)) as [-> | Hne].
  - now intros [= ->].
  - intros H. now rewrite IH.
Qed.

Lemma set_blocks_same st : set_blocks (blocks_of st) st = st.
Proof. destruct st as [[? ?] ? ? ? ? ? ? ?]. reflexivity. Qed.

(** X6: a token event whose content and reasoning_content are both
    absent or empty changes nothing, whether or not its generation is in
    flight. *)
Theorem token_event_without_text msg w :
  truthy_opt (rsp_content msg) = false ->
  truthy_opt (rsp_reasoning_content msg) = false ->
  on_RESPONSE msg w = (Ok tt, w).
Proof.
  intros Hc Hr. unfold on_RESPONSE. cbv zeta. mstep.
  destruct (Map_get (rsp_eventId msg) (generatingMessages w)) as [state |] eqn:Hstate;
    [| reflexivity].
  mstep. rewrite Hc, Hr, andb_false_r. repeat mstep.
  unfold mutate_state, modify, responseBlocks. rewrite Hc, Hr. cbv zeta.
  f_equal. unfold with_generating.
  rewrite (Map_mutate_Some _ _ _ _ Hstate), set_blocks_same.
  rewrite (Map_set_same _ _ _ Hstate). now destruct w.
Qed.

Lemma token_event_without_text_witness :
  on_RESPONSE (mkResponse (lit "m1") (Some []) None) streaming_world
  = (Ok tt, streaming_world).
Proof.
  apply token_event_without_text; reflexivity.
Defined.


(** ** Sequences of token events *)

Lemma concat_nils {A B} (l : list A) : concat (map (fun _ => @nil B) l) = [].
Proof. induction l; [reflexivity | assumption]. Qed.

(** X7: after any sequence of token events the content blocks hold, in
    order, the text they held before followed by the content payloads, the
    reasoning_content blocks the text they held before followed by the
    reasoning payloads, and the text of the search and error blocks is as
    before: no payload ever reaches a block of another type. *)
Theorem token_text_kept_apart (evs : list (ResponseMsg * Z))
    (blocks : list AssistantMessageBlock) :
  text_of TyContent (responseRun evs blocks)
  = text_of TyContent blocks
    ++ concat (map (fun ev => payload (rsp_content (fst ev))) evs)
  /\ text_of TyReasoningContent (responseRun evs blocks)
     = text_of TyReasoningContent blocks
       ++ concat (map (fun ev => payload (rsp_reasoning_content (fst ev))) evs)
  /\ text_of TySearch (responseRun evs blocks) = text_of TySearch blocks
  /\ text_of TyError (responseRun evs blocks) = text_of TyError blocks.
Proof.
  repeat split; rewrite responseRun_text; cbn [streamed]; try reflexivity.
  - rewrite (map_ext _ (fun _ => @nil N)) by reflexivity.
    rewrite concat_nils. apply app_nil_r.
  - rewrite (map_ext _ (fun _ => @nil N)) by reflexivity.
    rewrite concat_nils. apply app_nil_r.
Qed.

(** X8: as long as every token event carries at most one payload, at most
    the final block is loading after any sequence of them. *)
Theorem single_payload_events_keep_one_loading (evs : list (ResponseMsg * Z))
    (blocks : list AssistantMessageBlock) :
  only_last_loading blocks ->
  (forall ev, In ev evs -> single_payload (fst ev)) ->
  only_last_loading (responseRun evs blocks).
Proof.
  revert blocks. induction evs as [| ev evs IH]; intros blocks Hinv Hsingle.
  - exact Hinv.
  - unfold responseRun in *. simpl. apply IH.
    + apply responseBlocks_only_last_loading; [exact Hinv |].
      left. apply (Hsingle ev). now left.
    + intros ev' Hin. apply Hsingle. now right.
Qed.

Lemma single_payload_events_keep_one_loading_witness :
  only_last_loading
    (responseRun
       [(mkResponse (lit "m1") None (Some (lit "think")), 1%Z);
        (mkResponse (lit "m1") (Some (lit "answer")) None, 2%Z);
        (mkResponse (lit "m1") (Some (lit " more")) None, 3%Z)]
       []).
Proof.
  apply single_payload_events_keep_one_loading.
  - apply only_last_loading_nil.
  - intros ev [<- | [<- | [<- | []]]]; reflexivity.
Defined.

(** ** Blocks are only extended *)

Lemma extends_refl b : extends b b.
Proof. repeat split. exists []. now rewrite app_nil_r. Qed.

Lemma extends_trans b1 b2 b3 : extends b1 b2 -> extends b2 b3 -> extends b1 b3.
Proof.
  intros (Ht & Hs & He & m1 & Hc) (Ht' & Hs' & He' & m2 & Hc').
  repeat split; try congruence.
  exists (m1 ++ m2). now rewrite Hc', Hc, app_assoc.
Qed.

Lemma alter_extends (f : AssistantMessageBlock -> AssistantMessageBlock)
    (j : nat) (blocks : list AssistantMessageBlock) (i : nat) b :
  (forall x, extends x (f x)) ->
  blocks !! i = Some b ->
  exists b', alter f j blocks !! i = Some b' /\ extends b b'.
Proof.
  intros Hf Hb. destruct (decide (j = i)) as [-> | Hne].
  - exists (f b). split; [| apply Hf].
    rewrite list_lookup_alter. rewrite decide_True; [now rewrite Hb | reflexivity].
  - exists b. split; [| apply extends_refl].
    now rewrite list_lookup_alter_ne.
Qed.

Lemma appendToken_extends ty text now lastBlock
    (blocks : list AssistantMessageBlock) (i : nat) b :
  blocks !! i = Some b ->
  exists b', appendToken ty text now lastBlock blocks !! i = Some b' /\ extends b b'.
Proof.
  intros Hb. unfold appendToken. cbv zeta.
  assert (Hsnoc : forall x, exists b', (blocks ++ [x]) !! i = Some b' /\ extends b b').
  { intros x. exists b. split; [| apply extends_refl].
    rewrite lookup_app_l; [exact Hb | now apply lookup_lt_Some in Hb]. }
  destruct lastBlock as [j |]; [| apply Hsnoc].
  destruct (blocks !! j) as [bj |]; [| apply Hsnoc].
  case_decide.
  - apply alter_extends; [| exact Hb].
    intros x. repeat split. now exists text.
  - destruct (alter_extends (set_status StSuccess) j blocks i b) as (b' & Hb' & Hext);
      [intros x; apply extends_refl || (repeat split; exists []; now rewrite app_nil_r)
      | exact Hb |].
    exists b'. split; [| exact Hext].
    rewrite lookup_app_l; [exact Hb' | now apply lookup_lt_Some in Hb'].
Qed.

(** X9: a token event never removes, moves or retypes a block: every
    block is still at its index, with its type, timestamp and extra, and
    with content that starts with the content it had. *)
Theorem token_event_extends_blocks msg now
    (blocks : list AssistantMessageBlock) (i : nat) b :
  blocks !! i = Some b ->
  exists b', responseBlocks msg now blocks !! i = Some b' /\ extends b b'.
Proof.
  intros Hb. unfold responseBlocks. cbv zeta.
  destruct (truthy_opt (rsp_content msg)), (truthy_opt (rsp_reasoning_content msg)).
  - destruct (appendToken_extends TyContent (payload (rsp_content msg)) now
                (lastBlockIndex blocks) blocks i b Hb) as (b1 & Hb1 & Hext1).
    destruct (appendToken_extends TyReasoningContent
                (payload (rsp_reasoning_content msg)) now
                (lastBlockIndex blocks) _ i b1 Hb1) as (b2 & Hb2 & Hext2).
    exists b2. split; [exact Hb2 | now apply (extends_trans b b1 b2)].
  - now apply appendToken_extends.
  - now apply appendToken_extends.
  - exists b. split; [exact Hb | apply extends_refl].
Qed.

Lemma token_event_extends_blocks_witness :
  exists b',
    responseBlocks (mkResponse (lit "m1") (Some (lit "t")) None) 9
      [mkBlock TyContent (lit "par") StLoading 3 None] !! 0 = Some b'
    /\ extends (mkBlock TyContent (lit "par") StLoading 3 None) b'.
Proof.
  apply token_event_extends_blocks. reflexivity.
Defined.

(** ** Cancellation *)

Lemma Map_delete_set {V} k v (m : JsMap V) :
  Map_delete k (Map_set k v m) = Map_delete k m.
Proof.
  induction m as [| [k0 v0] m IH]; simpl.
  - now rewrite decide_True.
  - destruct (decide (k0 = k)) as [-> | Hne]; simpl.
    + now rewrite decide_True.
    + rewrite decide_False by assumption. now rewrite IH.
Qed.

Lemma Map_delete_absent {V} k (m : JsMap V) :
  Map_get k m = None -> Map_delete k m = m.
Proof.
  induction m as [| [k0 v0] m IH]; simpl; [reflexivity |].
  destruct (decide (k0 = k)); [discriminate |].
  intros H. now rewrite IH.
Qed.

Lemma Map_delete_filter {V} k (m : JsMap V) :
  NoDup (map fst m) ->
  Map_delete k m = List.filter (fun e => negb (bool_decide (fst e = k))) m.
Proof.
  induction m as [| [k0 v0] m IH]; simpl; [reflexivity |].
  intros Hnd. apply NoDup_cons in Hnd as [Hnotin Hnd].
  destruct (decide (k0 = k)) as [-> | Hne].
  - rewrite bool_decide_eq_true_2 by reflexivity. simpl.
    rewrite <- IH by assumption. symmetry. apply Map_delete_absent.
    now apply Map_get_None_keys.
  - rewrite bool_decide_eq_false_2 by assumption. simpl. now rewrite IH.
Qed.

Lemma Map_get_filter {V} (q : jsstring -> bool) k (m : JsMap V) :
  Map_get k (List.filter (fun e => q (fst e)) m)
  = if q k then Map_get k m else None.
Proof.
  induction m as [| [k0 v0] m IH]; simpl; [now destruct (q k) |].
  destruct (q k0) eqn:Hq0; simpl.
  - destruct (decide (k0 = k)) as [-> | Hne]; [now rewrite Hq0 | exact IH].
  - rewrite IH. destruct (decide (k0 = k)) as [-> | Hne]; [now rewrite Hq0 | reflexivity].
Qed.

Lemma filter_filter {A} (p q : A -> bool) (l : list A) :
  List.filter p (List.filter q l) = List.filter (fun x => q x && p x) l.
Proof.
  induction l as [| x l IH]; simpl; [reflexivity |].
  destruct (q x); simpl; [destruct (p x) |]; now rewrite IH.
Qed.

Lemma NoDup_keys_filter {V} (p : jsstring * V -> bool) (m : JsMap V) :
  NoDup (map fst m) -> NoDup (map fst (List.filter p m)).
Proof.
  induction m as [| e m IH]; simpl; [auto |].
  intros Hnd. apply NoDup_cons in Hnd as [Hnotin Hnd].
  destruct (p e); simpl; [| now apply IH].
  apply NoDup_cons. split; [| now apply IH].
  intros Hin. apply Hnotin.
  rewrite list_elem_of_In in *. apply in_map_iff in Hin as (e' & He' & Hin).
  apply filter_In in Hin as [Hin _]. apply in_map_iff. now exists e'.
Qed.

Lemma Map_get_In {V} k v (m : JsMap V) :
  NoDup (map fst m) -> (In (k, v) m <-> Map_get k m = Some v).
Proof.
  induction m as [| [k0 v0] m IH]; simpl; [intros _; split; [tauto | discriminate] |].
  intros Hnd. apply NoDup_cons in Hnd as [Hnotin Hnd].
  destruct (decide (k0 = k)) as [-> | Hne].
  - split.
    + intros [E | Hin]; [congruence |].
      exfalso. apply Hnotin. rewrite list_elem_of_In. apply in_map_iff.
      now exists (k, v).
    + intros E. left. congruence.
  - rewrite <- IH by assumption. split; [intros [E | Hin] | auto]; congruence.
Qed.

(** What stopMessageGeneration does to a generation that is in the map:
    the store gets the status and the block list before the stream is
    stopped, the entry is deleted after it. *)
Lemma stopMessageGeneration_run llm_stopStream messageId w state :
  Map_get messageId (generatingMessages w) = Some state ->
  stopMessageGeneration llm_stopStream messageId w
  = let blocks := stopBlocks (w_now w) (blocks_of state) in
    let w1 :=
      with_messages (update_message messageId (edit_content blocks))
        (with_messages (update_message messageId (set_msg_status MsError))
           (with_generating (Map_set messageId (set_blocks blocks state)) w)) in
    match llm_stopStream messageId with
    | Ok _ => (Ok tt, with_generating (Map_delete messageId) w1)
    | Throw e => (Throw e, w1)
    end.
Proof.
  intros Hstate. unfold stopMessageGeneration. mstep. rewrite Hstate.
  mstep. mstep. mstep. mstep. mstep.
  unfold mbind, M_bind, await, modify, with_generating, with_messages.
  cbn [generatingMessages w_messages w_conversations w_attachments
       searchAssistantModel searchAssistantProviderId w_now w_streams snd].
  rewrite (Map_mutate_Some _ _ _ _ Hstate), Map_get_set_eq.
  destruct (llm_stopStream messageId) as [[] | e]; reflexivity.
Qed.

(** X10: stopping a generation marks the stored message as an error whose
    blocks are the streamed ones, none of them loading, followed by the
    block of the user's cancellation; the entry leaves the map and the other
    entries stay. *)
Theorem stop_closes_generation llm_stopStream messageId w state m :
  distinct_keys w ->
  Map_get messageId (generatingMessages w) = Some state ->
  store_getMessage messageId w = Some m ->
  llm_stopStream messageId = Ok tt ->
  let stored := stopBlocks (w_now w) (blocks_of state) in
  exists w' m',
    stopMessageGeneration llm_stopStream messageId w = (Ok tt, w')
    /\ Map_get messageId (generatingMessages w') = None
    /\ (forall k, k <> messageId ->
          Map_get k (generatingMessages w') = Map_get k (generatingMessages w))
    /\ store_getMessage messageId w' = Some m'
    /\ msg_status m' = MsError
    /\ msg_content m' = msg_content (edit_content stored m)
    /\ last stored
       = Some (mkBlock TyError (lit "common.error.userCanceledGeneration")
                 StCancel (w_now w) None)
    /\ none_loading stored.
Proof.
  intros Hkeys Hstate Hm Hstop stored.
  rewrite (stopMessageGeneration_run _ _ _ _ Hstate), Hstop. cbv zeta.
  eexists. eexists. split; [reflexivity |].
  cbn [with_generating with_messages generatingMessages w_messages].
  split; [| split; [| split; [| split; [| split; [| split]]]]].
  - apply Map_get_delete_eq. now apply Map_keys_set_NoDup.
  - intros k Hk. rewrite Map_get_delete_ne, Map_get_set_ne by congruence.
    reflexivity.
  - unfold store_getMessage in *.
    cbn [with_generating with_messages w_messages]. cbn beta.
    rewrite !find_update_message, Hm by (intros [? ? ? [] ? ?]; reflexivity).
    simpl. rewrite !decide_True by reflexivity. reflexivity.
  - destruct m as [? ? ? [] ? ?]; reflexivity.
  - destruct m as [? ? ? [] ? ?]; reflexivity.
  - unfold stored, stopBlocks. apply last_snoc.
  - apply stopBlocks_none_loading.
Qed.

Lemma stop_closes_generation_witness :
  exists w',
    stopMessageGeneration (fun _ => Ok tt) (lit "m1") streaming_world = (Ok tt, w')
    /\ Map_get (lit "m1") (generatingMessages w') = None
    /\ (msg_content <$> store_getMessage (lit "m1") w')
       = Some (AssistantContent
                 [mkBlock TyContent (lit "par") StSuccess 3 None;
                  mkBlock TyError (lit "common.error.userCanceledGeneration")
                    StCancel 7 None]).
Proof.
  destruct (stop_closes_generation (fun _ => Ok tt) (lit "m1") streaming_world
              (fresh_state (lit "m1") [mkBlock TyContent (lit "par") StLoading 3 None])
              (assistant_message (lit "m1") MsPending []))
    as (w' & m' & Hrun & Hgone & _ & Hrow & _ & Hcontent & _).
  - apply (bool_decide_unpack _). vm_compute. exact I.
  - reflexivity.
  - reflexivity.
  - reflexivity.
  - exists w'. split; [exact Hrun | split; [exact Hgone |]].
    rewrite Hrow. simpl. now rewrite Hcontent.
Defined.

(** X11: when the provider rejects the request to stop the stream, the
    rejection reaches the caller; the stored message is already marked as a
    cancelled error, but the entry stays in the map of in-flight
    generations, with the cancelled block list. *)
Theorem stop_rejected_keeps_entry llm_stopStream messageId w state m e :
  Map_get messageId (generatingMessages w) = Some state ->
  store_getMessage messageId w = Some m ->
  llm_stopStream messageId = Throw e ->
  let stored := stopBlocks (w_now w) (blocks_of state) in
  exists w' m',
    stopMessageGeneration llm_stopStream messageId w = (Throw e, w')
    /\ Map_get messageId (generatingMessages w') = Some (set_blocks stored state)
    /\ store_getMessage messageId w' = Some m'
    /\ msg_status m' = MsError
    /\ msg_content m' = msg_content (edit_content stored m).
Proof.
  intros Hstate Hm Hstop stored.
  rewrite (stopMessageGeneration_run _ _ _ _ Hstate), Hstop. cbv zeta.
  eexists. eexists. split; [reflexivity |].
  cbn [with_generating with_messages generatingMessages w_messages].
  split; [| split; [| split]].
  - apply Map_get_set_eq.
  - unfold store_getMessage in *.
    cbn [with_generating with_messages w_messages]. cbn beta.
    rewrite !find_update_message, Hm by (intros [? ? ? [] ? ?]; reflexivity).
    simpl. rewrite !decide_True by reflexivity. reflexivity.
  - destruct m as [? ? ? [] ? ?]; reflexivity.
  - destruct m as [? ? ? [] ? ?]; reflexivity.
Qed.

Lemma stop_rejected_keeps_entry_witness :
  exists w',
    stopMessageGeneration (fun _ => Throw (Rejected (lit "offline")))
      (lit "m1") streaming_world
    = (Throw (Rejected (lit "offline")), w')
    /\ is_Some (Map_get (lit "m1") (generatingMessages w'))
    /\ (msg_status <$> store_getMessage (lit "m1") w') = Some MsError.
Proof.
  destruct (stop_rejected_keeps_entry (fun _ => Throw (Rejected (lit "offline")))
              (lit "m1") streaming_world
              (fresh_state (lit "m1") [mkBlock TyContent (lit "par") StLoading 3 None])
              (assistant_message (lit "m1") MsPending [])
              (Rejected (lit "offline")))
    as (w' & m' & Hrun & Hentry & Hrow & Hstatus & _).
  - reflexivity.
  - reflexivity.
  - reflexivity.
  - exists w'. split; [exact Hrun | split; [now rewrite Hentry |]].
    rewrite Hrow. simpl. now rewrite Hstatus.
Defined.

(** What one call of stopMessageGeneration leaves, whether the generation
    is in the map or not, when the provider stops the stream. *)
Lemma stopMessageGeneration_step llm_stopStream x w :
  distinct_keys w ->
  llm_stopStream x = Ok tt ->
  exists w1,
    stopMessageGeneration llm_stopStream x w = (Ok tt, w1)
    /\ generatingMessages w1
       = List.filter (fun e => negb (bool_decide (fst e = x))) (generatingMessages w)
    /\ w_now w1 = w_now w
    /\ (forall k, k <> x \/ Map_get x (generatingMessages w) = None ->
          store_getMessage k w1 = store_getMessage k w)
    /\ (forall state, Map_get x (generatingMessages w) = Some state ->
          store_getMessage x w1
          = (fun m => edit_content (stopBlocks (w_now w) (blocks_of state))
                        (set_msg_status MsError m))
              <$> store_getMessage x w).
Proof.
  intros Hkeys Hstop.
  destruct (Map_get x (generatingMessages w)) as [state |] eqn:Hstate.
  - rewrite (stopMessageGeneration_run _ _ _ _ Hstate), Hstop. cbv zeta.
    eexists. split; [reflexivity |].
    cbn [with_generating with_messages generatingMessages w_messages w_now].
    split; [| split; [reflexivity | split]].
    + rewrite Map_delete_set. now apply Map_delete_filter.
    + intros k [Hk | Hk]; [| discriminate].
      unfold store_getMessage.
      cbn [with_generating with_messages w_messages]. cbn beta.
      rewrite !find_update_message by (intros [? ? ? [] ? ?]; reflexivity).
      destruct (find _ (w_messages w)); [| reflexivity].
      simpl. now rewrite !decide_False by assumption.
    + intros state' [= <-]. unfold store_getMessage.
      cbn [with_generating with_messages w_messages]. cbn beta.
      rewrite !find_update_message by (intros [? ? ? [] ? ?]; reflexivity).
      destruct (find _ (w_messages w)); [| reflexivity].
      simpl. now rewrite !decide_True by reflexivity.
  - exists w. unfold stopMessageGeneration. mstep. rewrite Hstate.
    split; [reflexivity |].
    split; [| split; [reflexivity | split; [reflexivity | discriminate]]].
    rewrite <- (Map_delete_filter x) by exact Hkeys.
    symmetry. now apply Map_delete_absent.
Qed.

Lemma promiseAll_cons {A} (x : A) rest (body : A -> M unit) w w1 w2 :
  body x w = (Ok tt, w1) ->
  promiseAll rest body w1 = (Ok tt, w2) ->
  promiseAll (x :: rest) body w = (Ok tt, w2).
Proof. intros H1 H2. simpl. now rewrite H1, H2. Qed.

Lemma promiseAll_stop llm_stopStream ids :
  (forall id, llm_stopStream id = Ok tt) ->
  forall w, distinct_keys w ->
  exists w',
    promiseAll ids (stopMessageGeneration llm_stopStream) w = (Ok tt, w')
    /\ generatingMessages w'
       = List.filter (fun e => negb (bool_decide (fst e ∈ ids)))
           (generatingMessages w)
    /\ (forall k, k ∉ ids \/ Map_get k (generatingMessages w) = None ->
          store_getMessage k w' = store_getMessage k w)
    /\ (forall k state, k ∈ ids -> Map_get k (generatingMessages w) = Some state ->
          store_getMessage k w'
          = (fun m => edit_content (stopBlocks (w_now w) (blocks_of state))
                        (set_msg_status MsError m))
              <$> store_getMessage k w).
Proof.
  intros Hstop. induction ids as [| x rest IH]; intros w Hkeys.
  - exists w. split; [reflexivity |]. split; [| split].
    + symmetry. rewrite <- (filter_ext (fun _ => true)).
      * induction (generatingMessages w) as [| e l IHl]; simpl; congruence.
      * intros e. rewrite bool_decide_eq_false_2; [reflexivity | apply not_elem_of_nil].
    + reflexivity.
    + intros k state Hk. now apply not_elem_of_nil in Hk.
  - destruct (stopMessageGeneration_step llm_stopStream x w Hkeys (Hstop x))
      as (w1 & Hrun1 & Hmap1 & Hnow1 & Hother1 & Hrow1).
    assert (Hkeys1 : distinct_keys w1).
    { unfold distinct_keys. rewrite Hmap1. now apply NoDup_keys_filter. }
    destruct (IH w1 Hkeys1) as (w' & Hrun & Hmap & Hother & Hrow).
    assert (Hget1 : forall k, k <> x ->
              Map_get k (generatingMessages w1) = Map_get k (generatingMessages w)).
    { intros k Hk. rewrite Hmap1.
      pose proof (Map_get_filter (fun k' => negb (bool_decide (k' = x))) k
                    (generatingMessages w)) as Hf.
      cbn beta in Hf. rewrite Hf. now rewrite bool_decide_eq_false_2. }
    assert (Hgone1 : Map_get x (generatingMessages w1) = None).
    { rewrite Hmap1.
      pose proof (Map_get_filter (fun k' => negb (bool_decide (k' = x))) x
                    (generatingMessages w)) as Hf.
      cbn beta in Hf. rewrite Hf. now rewrite bool_decide_eq_true_2. }
    exists w'. split; [exact (promiseAll_cons _ _ _ _ _ _ Hrun1 Hrun) |].
    split; [| split].
    + rewrite Hmap, Hmap1, filter_filter. apply filter_ext. intros [k v]. simpl.
      destruct (decide (k = x)) as [-> | Hne].
      * rewrite bool_decide_eq_true_2 by reflexivity.
        rewrite (bool_decide_eq_true_2 (x ∈ x :: rest)) by apply list_elem_of_here.
        reflexivity.
      * rewrite bool_decide_eq_false_2 by assumption. simpl.
        f_equal. apply bool_decide_ext. rewrite elem_of_cons. tauto.
    + intros k Hk. destruct (decide (k = x)) as [-> | Hne].
      * rewrite Hother by (right; exact Hgone1).
        apply Hother1. destruct Hk as [Hk | Hk]; [| now right].
        exfalso. apply Hk, list_elem_of_here.
      * rewrite Hother, Hother1; [reflexivity | now left |].
        destruct Hk as [Hk | Hk].
        -- left. intros Hin. apply Hk. now apply list_elem_of_further.
        -- right. now rewrite Hget1.
    + intros k state Hk Hstate. destruct (decide (k = x)) as [-> | Hne].
      * rewrite Hother by (right; exact Hgone1). now apply Hrow1.
      * apply elem_of_cons in Hk as [Hk | Hk]; [contradiction |].
        rewrite (Hrow k state Hk) by (now rewrite Hget1).
        rewrite Hnow1, Hother1 by (now left). reflexivity.
Qed.

(** X12: stopping a conversation, with a provider that stops every stream,
    leaves in the map exactly the generations of the other conversations,
    in their order; no generation of the conversation is left, and each of
    them has its stored message marked as an error that holds the streamed
    blocks followed by the block of the user's cancellation. *)
Theorem stop_conversation_closes_its_generations llm_stopStream conversationId w :
  distinct_keys w ->
  (forall id, llm_stopStream id = Ok tt) ->
  exists w',
    stopConversationGeneration llm_stopStream conversationId w = (Ok tt, w')
    /\ generatingMessages w'
       = List.filter
           (fun entry =>
              negb (bool_decide (gs_conversationId (snd entry) = conversationId)))
           (generatingMessages w)
    /\ getConversationGeneratingMessages conversationId w' = []
    /\ (forall k state m,
          Map_get k (generatingMessages w) = Some state ->
          gs_conversationId state = conversationId ->
          store_getMessage k w = Some m ->
          store_getMessage k w'
          = Some (edit_content (stopBlocks (w_now w) (blocks_of state))
                    (set_msg_status MsError m))).
Proof.
  intros Hkeys Hstop. unfold stopConversationGeneration. mstep.
  set (ids := map fst _).
  destruct (promiseAll_stop llm_stopStream ids Hstop w Hkeys)
    as (w' & Hrun & Hmap & _ & Hrow).
  assert (Hids : forall k state, Map_get k (generatingMessages w) = Some state ->
            (k ∈ ids <-> gs_conversationId state = conversationId)).
  { intros k state Hstate. unfold ids. rewrite list_elem_of_In, in_map_iff. split.
    - intros ([k' state'] & Hk & Hin). simpl in Hk. subst k'.
      apply filter_In in Hin as [Hin Hconv]. simpl in Hconv.
      apply bool_decide_eq_true in Hconv.
      apply (Map_get_In _ _ _ Hkeys) in Hin. congruence.
    - intros Hconv. exists (k, state). split; [reflexivity |].
      apply filter_In. split; [now apply (Map_get_In _ _ _ Hkeys) |].
      simpl. now apply bool_decide_eq_true. }
  assert (Hmap' : generatingMessages w'
                  = List.filter
                      (fun entry =>
                         negb (bool_decide
                                 (gs_conversationId (snd entry) = conversationId)))
                      (generatingMessages w)).
  { rewrite Hmap. apply filter_ext_in. intros [k state] Hin. simpl.
    apply (Map_get_In _ _ _ Hkeys) in Hin. f_equal.
    apply bool_decide_ext. now apply Hids. }
  exists w'. split; [exact Hrun |]. split; [exact Hmap' |]. split.
  - unfold getConversationGeneratingMessages, Map_values. rewrite Hmap'.
    clear. induction (generatingMessages w) as [| [k state] l IH]; [reflexivity |].
    simpl. destruct (bool_decide (gs_conversationId state = conversationId)) eqn:E;
      simpl; [exact IH |]. now rewrite E.
  - intros k state m Hstate Hconv Hm.
    rewrite (Hrow k state) by (first [now apply (Hids k state) | assumption]).
    now rewrite Hm.
Qed.

Lemma stop_conversation_closes_its_generations_witness :
  exists w',
    stopConversationGeneration (fun _ => Ok tt) (lit "c1") streaming_world
    = (Ok tt, w')
    /\ generatingMessages w' = []
    /\ getConversationGeneratingMessages (lit "c1") w' = [].
Proof.
  destruct (stop_conversation_closes_its_generations (fun _ => Ok tt) (lit "c1")
              streaming_world)
    as (w' & Hrun & Hmap & Hnone & _).
  - apply (bool_decide_unpack _). vm_compute. exact I.
  - reflexivity.
  - exists w'. split; [exact Hrun |]. split; [| exact Hnone].
    rewrite Hmap. reflexivity.
Defined.

(** ** The merge pass, seen from outside *)

Lemma join_cons sep a l :
  join sep (a :: l)
  = a ++ match l with [] => [] | _ => sep ++ join sep l end.
Proof. destruct l; simpl; [now rewrite app_nil_r | reflexivity]. Qed.

Lemma merged_from_facts l x :
  join newline (map chat_content (fold_left mergeStep l [x]))
  = join newline (map chat_content (x :: l))
  /\ chat_role <$> last (fold_left mergeStep l [x]) = chat_role <$> last (x :: l).
Proof.
  revert x. induction l as [| m l IH]; intros x; [split; reflexivity |].
  rewrite fold_mergeStep_cons. case_decide as Hrole.
  - destruct (IH (merge_into m x)) as [Htext Hlast]. split.
    + rewrite Htext. cbn [map]. rewrite !join_cons. cbn [merge_into chat_content].
      destruct l; simpl; rewrite <- ?app_assoc; reflexivity.
    + rewrite Hlast. destruct l; [simpl; congruence | reflexivity].
  - destruct (IH m) as [Htext Hlast].
    destruct (merged_is_fixed l m) as (y & r & Hy & _ & _).
    rewrite Hy in *. split.
    + cbn [map] in *. rewrite (join_cons _ (chat_content x)).
      rewrite Htext. reflexivity.
    + exact Hlast.
Qed.

(** X13: the merge pass changes no text and no role: the contents of the
    merged entries, joined by newlines, are the contents of the entries
    joined by newlines; the merged list starts and ends with the roles the
    list started and ended with, and no two neighbours of it have the same
    role. *)
Theorem merge_keeps_text_and_roles (formattedMessages : list ChatMessage) :
  join newline (map chat_content (mergeMessages formattedMessages))
  = join newline (map chat_content formattedMessages)
  /\ chat_role <$> head (mergeMessages formattedMessages)
     = chat_role <$> head formattedMessages
  /\ chat_role <$> last (mergeMessages formattedMessages)
     = chat_role <$> last formattedMessages
  /\ alternating (mergeMessages formattedMessages).
Proof.
  split; [| split; [| split; [| apply mergeMessages_alternating]]];
    unfold mergeMessages; destruct formattedMessages as [| m l]; try reflexivity;
    change (fold_left mergeStep (m :: l) []) with (fold_left mergeStep l [m]).
  - apply merged_from_facts.
  - destruct (merged_is_fixed l m) as (y & r & Hy & Hr & _).
    rewrite Hy. simpl. now rewrite Hr.
  - apply merged_from_facts.
Qed.

(** ** The request sent to the provider *)



Section Streams.
Variable s : list StreamRequest.





End Streams.

Lemma conversationSettings_missing conversationId w :
  store_getConversation conversationId w = None ->
  conversationSettings conversationId w = (Throw undefined_access, w).
Proof. intros H. unfold conversationSettings. mstep. now rewrite H. Qed.




(** X15: a generation whose conversation is not in the store makes
    startStreamCompletion throw before the [try] block is entered: nothing
    is written, so the message is not finalised as an error and the
    generation stays in the map. *)
Theorem completion_without_conversation env conversationId queryMsgId w state :
  find (fun state => bool_decide (gs_conversationId state = conversationId))
    (Map_values (generatingMessages w)) = Some state ->
  store_getConversation conversationId w = None ->
  exists e, startStreamCompletion env conversationId queryMsgId w = (Throw e, w).
Proof.
  intros Hstate Hconv. unfold startStreamCompletion. mstep. rewrite Hstate.
  erewrite bind_throw by (apply conversationSettings_missing; exact Hconv).
  eexists. reflexivity.
Qed.

Lemma completion_without_conversation_witness :
  exists e,
    startStreamCompletion test_env (lit "c1") None
      (mkWorld [] [assistant_message (lit "m1") MsPending []] []
         [(lit "m1", fresh_state (lit "m1") [])] None None 7 [])
    = (Throw e,
       mkWorld [] [assistant_message (lit "m1") MsPending []] []
         [(lit "m1", fresh_state (lit "m1") [])] None None 7 []).
Proof.
  apply (completion_without_conversation test_env (lit "c1") None _
           (fresh_state (lit "m1") [])); reflexivity.
Defined.

(** ** More on the history selection *)

Section SelectionMore.
Variable env : Collaborators.

Lemma selectLoop_monotone remaining remaining' messages currentLength selected :
  (remaining <= remaining')%Z ->
  exists more,
    selectLoop env remaining' messages currentLength selected
    = more ++ selectLoop env remaining messages currentLength selected.
Proof.
  intros Hle. revert currentLength selected.
  induction messages as [| msg messages IH]; intros currentLength selected.
  - now exists [].
  - simpl.
    destruct (Z.leb_spec (currentLength + messageTokens env msg) remaining)
      as [Hfits | Hover].
    + rewrite (proj2 (Z.leb_le _ _)) by lia. apply IH.
    + destruct (Z.leb_spec (currentLength + messageTokens env msg) remaining');
        [| now exists []].
      destruct (selectLoop_prefix env remaining' messages
                  (currentLength + messageTokens env msg) (msg :: selected))
        as (taken & rest & _ & -> & _).
      exists (reverse taken ++ [msg]). now rewrite <- app_assoc.
Qed.

Lemma tokensOf_nonneg l :
  (forall m, In m l -> (0 <= messageTokens env m)%Z) -> (0 <= tokensOf env l)%Z.
Proof.
  induction l as [| m l IH]; intros Hl; unfold tokensOf in *; simpl; [lia |].
  specialize (Hl m (or_introl eq_refl)) as Hm.
  assert (0 <= foldr (fun msg acc => (messageTokens env msg + acc)%Z) 0%Z l)%Z
    by (apply IH; intros m' Hm'; apply Hl; now right).
  lia.
Qed.

(** X16: a larger budget never drops a message: the messages selected
    under one budget are a suffix of those selected under any budget that
    is at least as large. *)
Theorem selection_grows_with_budget
    (contextLength reservedTokens contextLength' reservedTokens' : Z)
    (userMessageId : jsstring) (contextMessages : list Message) :
  (contextLength - reservedTokens <= contextLength' - reservedTokens')%Z ->
  exists more,
    selectHistory env contextLength' reservedTokens' userMessageId contextMessages
    = more
      ++ selectHistory env contextLength reservedTokens userMessageId contextMessages.
Proof.
  intros Hle. unfold selectHistory.
  destruct (Z.gtb_spec (contextLength - reservedTokens) 0) as [Hpos | Hnone].
  - destruct (Z.gtb_spec (contextLength' - reservedTokens') 0); [| lia].
    now apply selectLoop_monotone.
  - eexists. now rewrite app_nil_r.
Qed.

(** X17: when no message has a negative size and the whole history fits
    the budget that is left, the whole history is selected, in its order. *)
Theorem history_that_fits_is_kept (contextLength reservedTokens : Z)
    (userMessageId : jsstring) (contextMessages : list Message) :
  (0 < contextLength - reservedTokens)%Z ->
  (forall m, In m contextMessages -> (0 <= messageTokens env m)%Z) ->
  (tokensOf env (historyOf userMessageId contextMessages)
   <= contextLength - reservedTokens)%Z ->
  selectHistory env contextLength reservedTokens userMessageId contextMessages
  = historyOf userMessageId contextMessages.
Proof.
  intros Hpos Hnonneg Hfits. unfold selectHistory.
  fold (historyOf userMessageId contextMessages).
  destruct (Z.gtb_spec (contextLength - reservedTokens) 0) as [_ | Hle]; [| lia].
  destruct (selectLoop_prefix env (contextLength - reservedTokens)
              (reverse (historyOf userMessageId contextMessages)) 0 [])
    as (taken & rest & Hsplit & Hsel & _ & Hnext).
  rewrite Hsel, app_nil_r.
  destruct rest as [| next rest].
  - rewrite app_nil_r in Hsplit. rewrite <- Hsplit. apply reverse_involutive.
  - exfalso. specialize (Hnext next eq_refl).
    rewrite <- (tokensOf_reverse env (historyOf _ _)), Hsplit in Hfits.
    rewrite tokensOf_app in Hfits.
    assert (0 <= tokensOf env rest)%Z.
    { apply tokensOf_nonneg. intros m Hm. apply Hnonneg.
      assert (Hin : In m (reverse (historyOf userMessageId contextMessages))).
      { rewrite Hsplit. apply in_or_app. right. now right. }
      rewrite <- list_elem_of_In, elem_of_reverse, list_elem_of_In in Hin.
      unfold historyOf in Hin. now apply filter_In in Hin as [Hin _]. }
    change (tokensOf env (next :: rest))
      with (messageTokens env next + tokensOf env rest)%Z in Hfits.
    lia.
Qed.
End SelectionMore.

Lemma history_that_fits_is_kept_witness :
  selectHistory env400 1000 100 (lit "u9")
    [user_message (lit "u2") (lit "hello") false;
     user_message (lit "u9") (lit "now") false;
     assistant_message (lit "a3") MsSent []]
  = [user_message (lit "u2") (lit "hello") false;
     assistant_message (lit "a3") MsSent []].
Proof.
  apply (history_that_fits_is_kept env400 1000 100 (lit "u9")).
  - lia.
  - intros m _. vm_compute. discriminate.
  - vm_compute. discriminate.
Defined.

Lemma selection_grows_with_budget_witness :
  exists more,
    selectHistory env400 1000 100 (lit "u9")
      [assistant_message (lit "a1") MsSent [];
       user_message (lit "u2") (lit "hello") false;
       assistant_message (lit "a3") MsSent []]
    = more
      ++ selectHistory env400 600 100 (lit "u9")
           [assistant_message (lit "a1") MsSent [];
            user_message (lit "u2") (lit "hello") false;
            assistant_message (lit "a3") MsSent []].
Proof.
  apply (selection_grows_with_budget env400 600 100 1000 100). lia.
Defined.

(** ** The context asked of the message manager *)

(** X18: for a conversation of the store, getContextMessages asks the
    message manager for the least number of messages that is at least 2 and
    whose 300-fold is at least the context length, and changes nothing. *)
Theorem context_message_count env conversationId conversation w :
  store_getConversation conversationId w = Some conversation ->
  exists n,
    getContextMessages env conversationId w
    = (Ok (messageManager_getContextMessages env (w_messages w) conversationId n), w)
    /\ (2 <= n)%Z
    /\ (contextLength (conv_settings conversation) <= 300 * n)%Z
    /\ (forall k, (2 <= k)%Z ->
          (contextLength (conv_settings conversation) <= 300 * k)%Z -> (n <= k)%Z).
Proof.
  intros Hconv. unfold getContextMessages.
  erewrite bind_ok by (apply conversationSettings_run; exact Hconv).
  eexists. split; [reflexivity |].
  set (c := contextLength (conv_settings conversation)).
  assert (Hceil : (c <= 300 * - (- c / 300) < c + 300)%Z).
  { pose proof (Z.div_mod (- c) 300 ltac:(lia)).
    pose proof (Z.mod_pos_bound (- c) 300 ltac:(lia)). lia. }
  destruct (Z.ltb_spec (- (- c / 300)) 2);
    (split; [lia | split; [lia | intros k Hk Hck; lia]]).
Qed.

Lemma context_message_count_witness :
  exists n,
    getContextMessages test_env (lit "c1") streaming_world
    = (Ok (messageManager_getContextMessages test_env (w_messages streaming_world)
             (lit "c1") n), streaming_world)
    /\ (2 <= n)%Z
    /\ (1000 <= 300 * n)%Z
    /\ (forall k, (2 <= k)%Z -> (1000 <= 300 * k)%Z -> (n <= k)%Z).
Proof.
  exact (context_message_count test_env (lit "c1")
           (mkConversation (lit "c1") (lit "chat") test_settings)
           streaming_world eq_refl).
Defined.

(** ** The rewritten search query *)

(** X19: the query rewrite never throws and writes nothing. What it
    returns is the query it was given, or else the trimmed completion of the
    provider, which then is not empty. *)
Theorem rewrite_falls_back_to_query env query contextMessages conversationId
    searchEngine w :
  exists q,
    rewriteUserSearchQuery env query contextMessages conversationId searchEngine w
    = (Ok q, w)
    /\ (q = query
        \/ truthy q = true
           /\ exists provider model rewrittenQuery,
                llm_generateCompletion env provider
                  [mkChat RoleUser
                     (rewritePrompt env (w_now w) searchEngine contextMessages query)]
                  model
                = Ok rewrittenQuery
                /\ q = trim rewrittenQuery).
Proof.
  unfold rewriteUserSearchQuery. mstep. mstep.
  destruct (store_getConversation conversationId w) as [c |];
    [| eexists; split; [reflexivity | now left]].
  mstep. mstep. unfold try_catch, mbind, M_bind, await.
  destruct (llm_generateCompletion _ _ _ _) as [raw |] eqn:Hraw;
    [| eexists; split; [reflexivity | now left]].
  eexists. split; [reflexivity |]. cbn [mret M_ret].
  destruct (truthy (trim raw)) eqn:Htrim; [right | now left].
  split; [exact Htrim |]. eauto.
Qed.

(** ** The history before a message *)

Lemma thread_in_conversation conversationId page pageSize w :
  Forall (fun m => msg_conversationId m = conversationId)
    (store_getMessageThread conversationId page pageSize w).
Proof.
  unfold store_getMessageThread, page_of. apply Forall_take, Forall_drop.
  apply Forall_forall. intros m Hm. rewrite list_elem_of_In in Hm.
  apply filter_In in Hm as [_ Hm]. now apply bool_decide_eq_true in Hm.
Qed.

(** X20: for a positive limit, getMessageHistory throws on an unknown
    message and writes nothing; on a known one it returns at most [limit]
    messages of the conversation of that message, the last of which has the
    id asked for: the message itself alone, or consecutive rows of the first
    page of the thread. *)
Theorem message_history_ends_with_target (messageId : jsstring) (limit : Z)
    (w : World) :
  (0 < limit)%Z ->
  match store_getMessage messageId w with
  | None => getMessageHistory messageId limit w = (Throw (Error msg_notFound), w)
  | Some message =>
      exists msgs,
        getMessageHistory messageId limit w = (Ok msgs, w)
        /\ msg_id <$> last msgs = Some messageId
        /\ (Z.of_nat (length msgs) <= limit)%Z
        /\ Forall (fun m => msg_conversationId m = msg_conversationId message) msgs
        /\ (msgs = [message]
            \/ exists before after,
                 store_getMessageThread (msg_conversationId message) 1
                   (Z.to_nat (limit * 2)) w
                 = before ++ msgs ++ after)
  end.
Proof.
  intros Hlimit. unfold getMessageHistory.
  destruct (store_getMessage messageId w) as [message |] eqn:Hmessage.
  - mstep. rewrite Hmessage. mstep.
    assert (Hid : msg_id message = messageId).
    { unfold store_getMessage in Hmessage. apply find_some in Hmessage as [_ H].
      now apply bool_decide_eq_true in H. }
    pose proof (thread_in_conversation (msg_conversationId message) 1
                  (Z.to_nat (limit * 2)) w) as Hconv.
    set (messages := store_getMessageThread _ _ _ w) in *.
    destruct (list_find _ messages) as [[i x] |] eqn:Hfind.
    + apply list_find_Some in Hfind as (Hi & Hx & _).
      pose proof (lookup_lt_Some _ _ _ Hi) as Hlen.
      set (start := Z.to_nat (Z.max 0 (Z.of_nat i - limit + 1))).
      set (count := Z.to_nat (Z.of_nat i + 1) - start).
      assert (Hstart : start <= i) by (unfold start; lia).
      assert (Hcount : count = i + 1 - start) by (unfold count; lia).
      assert (Hlength : length (take count (drop start messages)) = count).
      { rewrite length_take, length_drop. lia. }
      eexists. split; [reflexivity |]. split; [| split; [| split]].
      * rewrite last_lookup, Hlength, lookup_take_lt, lookup_drop by lia.
        replace (start + Init.Nat.pred count) with i by lia.
        rewrite Hi. simpl. now rewrite Hx.
      * rewrite Hlength. unfold start in Hcount. lia.
      * now apply Forall_take, Forall_drop.
      * right. exists (take start messages), (drop count (drop start messages)).
        now rewrite take_drop, take_drop.
    + eexists. split; [reflexivity |]. split; [| split; [| split]].
      * simpl. now rewrite Hid.
      * simpl. lia.
      * now repeat constructor.
      * now left.
  - mstep. now rewrite Hmessage.
Qed.

Lemma message_history_ends_with_target_witness :
  exists msgs,
    getMessageHistory (lit "u2") 2
      (world_of [assistant_message (lit "a1") MsSent [];
                 user_message (lit "u1") (lit "hi") false;
                 user_message (lit "u2") (lit "more") false;
                 assistant_message (lit "a3") MsPending []] [] 7)
    = (Ok msgs,
       world_of [assistant_message (lit "a1") MsSent [];
                 user_message (lit "u1") (lit "hi") false;
                 user_message (lit "u2") (lit "more") false;
                 assistant_message (lit "a3") MsPending []] [] 7)
    /\ msg_id <$> last msgs = Some (lit "u2")
    /\ (Z.of_nat (length msgs) <= 2)%Z.
Proof.
  destruct (message_history_ends_with_target (lit "u2") 2
              (world_of [assistant_message (lit "a1") MsSent [];
                         user_message (lit "u1") (lit "hi") false;
                         user_message (lit "u2") (lit "more") false;
                         assistant_message (lit "a3") MsPending []] [] 7)
              ltac:(lia))
    as (msgs & Hrun & Hlast & Hlen & _).
  exists msgs. split; [exact Hrun | split; [exact Hlast | exact Hlen]].
Defined.

(** ** A search that succeeds *)

Lemma forEach_addMessageAttachment id type (f : SearchResult -> SearchResult)
    results w :
  exists w',
    forEach results (fun result => addMessageAttachment id type (f result)) w
    = (Ok tt, w')
    /\ w_attachments w'
       = w_attachments w ++ map (fun r => mkAttachment id type (f r)) results
    /\ w_messages w' = w_messages w
    /\ generatingMessages w' = generatingMessages w
    /\ w_streams w' = w_streams w.
Proof.
  revert w. induction results as [| r results IH]; intros w.
  - exists w. simpl. now rewrite app_nil_r.
  - destruct (IH (with_attachments (fun rows => rows ++ [mkAttachment id type (f r)]) w))
      as (w' & Hrun & Hatt & Hmsg & Hgen & Hstr).
    exists w'. split; [| split; [| auto]].
    + simpl. unfold addMessageAttachment at 1. mstep. exact Hrun.
    + rewrite Hatt. simpl. now rewrite <- app_assoc.
Qed.

Lemma mutate_state_run id f w st :
  Map_get id (generatingMessages w) = Some st ->
  mutate_state id f w = (Ok tt, with_generating (Map_set id (f st)) w).
Proof.
  intros H. unfold mutate_state, modify, with_generating.
  now rewrite (Map_mutate_Some _ _ _ _ H).
Qed.

Lemma persist_run id w st :
  Map_get id (generatingMessages w) = Some st ->
  persist id w
  = (Ok tt, with_messages (update_message id (edit_content (blocks_of st))) w).
Proof. intros H. unfold persist, current_blocks. mstep. now rewrite H. Qed.

(** X21: when the search backend answers, startStreamSearch returns its
    results as they came; the search block (the first block of the message)
    has the status success and the number of results as its total, that
    block list is what the store holds for the message, and one attachment
    per result has been added, in the order of the results, each with the
    missing fields of the result filled with empty strings. *)
Theorem search_success_records_results env w conversationId messageId query state
    conversation results :
  Map_get messageId (generatingMessages w) = Some state ->
  store_getConversation conversationId w = Some conversation ->
  (forall q, searchManager_search env conversationId q = Ok results) ->
  let found :=
    mkBlock TySearch [] StSuccess (w_now w) (Some (Z.of_nat (length results)))
    :: blocks_of state in
  exists w',
    startStreamSearch env conversationId messageId query w = (Ok results, w')
    /\ blocks_of <$> Map_get messageId (generatingMessages w') = Some found
    /\ w_messages w'
       = update_message messageId (edit_content found) (w_messages w)
    /\ w_attachments w'
       = w_attachments w
         ++ map (fun r => mkAttachment messageId (lit "search_result")
                            (normalise_result r))
              results
    /\ w_streams w' = w_streams w.
Proof.
  intros Hstate Hconv Hsearch found.
  unfold startStreamSearch.
  mstep. rewrite Hstate. mstep.
  set (stA := set_blocks (searchBlock (w_now w) :: blocks_of state) state).
  set (wA := with_generating (Map_set messageId stA) w).
  assert (HgetA : Map_get messageId (generatingMessages wA) = Some stA)
    by apply Map_get_set_eq.
  erewrite bind_ok by (apply mutate_state_run; exact Hstate). fold stA wA.
  erewrite bind_ok by (apply persist_run; exact HgetA).
  set (wB := with_messages
               (update_message messageId (edit_content (blocks_of stA))) wA).
  change (with_messages _ (with_generating _ w)) with wB.
  destruct (getContextMessages_run env conversationId conversation wB Hconv)
    as [msgs Hctx].
  destruct (rewriteUserSearchQuery_total env query
              (join newline (map (contextLine env) msgs))
              conversationId (activeEngineName env) wB) as [q Hq].
  set (stC := set_blocks
                (alter (fun b => set_extra (Some (Z.of_nat (length results)))
                                   (set_status StReading b))
                   0 (blocks_of stA)) stA).
  set (wC := with_generating (Map_set messageId stC) wB).
  assert (HgetC : Map_get messageId (generatingMessages wC) = Some stC)
    by apply Map_get_set_eq.
  set (wD := with_messages
               (update_message messageId (edit_content (blocks_of stC))) wC).
  destruct (forEach_addMessageAttachment messageId (lit "search_result")
              normalise_result results wD)
    as (w3 & Hsave & Hatt & Hmsg & Hgen & Hstr).
  assert (Hget3 : Map_get messageId (generatingMessages w3) = Some stC)
    by (rewrite Hgen; exact HgetC).
  set (stE := set_blocks (alter (set_status StSuccess) 0 (blocks_of stC)) stC).
  set (wE := with_generating (Map_set messageId stE) w3).
  assert (HgetE : Map_get messageId (generatingMessages wE) = Some stE)
    by apply Map_get_set_eq.
  erewrite try_catch_ok; cycle 1.
  { erewrite bind_ok by exact Hctx. erewrite bind_ok by exact Hq.
    erewrite bind_ok by (unfold await; rewrite Hsearch; reflexivity).
    unfold mutate_searchBlock.
    erewrite bind_ok by (apply mutate_state_run; exact HgetA).
    erewrite bind_ok by (apply persist_run; exact HgetC).
    erewrite bind_ok by exact Hsave.
    erewrite bind_ok by (apply mutate_state_run; exact Hget3).
    erewrite bind_ok by (apply persist_run; exact HgetE).
    reflexivity. }
  eexists. split; [reflexivity |].
  cbn [with_generating with_messages generatingMessages w_messages
       w_attachments w_streams].
  rewrite Hmsg, Hatt, Hstr.
  split; [| split; [| split; reflexivity]].
  - now rewrite Map_get_set_eq.
  - subst wD wC wB wA.
    cbn [with_generating with_messages generatingMessages w_messages].
    rewrite !update_message_twice by (intros [? ? ? [] ? ?]; reflexivity).
    apply update_message_ext. intros m. now rewrite !edit_content_twice.
Qed.

Lemma search_success_records_results_witness :
  exists w',
    startStreamSearch
      (mkCollaborators (approximateTokenSize test_env) (getFileContext test_env)
         (JSON_stringify test_env) (JSON_parse test_env)
         (getArtifactsPrompt test_env) (extractAndEnrichUrls test_env)
         (enrichUserMessageWithUrlContent test_env) (generateSearchPrompt test_env)
         (rewritePrompt test_env) (activeEngineName test_env)
         (fun _ _ => Ok [mkSearchResult (lit "t") (lit "https://a") None None None])
         (llm_generateCompletion test_env) (llm_startStreamCompletion test_env)
         (messageManager_getContextMessages test_env))
      (lit "c1") (lit "m1") (lit "hi")
      (world_of [assistant_message (lit "m1") MsPending []]
         [(lit "m1", fresh_state (lit "m1") [])] 7)
    = (Ok [mkSearchResult (lit "t") (lit "https://a") None None None], w')
    /\ w_messages w'
       = [assistant_message (lit "m1") MsPending
            [mkBlock TySearch [] StSuccess 7 (Some 1%Z)]]
    /\ w_attachments w'
       = [mkAttachment (lit "m1") (lit "search_result")
            (mkSearchResult (lit "t") (lit "https://a")
               (Some []) (Some []) (Some []))].
Proof.
  destruct (search_success_records_results
              (mkCollaborators (approximateTokenSize test_env) (getFileContext test_env)
                 (JSON_stringify test_env) (JSON_parse test_env)
                 (getArtifactsPrompt test_env) (extractAndEnrichUrls test_env)
                 (enrichUserMessageWithUrlContent test_env)
                 (generateSearchPrompt test_env)
                 (rewritePrompt test_env) (activeEngineName test_env)
                 (fun _ _ => Ok [mkSearchResult (lit "t") (lit "https://a")
                                   None None None])
                 (llm_generateCompletion test_env)
                 (llm_startStreamCompletion test_env)
                 (messageManager_getContextMessages test_env))
              (world_of [assistant_message (lit "m1") MsPending []]
                 [(lit "m1", fresh_state (lit "m1") [])] 7)
              (lit "c1") (lit "m1") (lit "hi") (fresh_state (lit "m1") [])
              (mkConversation (lit "c1") (lit "chat") test_settings)
              [mkSearchResult (lit "t") (lit "https://a") None None None])
    as (w' & Hrun & _ & Hstore & Hatt & _); [reflexivity | reflexivity | reflexivity |].
  exists w'. split; [exact Hrun | split; [exact Hstore | exact Hatt]].
Defined.

(** ** getAnswer without a question before the text *)

Lemma slice_empty s start stop :
  (slice_bound (Z.of_nat (length s)) stop
   <= slice_bound (Z.of_nat (length s)) start)%Z ->
  slice s start stop = [].
Proof.
  intros H. unfold slice. cbv zeta.
  replace (Z.to_nat _) with 0 by lia. reflexivity.
Qed.

(** X22: when ['question'] does not occur in the part of the file that
    precedes the text (as when the text is empty), the file that contains
    the text is still the only one kept, and its content is replaced by
    ['以 answer 的内容为准'] alone. *)
Theorem getAnswer_without_question_before (text : jsstring)
    (files before : list MessageFile) (file : MessageFile)
    (after : list MessageFile) (t : nat) :
  files = before ++ file :: after ->
  (forall f, In f before -> ~ has_substring text (file_content f)) ->
  first_occurrence text (file_content file) t ->
  (forall i, occurs_at question (file_content file) i -> t < i + length question) ->
  getAnswer text files = [mkFile answer_suffix (file_rest file)].
Proof.
  intros -> Hbefore Htext Hnone.
  unfold getAnswer. rewrite (find_first_match _ before file after); cycle 1.
  { intros f Hf. apply not_true_is_false. rewrite contains_has_substring.
    now apply Hbefore. }
  { apply contains_has_substring. exists t. apply Htext. }
  set (s := file_content file) in *.
  assert (Ht : t <= length s).
  { pose proof (indexOf_first_occurrence _ _ _ Htext) as Hidx.
    unfold indexOf in Hidx.
    destruct (indexOf_opt s text) as [n |] eqn:E; [| simpl in Hidx; lia].
    apply indexOf_opt_Some in E as [_ Hn]. simpl in Hidx. lia. }
  cbv zeta. rewrite (indexOf_first_occurrence _ _ _ Htext).
  rewrite slice_prefix, slice_from_drop by exact Ht.
  assert (Hqs : lastIndexOf (take t s) question = (-1)%Z).
  { unfold lastIndexOf.
    destruct (lastIndexOf_opt (take t s) question) as [i |] eqn:E; [| reflexivity].
    exfalso. apply lastIndexOf_opt_Some in E as (Hocc & Hle & _).
    rewrite length_take in Hle.
    apply occurs_at_take in Hocc; [| lia].
    specialize (Hnone i Hocc). lia. }
  rewrite Hqs.
  assert (Hqe : (indexOf (drop t s) question = -1
                 \/ 0 <= indexOf (drop t s) question
                    /\ Z.of_nat t + indexOf (drop t s) question + 8
                       <= Z.of_nat (length s))%Z).
  { unfold indexOf.
    destruct (indexOf_opt (drop t s) question) as [j |] eqn:E; [right | now left].
    apply indexOf_opt_Some in E as [[Hocc _] _].
    apply occurs_at_length in Hocc; [| discriminate].
    rewrite length_drop in Hocc. change (length question) with 8 in Hocc.
    simpl. lia. }
  rewrite slice_empty; [reflexivity |].
  unfold slice_bound.
  destruct Hqe as [-> | [Hpos Hend]].
  - destruct (Z.ltb_spec (Z.of_nat t + -1) 0); simpl; lia.
  - destruct (Z.ltb_spec (Z.of_nat t + indexOf (drop t s) question) 0); simpl; lia.
Qed.

Lemma getAnswer_without_question_before_witness :
  getAnswer []
    [mkFile (lit "a question and an answer") (lit "f1");
     mkFile (lit "another file") (lit "f2")]
  = [mkFile answer_suffix (lit "f1")].
Proof.
  apply (getAnswer_without_question_before []
           _ [] (mkFile (lit "a question and an answer") (lit "f1"))
           [mkFile (lit "another file") (lit "f2")] 0).
  - reflexivity.
  - intros f [].
  - split; [reflexivity | intros j _; lia].
  - intros i _. change (length question) with 8. lia.
Defined.

(** ** What recovery leaves alone *)

(** The rows that the loop over the conversations finalises were pending
    assistant messages. *)
Lemma forEach_recoverConversation_only env conversations w0 done :
  NoDup (map msg_id (w_messages w0)) ->
  exists done',
    forEach conversations (recoverConversation env)
      (with_messages (map (finalize_in env sessionInterrupted (w_now w0) done)) w0)
    = (Ok tt,
       with_messages (map (finalize_in env sessionInterrupted (w_now w0) done')) w0)
    /\ (forall x, x ∈ done' ->
          x ∈ done
          \/ exists m, In m (w_messages w0) /\ msg_id m = x
                       /\ is_pending_assistant m = true).
Proof.
  intros Hnd. revert done.
  induction conversations as [| c conversations IH]; intros done.
  - exists done. split; [reflexivity | auto].
  - cbn [forEach].
    set (w := with_messages
                (map (finalize_in env sessionInterrupted (w_now w0) done)) w0).
    set (more := map msg_id
                   (List.filter is_pending_assistant
                      (store_getMessageThread (conv_id c) 1 1000 w))).
    destruct (IH (done ++ more)) as (done' & Hrun & Hbound).
    exists done'. split.
    + erewrite bind_ok; cycle 1.
      { apply (recoverConversation_run env (w_now w0)); [reflexivity |].
        subst w. cbn [with_messages w_messages]. now rewrite finalize_in_ids. }
      rewrite <- Hrun. f_equal. subst w. unfold with_messages; cbn. f_equal.
      rewrite map_map. apply map_ext. intros r.
      apply finalize_in_app. intros x Hx. now apply scanned_not_done.
    + intros x Hx. destruct (Hbound x Hx) as [Hin | Hex]; [| now right].
      apply elem_of_app in Hin as [Hin | Hin]; [now left | right].
      subst more. rewrite list_elem_of_In in Hin.
      apply in_map_iff in Hin as (m' & Hid & Hm').
      apply filter_In in Hm' as [Hthread Hpending].
      subst w. rewrite thread_of_mapped in Hthread by apply finalize_in_conversation.
      apply in_map_iff in Hthread as (r0 & <- & Hr0).
      rewrite finalize_in_id in Hid.
      exists r0. split; [eapply thread_in_rows; exact Hr0 | split; [exact Hid |]].
      unfold finalize_in in Hpending.
      destruct (bool_decide (msg_id r0 ∈ done)); [| exact Hpending].
      rewrite finalize_not_pending in Hpending. discriminate.
Qed.

(** X23: recovery never throws and writes to nothing but rows of pending
    assistant messages: every other row is afterwards as it was, the rows
    keep their ids and their order, and the conversations, the attachments,
    the map of generations and the streams are untouched. *)
Theorem recovery_leaves_other_rows env (w : World) :
  NoDup (map msg_id (w_messages w)) ->
  exists w',
    initializeUnfinishedMessages env w = (Ok tt, w')
    /\ (forall m, In m (w_messages w) -> is_pending_assistant m = false ->
          store_getMessage (msg_id m) w' = Some m)
    /\ map msg_id (w_messages w') = map msg_id (w_messages w)
    /\ w_conversations w' = w_conversations w
    /\ w_attachments w' = w_attachments w
    /\ generatingMessages w' = generatingMessages w
    /\ w_streams w' = w_streams w.
Proof.
  intros Hnd.
  destruct (forEach_recoverConversation_only env
              (store_getConversationList 1 1000 w) w [] Hnd)
    as (done & Hrun & Hbound).
  rewrite (with_messages_same _ w (finalize_in_nil env _ _ _)) in Hrun.
  exists (with_messages
            (map (finalize_in env sessionInterrupted (w_now w) done)) w).
  split; [| split; [| split; [| repeat split]]].
  - unfold initializeUnfinishedMessages.
    erewrite try_catch_ok; [reflexivity |].
    mstep. exact Hrun.
  - intros m Hm Hpending.
    unfold store_getMessage. cbn [with_messages w_messages].
    rewrite find_by_id_map by apply finalize_in_id.
    rewrite find_by_id by assumption.
    cbn. f_equal. unfold finalize_in. rewrite bool_decide_eq_false_2; [reflexivity |].
    intros Hin. destruct (Hbound _ Hin) as [Hnil | (m0 & Hm0 & Hid & Hp)].
    + now apply not_elem_of_nil in Hnil.
    + assert (m0 = m) by (apply (same_id_same_row (w_messages w)); assumption).
      congruence.
  - cbn [with_messages w_messages]. apply finalize_in_ids.
Qed.

Lemma recovery_leaves_other_rows_witness :
  exists w',
    initializeUnfinishedMessages test_env
      (world_of [user_message (lit "u1") (lit "hi") false;
                 assistant_message (lit "m0") MsSent
                   [mkBlock TyContent (lit "done") StSuccess 1 None];
                 assistant_message (lit "m1") MsPending
                   [mkBlock TyContent (lit "par") StLoading 3 None]] [] 7)
    = (Ok tt, w')
    /\ store_getMessage (lit "m0") w'
       = Some (assistant_message (lit "m0") MsSent
                 [mkBlock TyContent (lit "done") StSuccess 1 None]).
Proof.
  destruct (recovery_leaves_other_rows test_env
              (world_of [user_message (lit "u1") (lit "hi") false;
                         assistant_message (lit "m0") MsSent
                           [mkBlock TyContent (lit "done") StSuccess 1 None];
                         assistant_message (lit "m1") MsPending
                           [mkBlock TyContent (lit "par") StLoading 3 None]] [] 7))
    as (w' & Hrun & Hother & _).
  - apply (bool_decide_unpack _). vm_compute. exact I.
  - exists w'. split; [exact Hrun |].
    apply (Hother (assistant_message (lit "m0") MsSent
                     [mkBlock TyContent (lit "done") StSuccess 1 None])).
    + right. left. reflexivity.
    + reflexivity.
Defined.

(** ** Recovery twice *)

Lemma forEach_recoverConversation_nothing env conversations w :
  (forall c, In c conversations ->
     List.filter is_pending_assistant (store_getMessageThread (conv_id c) 1 1000 w)
     = []) ->
  forEach conversations (recoverConversation env) w = (Ok tt, w).
Proof.
  induction conversations as [| c conversations IH]; intros Hnone; [reflexivity |].
  cbn [forEach]. erewrite bind_ok; cycle 1.
  { unfold recoverConversation. mstep. rewrite Hnone by now left. reflexivity. }
  apply IH. intros c' Hc'. apply Hnone. now right.
Qed.

(** X24: recovery run a second time changes nothing: what the first run
    left is a fixed point. *)
Theorem recovery_twice env (w : World) :
  NoDup (map msg_id (w_messages w)) ->
  exists w',
    initializeUnfinishedMessages env w = (Ok tt, w')
    /\ initializeUnfinishedMessages env w' = (Ok tt, w').
Proof.
  intros Hnd.
  destruct (forEach_recoverConversation env (w_now w)
              (store_getConversationList 1 1000 w) w [] eq_refl Hnd)
    as (done & Hrun & _ & Hall).
  rewrite (with_messages_same _ w (finalize_in_nil env _ _ _)) in Hrun.
  exists (with_messages
            (map (finalize_in env sessionInterrupted (w_now w) done)) w).
  split.
  - unfold initializeUnfinishedMessages.
    erewrite try_catch_ok; [reflexivity |].
    mstep. exact Hrun.
  - unfold initializeUnfinishedMessages.
    erewrite try_catch_ok; [reflexivity |].
    mstep. apply forEach_recoverConversation_nothing.
    intros c Hc.
    change (store_getConversationList 1 1000 (with_messages _ w))
      with (store_getConversationList 1 1000 w) in Hc.
    rewrite thread_of_mapped by apply finalize_in_conversation.
    destruct (List.filter is_pending_assistant _) as [| m' rest] eqn:Hscan;
      [reflexivity | exfalso].
    assert (Hin : In m' (m' :: rest)) by now left.
    rewrite <- Hscan in Hin. apply filter_In in Hin as [Hthread Hpending].
    apply in_map_iff in Hthread as (r0 & <- & Hr0).
    unfold finalize_in in Hpending.
    destruct (bool_decide (msg_id r0 ∈ done)) eqn:Hdone.
    + rewrite finalize_not_pending in Hpending. discriminate.
    + apply bool_decide_eq_false in Hdone. apply Hdone.
      now apply (Hall c r0 Hc Hr0).
Qed.

Lemma recovery_twice_witness :
  exists w',
    initializeUnfinishedMessages test_env
      (world_of [user_message (lit "u1") (lit "hi") false;
                 assistant_message (lit "m1") MsPending
                   [mkBlock TyContent (lit "par") StLoading 3 None]] [] 7)
    = (Ok tt, w')
    /\ initializeUnfinishedMessages test_env w' = (Ok tt, w').
Proof.
  apply recovery_twice.
  apply (bool_decide_unpack _). vm_compute. exact I.
Defined.

(** ** The search prompt *)

Lemma GetSubstitution_app matched before after q rest :
  36%N ∉ q ->
  GetSubstitution matched before after (q ++ rest)
  = q ++ GetSubstitution matched before after rest.
Proof.
  induction q as [| c q IH]; intros Hq; [reflexivity |].
  apply not_elem_of_cons in Hq as [Hc Hq].
  cbn [app GetSubstitution].
  rewrite (proj2 (N.eqb_neq c 36)) by congruence.
  now rewrite IH.
Qed.

Lemma GetSubstitution_plain matched before after q :
  36%N ∉ q -> GetSubstitution matched before after q = q.
Proof.
  intros Hq. rewrite <- (app_nil_r q) at 1.
  rewrite GetSubstitution_app by assumption. simpl. apply app_nil_r.
Qed.

Lemma indexOf_opt_first s pat i :
  first_occurrence pat s i -> indexOf_opt s pat = Some i.
Proof.
  intros [Hocc Hmin].
  destruct (indexOf_opt s pat) as [j |] eqn:E.
  - apply indexOf_opt_Some in E as [[Hocc' Hmin'] _].
    f_equal. specialize (Hmin j Hocc'). specialize (Hmin' i Hocc). lia.
  - exfalso. exact (indexOf_opt_None _ _ E i Hocc).
Qed.

Lemma String_replace_first a pat b replacement :
  indexOf_opt (a ++ pat ++ b) pat = Some (length a) ->
  String_replace (a ++ pat ++ b) pat replacement
  = a ++ GetSubstitution pat a b replacement ++ b.
Proof.
  intros H. unfold String_replace. rewrite H. cbv zeta.
  rewrite take_app_length, drop_app_add, drop_app_length. reflexivity.
Qed.

(** An occurrence of a pattern in a text that holds a character foreign to
    the pattern lies before that character or after it. *)
Lemma occurs_split pat a (c : N) b j :
  c ∉ pat ->
  occurs_at pat (a ++ c :: b) j ->
  occurs_at pat a j /\ j + length pat <= length a
  \/ length a < j /\ occurs_at pat b (j - length a - 1)
  \/ pat = [].
Proof.
  intros Hc Hocc. unfold occurs_at in *.
  destruct pat as [| p pat]; [now right; right |].
  destruct (decide (j + length (p :: pat) <= length a)) as [Hin | Hout].
  - left. split; [| exact Hin].
    rewrite drop_app_le, take_app_le in Hocc by (rewrite ?length_drop; lia).
    exact Hocc.
  - destruct (decide (length a < j)) as [Hafter | Hacross].
    + right; left. split; [exact Hafter |].
      rewrite drop_app_ge in Hocc by lia.
      replace (j - length a) with (S (j - length a - 1)) in Hocc by lia.
      exact Hocc.
    + exfalso. apply Hc.
      assert (Hlook : (p :: pat) !! (length a - j) = Some c).
      { rewrite <- Hocc. rewrite lookup_take_lt, lookup_drop by lia.
        apply list_lookup_middle. lia. }
      eapply list_elem_of_lookup_2. exact Hlook.
Qed.

Lemma occurs_at_head pat c s i :
  occurs_at (c :: pat) s i -> c ∈ s.
Proof.
  unfold occurs_at. intros H.
  pose proof (lookup_drop s i 0) as Hlook.
  destruct (drop i s) as [| x rest]; [discriminate H |].
  injection H as -> _. rewrite Nat.add_0_r in Hlook.
  eapply list_elem_of_lookup_2. symmetry. exact Hlook.
Qed.

(** *** The characters of the formatted results *)

Lemma elem_of_join (c : N) sep parts :
  c ∈ join sep parts -> c ∈ sep \/ exists p, p ∈ parts /\ c ∈ p.
Proof.
  induction parts as [| p parts IH]; [intros H; now apply not_elem_of_nil in H |].
  destruct parts as [| p' parts].
  - intros H. right. exists p. split; [apply list_elem_of_here | exact H].
  - change (join sep (p :: p' :: parts))
      with (p ++ sep ++ join sep (p' :: parts)).
    rewrite !elem_of_app. intros [H | [H | H]].
    + right. exists p. split; [apply list_elem_of_here | exact H].
    + now left.
    + destruct (IH H) as [Hs | (q & Hq & Hc)]; [now left |].
      right. exists q. split; [now apply list_elem_of_further | exact Hc].
Qed.

Lemma uint_units_digits d c : c ∈ uint_units d -> (48 <= c <= 57)%N.
Proof.
  induction d; simpl; intros H;
    [now apply not_elem_of_nil in H | ..];
    (apply elem_of_cons in H as [-> | H]; [lia | now apply IHd]).
Qed.

Lemma plain_units (l : jsstring) c :
  forallb (fun c => negb (c =? 36)%N && negb (c =? 123)%N) l = true ->
  c ∈ l -> c <> 36%N /\ c <> 123%N.
Proof.
  intros Hall Hc. rewrite forallb_forall in Hall.
  rewrite list_elem_of_In in Hc. specialize (Hall c Hc).
  apply andb_true_iff in Hall as [H1 H2].
  apply negb_true_iff, N.eqb_neq in H1. apply negb_true_iff, N.eqb_neq in H2.
  now split.
Qed.

Lemma formatSearchResult_plain index r c :
  plain_result r ->
  c ∈ SearchPrompt.formatSearchResult index r -> c <> 36%N /\ c <> 123%N.
Proof.
  intros Hr. unfold SearchPrompt.formatSearchResult.
  rewrite !elem_of_app.
  intros [H | [H | [H | [H | [H | [H | [H | [H | [H | [H | [H | [H | H]]]]]]]]]]]];
    try (revert H; apply plain_units; reflexivity).
  - apply uint_units_digits in H. lia.
  - apply Hr. rewrite !elem_of_app. now left.
  - apply Hr. rewrite !elem_of_app. now right; left.
  - apply Hr. rewrite !elem_of_app. now right; right.
Qed.

Lemma formatSearchResults_plain results c :
  Forall plain_result results ->
  c ∈ SearchPrompt.formatSearchResults results -> c <> 36%N /\ c <> 123%N.
Proof.
  intros Hall Hc. unfold SearchPrompt.formatSearchResults in Hc.
  apply elem_of_join in Hc as [Hc | (p & Hp & Hc)].
  - revert Hc. apply plain_units. reflexivity.
  - apply elem_of_lookup_imap_1 in Hp as (i & r & -> & Hr).
    apply (formatSearchResult_plain i r); [| exact Hc].
    rewrite Forall_forall in Hall. apply Hall.
    eapply list_elem_of_lookup_2. exact Hr.
Qed.

(** The prompt for results without dollar signs and braces: the template
    with the results in their place and the query, as a replacement
    pattern, in its place. *)
Lemma generateSearchPrompt_plain_results query results :
  Forall plain_result results ->
  SearchPrompt.generateSearchPrompt query results
  = (template_head ++ SearchPrompt.formatSearchResults results ++ template_mid)
    ++ GetSubstitution (lit "{{USER_QUERY}}")
         (template_head ++ SearchPrompt.formatSearchResults results ++ template_mid)
         template_tail query
    ++ template_tail.
Proof.
  intros Hplain. unfold SearchPrompt.generateSearchPrompt.
  set (F := SearchPrompt.formatSearchResults results).
  assert (Hdollar : 36%N ∉ F).
  { intros H. now apply (formatSearchResults_plain results) in H as [H _]. }
  assert (Hbrace : 123%N ∉ F).
  { intros H. now apply (formatSearchResults_plain results) in H as [_ H]. }
  unfold SearchPrompt.SEARCH_PROMPT_TEMPLATE.
  rewrite String_replace_first by (vm_compute; reflexivity).
  rewrite GetSubstitution_plain by exact Hdollar.
  replace (template_head ++ F ++ template_mid ++ lit "{{USER_QUERY}}" ++ template_tail)
    with ((template_head ++ F ++ template_mid)
          ++ lit "{{USER_QUERY}}" ++ template_tail)
    by (now rewrite <- !app_assoc).
  apply String_replace_first. apply indexOf_opt_first. split.
  - unfold occurs_at. rewrite drop_app_length. reflexivity.
  - intros j Hj. rewrite !length_app.
    change (length template_head) with 1305. change (length template_mid) with 32.
    replace ((template_head ++ F ++ template_mid)
             ++ lit "{{USER_QUERY}}" ++ template_tail)
      with (take 1304 template_head
            ++ 10%N :: (F ++ 10%N :: (drop 1 template_mid
                                       ++ lit "{{USER_QUERY}}" ++ template_tail)))
      in Hj.
    2:{ rewrite <- (take_drop 1304 template_head) at 2.
        change (drop 1304 template_head) with [10%N].
        rewrite <- (take_drop 1 template_mid) at 2.
        change (take 1 template_mid) with [10%N].
        rewrite <- !app_assoc. reflexivity. }
    apply occurs_split in Hj as [[Hocc _] | [[Hlt Hj] | Hnil]];
      [| | discriminate Hnil | apply (bool_decide_unpack _); vm_compute; exact I].
    + exfalso. revert Hocc. apply indexOf_opt_None. vm_compute. reflexivity.
    + change (length (take 1304 template_head)) with 1304 in *.
      apply occurs_split in Hj as [[Hocc _] | [[Hlt' Hj] | Hnil]];
        [| | discriminate Hnil | apply (bool_decide_unpack _); vm_compute; exact I].
      * exfalso. apply Hbrace. exact (occurs_at_head _ _ _ _ Hocc).
      * assert (Hfirst : first_occurrence (lit "{{USER_QUERY}}")
                           (drop 1 template_mid ++ lit "{{USER_QUERY}}" ++ template_tail)
                           31).
        { apply indexOf_opt_Some. vm_compute. reflexivity. }
        destruct Hfirst as [_ Hmin]. specialize (Hmin _ Hj). lia.
Qed.

(** X25: for search results whose titles, URLs and contents hold no dollar
    sign and no opening brace, and a query without a dollar sign, the search
    prompt is the template with the formatted results in the place of
    [{{SEARCH_RESULTS}}] and the query in the place of [{{USER_QUERY}}]. *)
Theorem search_prompt_fills_template (query : jsstring)
    (results : list SearchResult) :
  Forall plain_result results ->
  36%N ∉ query ->
  SearchPrompt.generateSearchPrompt query results
  = template_head ++ SearchPrompt.formatSearchResults results ++ template_mid
    ++ query ++ template_tail.
Proof.
  intros Hplain Hquery.
  rewrite generateSearchPrompt_plain_results by exact Hplain.
  rewrite GetSubstitution_plain by exact Hquery.
  now rewrite <- !app_assoc.
Qed.

Lemma search_prompt_fills_template_witness :
  SearchPrompt.generateSearchPrompt (lit "why is the sky blue")
    [mkSearchResult (lit "Sky") (lit "https://a.example") (Some (lit "air")) None None]
  = template_head
    ++ SearchPrompt.formatSearchResults
         [mkSearchResult (lit "Sky") (lit "https://a.example") (Some (lit "air"))
            None None]
    ++ template_mid ++ lit "why is the sky blue" ++ template_tail.
Proof.
  apply search_prompt_fills_template.
  - apply List.Forall_cons; [| apply List.Forall_nil].
    intros c. apply plain_units. reflexivity.
  - apply (bool_decide_unpack _). vm_compute. exact I.
Defined.

(** X26: a dollar sign in the query is read as a replacement pattern.
    Between parts of the query that hold no dollar sign, [$$] reaches the
    prompt as one dollar sign, [$&] as the text [{{USER_QUERY}}], [$`] as the
    whole prompt before the place of the query, and [$'] as the end of the
    template. *)
Theorem search_prompt_expands_dollar_patterns (q1 q2 : jsstring)
    (results : list SearchResult) :
  Forall plain_result results ->
  36%N ∉ q1 -> 36%N ∉ q2 ->
  let before :=
    template_head ++ SearchPrompt.formatSearchResults results ++ template_mid in
  let prompt := fun inserted => before ++ q1 ++ inserted ++ q2 ++ template_tail in
  SearchPrompt.generateSearchPrompt (q1 ++ [36; 36]%N ++ q2) results
  = prompt [36%N]
  /\ SearchPrompt.generateSearchPrompt (q1 ++ [36; 38]%N ++ q2) results
     = prompt (lit "{{USER_QUERY}}")
  /\ SearchPrompt.generateSearchPrompt (q1 ++ [36; 96]%N ++ q2) results
     = prompt before
  /\ SearchPrompt.generateSearchPrompt (q1 ++ [36; 39]%N ++ q2) results
     = prompt template_tail.
Proof.
  intros Hplain H1 H2 before prompt. subst prompt before. cbv beta.
  rewrite !generateSearchPrompt_plain_results by exact Hplain.
  repeat split;
    rewrite (GetSubstitution_app _ _ _ q1) by exact H1;
    cbn [app GetSubstitution N.eqb Pos.eqb];
    rewrite (GetSubstitution_plain _ _ _ q2) by exact H2;
    now rewrite <- !app_assoc.
Qed.

Lemma search_prompt_expands_dollar_patterns_witness :
  SearchPrompt.generateSearchPrompt (lit "solve $$x^2 = 2") []
  = template_head ++ template_mid ++ lit "solve $x^2 = 2" ++ template_tail.
Proof.
  exact (proj1 (search_prompt_expands_dollar_patterns (lit "solve ") (lit "x^2 = 2") []
                  (List.Forall_nil _)
                  ltac:(apply (bool_decide_unpack _); vm_compute; exact I)
                  ltac:(apply (bool_decide_unpack _); vm_compute; exact I))).
Defined.

(** ** A stream from its first token to its end *)

Lemma on_RESPONSE_keys msg w :
  map fst (generatingMessages (snd (on_RESPONSE msg w)))
  = map fst (generatingMessages w).
Proof.
  unfold on_RESPONSE. cbv zeta. mstep.
  destruct (Map_get (rsp_eventId msg) (generatingMessages w)) as [state |];
    [| reflexivity].
  mstep.
  destruct (is_null (gs_firstTokenTime state)
            && (truthy_opt (rsp_content msg)
                || truthy_opt (rsp_reasoning_content msg)));
    destruct (truthy_opt (rsp_reasoning_content msg));
    destruct (is_null (gs_reasoningStartTime state));
    repeat mstep;
    cbn [fst snd mutate_state updateMessageMetadata modify with_messages
         with_generating generatingMessages];
    rewrite ?Map_keys_mutate; reflexivity.
Qed.

(** One token event of a generation in flight: the blocks of the state
    are those of [responseBlocks]; the stored row keeps its content and its
    status. *)
Lemma on_RESPONSE_step msg w state m :
  Map_get (rsp_eventId msg) (generatingMessages w) = Some state ->
  store_getMessage (rsp_eventId msg) w = Some m ->
  exists w' state' m',
    on_RESPONSE msg w = (Ok tt, w')
    /\ Map_get (rsp_eventId msg) (generatingMessages w') = Some state'
    /\ blocks_of state' = responseBlocks msg (w_now w) (blocks_of state)
    /\ store_getMessage (rsp_eventId msg) w' = Some m'
    /\ msg_content m' = msg_content m
    /\ msg_status m' = msg_status m.
Proof.
  intros Hstate Hm.
  unfold on_RESPONSE. cbv zeta. mstep. rewrite Hstate. mstep.
  destruct state as [message conv start [ft |] prompt [rs |] re lr];
    cbn [is_null gs_firstTokenTime gs_reasoningStartTime andb];
    destruct (truthy_opt (rsp_content msg));
    destruct (truthy_opt (rsp_reasoning_content msg));
    cbn [orb];
    repeat mstep;
    eexists; eexists; eexists; (split; [reflexivity |]);
    cbn [fst snd mutate_state updateMessageMetadata modify with_messages
         with_generating generatingMessages];
    rewrite ?Map_get_mutate, ?decide_True, Hstate by reflexivity;
    unfold store_getMessage in *;
    cbn [with_messages with_generating w_messages]; cbn beta;
    rewrite ?find_update_message, Hm by (intros [? ? ? [] ? ?]; reflexivity);
    cbn [fmap option_fmap option_map]; rewrite ?decide_True by reflexivity;
    (split; [reflexivity |]); (split; [reflexivity |]);
    (split; [reflexivity |]); split; reflexivity.
Qed.

Lemma deliver_run evs : forall w state m id,
  Map_get id (generatingMessages w) = Some state ->
  store_getMessage id w = Some m ->
  (forall ev, In ev evs -> rsp_eventId (fst ev) = id) ->
  exists w' state' m',
    deliver evs w = (Ok tt, w')
    /\ Map_get id (generatingMessages w') = Some state'
    /\ blocks_of state' = responseRun evs (blocks_of state)
    /\ store_getMessage id w' = Some m'
    /\ msg_content m' = msg_content m
    /\ msg_status m' = msg_status m.
Proof.
  induction evs as [| [msg now] evs IH]; intros w state m id Hstate Hm Hid.
  - exists w, state, m. repeat split; assumption.
  - assert (Hmsg : rsp_eventId msg = id) by (apply (Hid (msg, now)); now left).
    subst id.
    destruct (on_RESPONSE_step msg (with_now now w) state m Hstate Hm)
      as (w1 & state1 & m1 & Hrun1 & Hstate1 & Hblocks1 & Hm1 & Hc1 & Hs1).
    destruct (IH w1 state1 m1 (rsp_eventId msg) Hstate1 Hm1)
      as (w' & state' & m' & Hrun & Hstate' & Hblocks & Hm' & Hc & Hs).
    { intros ev Hev. apply Hid. now right. }
    exists w', state', m'. split; [| split; [exact Hstate' | split; [| split; [exact Hm' |]]]].
    + unfold deliver in *. cbn [forEach]. cbn [fst snd].
      erewrite bind_ok; [exact Hrun |].
      mstep. exact Hrun1.
    + rewrite Hblocks, Hblocks1. reflexivity.
    + split; congruence.
Qed.

Lemma text_of_set_status ty s blocks :
  text_of ty (map (set_status s) blocks) = text_of ty blocks.
Proof.
  unfold text_of. induction blocks as [| b blocks IH]; [reflexivity |].
  simpl. destruct (bool_decide (blk_type b = ty)); simpl; now rewrite IH.
Qed.

Lemma text_of_endBlocks ty now blocks :
  ty <> TyError -> text_of ty (endBlocks now blocks) = text_of ty blocks.
Proof.
  intros Hty. unfold endBlocks.
  destruct (negb _); rewrite ?text_of_app, text_of_set_status; [| reflexivity].
  unfold text_of. simpl. rewrite bool_decide_eq_false_2 by congruence.
  simpl. apply app_nil_r.
Qed.

(** X27: a stream from its first token to its end. When the token events
    of a generation in flight have been handled, each at its time, and then
    the end event, the stored message has the status sent, and the text of
    its content blocks is the text the generation held before, followed by
    the content payloads of the events in their order; likewise for its
    reasoning blocks and the reasoning payloads. The generation has left the
    map. *)
Theorem streamed_text_is_stored_at_end env id evs endTime w state m :
  distinct_keys w ->
  Map_get id (generatingMessages w) = Some state ->
  store_getMessage id w = Some m ->
  (forall ev, In ev evs -> rsp_eventId (fst ev) = id) ->
  exists w' m' stored,
    (deliver evs;; modify (with_now endTime);; on_END env id) w = (Ok tt, w')
    /\ Map_get id (generatingMessages w') = None
    /\ store_getMessage id w' = Some m'
    /\ msg_status m' = MsSent
    /\ msg_content m' = msg_content (edit_content stored m)
    /\ stored = endBlocks endTime (responseRun evs (blocks_of state))
    /\ text_of TyContent stored
       = text_of TyContent (blocks_of state)
         ++ concat (map (fun ev => payload (rsp_content (fst ev))) evs)
    /\ text_of TyReasoningContent stored
       = text_of TyReasoningContent (blocks_of state)
         ++ concat (map (fun ev => payload (rsp_reasoning_content (fst ev))) evs).
Proof.
  intros Hkeys Hstate Hm Hid.
  destruct (deliver_run evs w state m id Hstate Hm Hid)
    as (w1 & state1 & m1 & Hrun1 & Hstate1 & Hblocks1 & Hm1 & Hc1 & Hs1).
  destruct (on_END_run env id (with_now endTime w1) state1 Hstate1)
    as (w' & Hrun & Hrows & Hmap).
  exists w'. eexists. exists (endBlocks endTime (responseRun evs (blocks_of state))).
  split; [| split; [| split; [| split; [| split; [| split; [reflexivity | split]]]]]].
  - erewrite bind_ok by exact Hrun1. mstep. exact Hrun.
  - rewrite Hmap. apply Map_get_delete_eq. apply Map_keys_set_NoDup.
    cbn [with_now generatingMessages].
    assert (Hkeep : keeps distinct_keys (deliver evs)).
    { unfold deliver. apply keeps_forEach. intros ev.
      apply keeps_bind; [apply keeps_modify; auto | intros _].
      intros w0 H0. unfold distinct_keys.
      now rewrite on_RESPONSE_keys. }
    specialize (Hkeep w Hkeys). now rewrite Hrun1 in Hkeep.
  - unfold store_getMessage in *. rewrite Hrows.
    cbn [with_now w_messages w_now].
    rewrite !find_update_message, Hm1
      by (intros [? ? ? [] ? ?]; reflexivity).
    simpl. rewrite !decide_True by reflexivity. reflexivity.
  - destruct m1 as [? ? ? [] ? ?]; reflexivity.
  - cbn [with_now w_now]. rewrite Hblocks1.
    destruct m1 as [? ? ? c1 ? ?], m as [? ? ? c ? ?]. simpl in Hc1. subst c1.
    destruct c; reflexivity.
  - rewrite text_of_endBlocks by discriminate.
    rewrite responseRun_text. reflexivity.
  - rewrite text_of_endBlocks by discriminate.
    rewrite responseRun_text. reflexivity.
Qed.

Lemma streamed_text_is_stored_at_end_witness :
  exists w',
    (deliver [(mkResponse (lit "m1") (Some (lit "t")) None, 8%Z);
              (mkResponse (lit "m1") None (Some (lit "why")), 9%Z)];;
     modify (with_now 10);; on_END test_env (lit "m1")) streaming_world
    = (Ok tt, w')
    /\ Map_get (lit "m1") (generatingMessages w') = None
    /\ (msg_status <$> store_getMessage (lit "m1") w') = Some MsSent.
Proof.
  destruct (streamed_text_is_stored_at_end test_env (lit "m1")
              [(mkResponse (lit "m1") (Some (lit "t")) None, 8%Z);
               (mkResponse (lit "m1") None (Some (lit "why")), 9%Z)]
              10 streaming_world
              (fresh_state (lit "m1") [mkBlock TyContent (lit "par") StLoading 3 None])
              (assistant_message (lit "m1") MsPending []))
    as (w' & m' & stored & Hrun & Hgone & Hrow & Hstatus & _).
  - apply (bool_decide_unpack _). vm_compute. exact I.
  - reflexivity.
  - reflexivity.
  - intros ev [<- | [<- | []]]; reflexivity.
  - exists w'. split; [exact Hrun | split; [exact Hgone |]].
    rewrite Hrow. simpl. now rewrite Hstatus.
Defined.

(** X28: a stream that ends in an error. The error path builds the stored
    content from the content the store holds, and token events never write
    content to the store: so after any token events followed by the error
    event, the stored content is made from the content the row had before
    the first token, with none of the streamed text, and the generation has
    left the map. *)
Theorem streamed_text_is_not_stored_on_error env id evs errorTime error w state m :
  distinct_keys w ->
  Map_get id (generatingMessages w) = Some state ->
  store_getMessage id w = Some m ->
  (forall ev, In ev evs -> rsp_eventId (fst ev) = id) ->
  exists w' m',
    (deliver evs;; modify (with_now errorTime);; on_ERROR env id error) w
    = (Ok tt, w')
    /\ Map_get id (generatingMessages w') = None
    /\ store_getMessage id w' = Some m'
    /\ msg_status m' = MsError
    /\ msg_content m'
       = msg_content
           (edit_content
              (errorBlocks (String_ error) errorTime
                 (default [] (JSON_parse env (msg_content m))))
              m).
Proof.
  intros Hkeys Hstate Hm Hid.
  destruct (deliver_run evs w state m id Hstate Hm Hid)
    as (w1 & state1 & m1 & Hrun1 & Hstate1 & _ & Hm1 & Hc1 & _).
  assert (Hkeys1 : distinct_keys w1).
  { assert (Hkeep : keeps distinct_keys (deliver evs)).
    { unfold deliver. apply keeps_forEach. intros ev.
      apply keeps_bind; [apply keeps_modify; auto | intros _].
      intros w0 H0. unfold distinct_keys. now rewrite on_RESPONSE_keys. }
    specialize (Hkeep w Hkeys). now rewrite Hrun1 in Hkeep. }
  eexists. eexists. split; [| split; [| split; [| split]]].
  - erewrite bind_ok by exact Hrun1. mstep.
    rewrite (on_ERROR_run env id error _ state1) by exact Hstate1.
    rewrite handleMessageError_run.
    change (store_getMessage id (with_now errorTime w1))
      with (store_getMessage id w1).
    rewrite Hm1. cbn [snd]. reflexivity.
  - cbn [with_generating with_messages with_now generatingMessages].
    now apply Map_get_delete_eq.
  - unfold store_getMessage in *.
    cbn [with_generating with_messages with_now w_messages]. cbn beta.
    rewrite !find_update_message, Hm1 by (intros [? ? ? [] ? ?]; reflexivity).
    simpl. rewrite !decide_True by reflexivity. reflexivity.
  - destruct m1 as [? ? ? [] ? ?]; reflexivity.
  - cbn [with_now w_now].
    destruct m1 as [? ? ? c1 ? ?], m as [? ? ? c ? ?]. simpl in Hc1. subst c1.
    destruct c; reflexivity.
Qed.

Lemma streamed_text_is_not_stored_on_error_witness :
  exists w',
    (deliver [(mkResponse (lit "m1") (Some (lit "streamed")) None, 8%Z)];;
     modify (with_now 10);;
     on_ERROR test_env (lit "m1") (Error (lit "boom"))) streaming_world
    = (Ok tt, w')
    /\ (msg_content <$> store_getMessage (lit "m1") w')
       = Some (AssistantContent
                 [mkBlock TyError (lit "Error: boom") StError 10 None]).
Proof.
  destruct (streamed_text_is_not_stored_on_error test_env (lit "m1")
              [(mkResponse (lit "m1") (Some (lit "streamed")) None, 8%Z)]
              10 (Error (lit "boom")) streaming_world
              (fresh_state (lit "m1") [mkBlock TyContent (lit "par") StLoading 3 None])
              (assistant_message (lit "m1") MsPending []))
    as (w' & m' & Hrun & _ & Hrow & _ & Hcontent).
  - apply (bool_decide_unpack _). vm_compute. exact I.
  - reflexivity.
  - reflexivity.
  - intros ev [<- | []]; reflexivity.
  - exists w'. split; [exact Hrun |].
    rewrite Hrow. simpl. now rewrite Hcontent.
Defined.
